(** * A shallow embedding of the Cairo VM base classes

    Sources embedded here:
    - [starkware/cairo/lang/vm/virtual_machine_base.py]
      ([RunContextBase], [VirtualMachineBase], [get_perm_range_check_limits]);
    - [starkware/storage/storage.py] and [starkware/storage/dict_storage.py]
      ([Storage], [DictStorage], [CachedStorage]).

    Python objects are modelled as follows.  A [MaybeRelocatable] is a tagged
    value (an [int] or a [RelocatableValue]).  Dictionaries keyed by strings,
    segment indices or addresses whose iteration order is never observed are
    [gmap]s; the memory, which is iterated, is an insertion-ordered association
    list.  Code that may raise returns a [result]; methods of the virtual
    machine live in a state-and-exception monad [Method] that also records the
    calls made to externally supplied callables (rules, hints, the decoder).  *)

From stdpp Require Import gmap strings list fin_maps pretty.

Local Open Scope Z_scope.

(** ** Values *)

(** [starkware.cairo.lang.vm.relocatable.RelocatableValue]: a frozen pair. *)
Record RelocatableValue : Type := mkRelocatable {
  segment_index : Z;
  offset : Z
}.

(** [MaybeRelocatable = Union[int, RelocatableValue]]. *)
Inductive MaybeRelocatable : Type :=
| Int (value : Z)
| Reloc (value : RelocatableValue).

#[global] Instance RelocatableValue_eq_dec : EqDecision RelocatableValue.
Proof. solve_decision. Defined.

#[global] Instance MaybeRelocatable_eq_dec : EqDecision MaybeRelocatable.
Proof. solve_decision. Defined.

Definition RelocatableValue_to_pair (r : RelocatableValue) : Z * Z :=
  (segment_index r, offset r).

Definition RelocatableValue_of_pair (p : Z * Z) : RelocatableValue :=
  mkRelocatable p.1 p.2.

Lemma RelocatableValue_of_to_pair r :
  RelocatableValue_of_pair (RelocatableValue_to_pair r) = r.
Proof. by destruct r. Qed.

#[global] Instance RelocatableValue_countable : Countable RelocatableValue :=
  inj_countable' RelocatableValue_to_pair RelocatableValue_of_pair
                 RelocatableValue_of_to_pair.

Definition MaybeRelocatable_to_sum (v : MaybeRelocatable) : Z + RelocatableValue :=
  match v with Int z => inl z | Reloc r => inr r end.

Definition MaybeRelocatable_of_sum (s : Z + RelocatableValue) : MaybeRelocatable :=
  match s with inl z => Int z | inr r => Reloc r end.

Lemma MaybeRelocatable_of_to_sum v :
  MaybeRelocatable_of_sum (MaybeRelocatable_to_sum v) = v.
Proof. by destruct v. Qed.

#[global] Instance MaybeRelocatable_countable : Countable MaybeRelocatable :=
  inj_countable' MaybeRelocatable_to_sum MaybeRelocatable_of_sum
                 MaybeRelocatable_of_to_sum.

(** Modelled from the spec: [RelocatableValue.__sub__] with an [int] operand
    ([relocatable.py] is not among the sources).  "A relocatable may be offset
    by an integer"; on a plain [int] this is integer subtraction. *)
Definition sub_int (v : MaybeRelocatable) (n : Z) : MaybeRelocatable :=
  match v with
  | Int z => Int (z - n)
  | Reloc r => Reloc (mkRelocatable (segment_index r) (offset r - n))
  end.

(** Modelled from the spec: [RelocatableValue.__add__] with an [int] operand. *)
Definition add_int (v : MaybeRelocatable) (n : Z) : MaybeRelocatable :=
  match v with
  | Int z => Int (z + n)
  | Reloc r => Reloc (mkRelocatable (segment_index r) (offset r + n))
  end.

(** Python [bytes]: a string of 8-bit characters. *)
Abbreviation bytes := string (only parsing).

(** ** Exceptions and results *)

Inductive PyException : Type :=
| AssertionError (msg : string)
| IndexError (msg : string)
| KeyError (key : string)
| ValueError (msg : string)
| NotImplementedError (msg : string)
| SyntaxError (msg : string)
| UnknownMemoryError (addr : MaybeRelocatable)
| InconsistentMemoryError (addr old_value new_value : MaybeRelocatable)
| InconsistentAutoDeductionError (addr : RelocatableValue)
                                 (current_value new_value : MaybeRelocatable)
| VmExceptionBase (msg : string)
| HintException (inner_exc : PyException)
| VmException (pc : MaybeRelocatable) (inner_exc : PyException)
              (hint_index : option nat)
| SystemExit (code : Z)
| KeyboardInterrupt
| GeneratorExit
| OtherException (tag : nat).

(** [isinstance(e, Exception)]: [SystemExit], [KeyboardInterrupt] and
    [GeneratorExit] derive from [BaseException] alone, so that
    [except Exception] does not catch them; [OtherException] stands for the
    other classes that derive from [Exception]. *)
Definition is_Exception (e : PyException) : bool :=
  match e with
  | SystemExit _ | KeyboardInterrupt | GeneratorExit => false
  | _ => true
  end.

Inductive result (A : Type) : Type :=
| Ok (a : A)
| Raise (e : PyException).

Arguments Ok {A} a.
Arguments Raise {A} e.

#[global] Instance result_ret : MRet result := @Ok.
#[global] Instance result_bind : MBind result := λ A B f r,
  match r with Ok a => f a | Raise e => Raise e end.
#[global] Instance result_fmap : FMap result := λ A B f r,
  match r with Ok a => Ok (f a) | Raise e => Raise e end.

(** ** Memory *)

Module MemoryDict.

(** Modelled from the spec: [starkware.cairo.lang.vm.memory_dict.MemoryDict]
    ([memory_dict.py] is not among the sources).  A mapping
    address -> value kept in insertion order, as a Python [dict] is. *)
Definition t : Type := list (MaybeRelocatable * MaybeRelocatable).

Definition empty : t := [].

(** Modelled from the spec: [get(addr)]; "absent returns none". *)
Fixpoint get (m : t) (addr : MaybeRelocatable) : option MaybeRelocatable :=
  match m with
  | [] => None
  | (a, v) :: m' => if decide (a = addr) then Some v else get m' addr
  end.

(** Modelled from the spec: [memory[addr]]; reading an unwritten cell
    is an error (UnknownMemoryCell). *)
Definition getitem (m : t) (addr : MaybeRelocatable) : result MaybeRelocatable :=
  match get m addr with
  | Some v => Ok v
  | None => Raise (UnknownMemoryError addr)
  end.

(** Modelled from the spec: [memory[addr] = value]; "inserts; if addr already
    holds old, requires old == value, else fails with InconsistentMemory". *)
Definition setitem (m : t) (addr value : MaybeRelocatable) : result t :=
  match get m addr with
  | None => Ok (m ++ [(addr, value)])
  | Some old =>
      if decide (old = value) then Ok m
      else Raise (InconsistentMemoryError addr old value)
  end.

(** Modelled from the spec: iteration over all written addresses. *)
Definition keys (m : t) : list MaybeRelocatable := m.*1.

End MemoryDict.

(** Python's [min] and [max] on a list of integers. *)
Definition py_min (l : list Z) : result Z :=
  match l with
  | [] => Raise (ValueError "min() arg is an empty sequence")
  | x :: xs => Ok (foldl Z.min x xs)
  end.

Definition py_max (l : list Z) : result Z :=
  match l with
  | [] => Raise (ValueError "max() arg is an empty sequence")
  | x :: xs => Ok (foldl Z.max x xs)
  end.

(** ** Trace entries and the run context *)

Module TraceEntry.

(** Modelled from the spec: [TraceEntry { pc, ap, fp }], the registers
    captured before an instruction executes ([trace_entry.py] is not among
    the sources). *)
Record t (T : Type) : Type := mk { pc : T; ap : T; fp : T }.

Arguments mk {T} pc ap fp.
Arguments pc {T} _.
Arguments ap {T} _.
Arguments fp {T} _.

End TraceEntry.

Module RunContextBase.

(** [class RunContextBase]: "a complete state of the virtual machine". *)
Record t : Type := mk {
  memory : MemoryDict.t;
  pc : MaybeRelocatable;
  ap : MaybeRelocatable;
  fp : MaybeRelocatable;
  prime : Z
}.

Definition set_memory (m : MemoryDict.t) (ctx : t) : t :=
  mk m (pc ctx) (ap ctx) (fp ctx) (prime ctx).

End RunContextBase.

Definition MAX_TRACEBACK_ENTRIES : nat := 20.

(** ** The storage layer *)

Module LRUCache.

(** A model of [cachetools.LRUCache] (an external library) with the default
    [getsizeof], under which every item has size 1.  [items] is kept in order
    of use, the least recently used entry first. *)
Record t : Type := mk { maxsize : Z; items : list (bytes * bytes) }.

Definition new (maxsize : Z) : t := mk maxsize [].

Definition lookup (c : t) (key : bytes) : option bytes :=
  (list_find (λ kv, kv.1 = key) (items c)) ≫= λ r, Some r.2.2.

Definition contains (c : t) (key : bytes) : bool :=
  bool_decide (is_Some (lookup c key)).

Definition remove (key : bytes) (l : list (bytes * bytes)) : list (bytes * bytes) :=
  filter (λ kv, kv.1 ≠ key) l.

(** [cache[key]]: returns the value and marks the key as most recently used. *)
Definition getitem (c : t) (key : bytes) : result bytes * t :=
  match lookup c key with
  | Some v => (Ok v, mk (maxsize c) (remove key (items c) ++ [(key, v)]))
  | None => (Raise (KeyError key), c)
  end.

(** [cache[key] = value]: evicts least recently used entries while the cache
    is full, then stores the entry as most recently used. *)
Definition setitem (c : t) (key value : bytes) : result unit * t :=
  if decide (maxsize c < 1) then (Raise (ValueError "value too large"), c)
  else
    let kept :=
      if contains c key then remove key (items c)
      else drop (Z.to_nat (Z.of_nat (length (items c)) + 1 - maxsize c)) (items c) in
    (Ok (), mk (maxsize c) (kept ++ [(key, value)])).

End LRUCache.

Module storage.

(** The two counters of [starkware.storage.metrics] that [CachedStorage]
    increments; they are process-wide, so they are threaded next to the
    storage object. *)
Record Metrics : Type := mkMetrics {
  CACHED_STORAGE_GET_TOTAL : nat;
  CACHED_STORAGE_GET_CACHE : nat
}.

(** The classes deriving from [Storage] in the sources: [DictStorage], with
    its [db] dictionary, and [CachedStorage], wrapping another storage. *)
Inductive Storage : Type :=
| DictStorage (db : gmap bytes bytes)
| CachedStorage (storage : Storage) (cache : LRUCache.t) (metric_active : bool).

(** [self.__class__.__name__] *)
Definition class_name (self : Storage) : string :=
  match self with
  | DictStorage _ => "DictStorage"
  | CachedStorage _ _ _ => "CachedStorage"
  end.

(** An awaited coroutine of a storage: its result, and the storage and the
    counters it leaves behind. *)
Definition Coroutine (A : Type) : Type := result A * Storage * Metrics.

Fixpoint set_value (self : Storage) (key value : bytes) (g : Metrics)
  : Coroutine unit :=
  match self with
  | DictStorage db => (Ok (), DictStorage (<[key := value]> db), g)
  | CachedStorage storage cache metric_active =>
      match LRUCache.setitem cache key value with
      | (Ok _, cache') =>
          let '(r, storage', g') := set_value storage key value g in
          (r, CachedStorage storage' cache' metric_active, g')
      | (Raise e, cache') =>
          (Raise e, CachedStorage storage cache' metric_active, g)
      end
  end.

Fixpoint get_value (self : Storage) (key : bytes) (g : Metrics)
  : Coroutine (option bytes) :=
  match self with
  | DictStorage db => (Ok (db !! key), self, g)
  | CachedStorage storage cache metric_active =>
      let g1 := if metric_active
                then mkMetrics (S (CACHED_STORAGE_GET_TOTAL g)) (CACHED_STORAGE_GET_CACHE g)
                else g in
      if LRUCache.contains cache key then
        let g2 := if metric_active
                  then mkMetrics (CACHED_STORAGE_GET_TOTAL g1) (S (CACHED_STORAGE_GET_CACHE g1))
                  else g1 in
        let '(r, cache') := LRUCache.getitem cache key in
        (Some <$> r, CachedStorage storage cache' metric_active, g2)
      else
        match get_value storage key g1 with
        | (Ok None, storage', g2) =>
            (Ok None, CachedStorage storage' cache metric_active, g2)
        | (Ok (Some value), storage', g2) =>
            let '(r, cache') := LRUCache.setitem cache key value in
            ((λ _, Some value) <$> r, CachedStorage storage' cache' metric_active, g2)
        | (Raise e, storage', g2) =>
            (Raise e, CachedStorage storage' cache metric_active, g2)
        end
  end.

Definition del_value (self : Storage) (key : bytes) (g : Metrics)
  : Coroutine unit :=
  match self with
  | DictStorage db => (Ok (), DictStorage (delete key db), g)
  | CachedStorage _ _ _ =>
      (Raise (NotImplementedError
                "CachedStorage is expected to handle only immutable items"),
       self, g)
  end.

(** [Storage.setnx_value]; neither subclass overrides it. *)
Definition setnx_value (self : Storage) (key value : bytes) (g : Metrics)
  : Coroutine bool :=
  (Raise (NotImplementedError (class_name self +:+ " does not implement setnx_value")),
   self, g).

(** What a set-if-absent operation promises: it "inserts only if absent and
    returns whether it inserted".  Stated over the observable interface
    ([get_value]) of a storage. *)
Definition setnx_inserts_if_absent
    (self : Storage) (key value : bytes) (g : Metrics) : Prop :=
  ∃ (inserted : bool) (self' : Storage) (g' : Metrics),
    setnx_value self key value g = (Ok inserted, self', g') ∧
    (inserted = true ↔ (get_value self key g).1.1 = Ok None) ∧
    (inserted = true → (get_value self' key g').1.1 = Ok (Some value)) ∧
    (inserted = false → (get_value self' key g').1.1 = (get_value self key g).1.1).

(** [DictStorage.__init__]: without a dictionary, an empty one is made. *)
Definition DictStorage_init (db : option (gmap bytes bytes)) : Storage :=
  DictStorage (default ∅ db).

(** [CachedStorage.__init__]: the cache starts empty. *)
Definition CachedStorage_init
    (storage : Storage) (max_size : Z) (metric_active : bool) : Storage :=
  CachedStorage storage (LRUCache.new max_size) metric_active.

(** *** Text and numbers as byte strings *)

(** A Python [str]: a sequence of code points. *)
Definition py_str : Type := list N.

(** [value.encode("ascii")]: a code point above 127 raises
    [UnicodeEncodeError], a subclass of [ValueError]; its message, which
    quotes the character and its position, is shortened here. *)
Definition encode_ascii (value : py_str) : result bytes :=
  if forallb (λ c, c <? 128)%N value
  then Ok (String.string_of_list_ascii (Ascii.ascii_of_N <$> value))
  else Raise (ValueError "'ascii' codec can't encode character: ordinal not in range(128)").

(** [data.decode("ascii")]: likewise with [UnicodeDecodeError]. *)
Definition decode_ascii (data : bytes) : result py_str :=
  let codes := Ascii.N_of_ascii <$> String.list_ascii_of_string data in
  if forallb (λ c, c <? 128)%N codes
  then Ok codes
  else Raise (ValueError "'ascii' codec can't decode byte: ordinal not in range(128)").

(** The characters that [int()] skips around a number: space and the
    controls 9 to 13. *)
Definition is_space (c : Ascii.ascii) : bool :=
  let n := Ascii.N_of_ascii c in
  ((n =? 32) || ((9 <=? n) && (n <=? 13)))%N.

Definition is_digit (c : Ascii.ascii) : bool :=
  let n := Ascii.N_of_ascii c in ((48 <=? n) && (n <=? 57))%N.

Definition digit_value (c : Ascii.ascii) : N := (Ascii.N_of_ascii c - 48)%N.

Fixpoint lstrip (l : list Ascii.ascii) : list Ascii.ascii :=
  match l with
  | c :: l' => if is_space c then lstrip l' else l
  | [] => []
  end.

Definition strip (l : list Ascii.ascii) : list Ascii.ascii :=
  reverse (lstrip (reverse (lstrip l))).

(** The digits of a decimal literal, where single underscores may separate
    digits; [after_digit] tells whether the character before was a digit. *)
Fixpoint parse_digits (l : list Ascii.ascii) (acc : N) (after_digit : bool) : option N :=
  match l with
  | [] => if after_digit then Some acc else None
  | c :: l' =>
      if is_digit c then parse_digits l' (acc * 10 + digit_value c)%N true
      else if (Ascii.N_of_ascii c =? 95)%N (* an underscore *) then
        if after_digit then parse_digits l' acc false else None
      else None
  end.

(** [int(data)] on a byte string: base 10, with an optional sign, and
    surrounding white space skipped.  The message of the [ValueError], which
    quotes the literal, is shortened here; the limit that recent
    interpreters put on the number of digits is left out. *)
Definition py_int (data : bytes) : result Z :=
  let body := strip (String.list_ascii_of_string data) in
  let '(negative, digits) :=
    match body with
    | c :: digits =>
        if (Ascii.N_of_ascii c =? 45)%N (* a minus sign *) then (true, digits)
        else if (Ascii.N_of_ascii c =? 43)%N (* a plus sign *) then (false, digits)
        else (false, body)
    | [] => (false, body)
    end in
  match parse_digits digits 0 false with
  | Some n => Ok (if negative then - Z.of_N n else Z.of_N n)
  | None => Raise (ValueError "invalid literal for int() with base 10")
  end.

(** *** The typed helpers of [Storage] *)

(** A value that passes [assert isinstance(value, int)]: an integer, or a
    boolean, [bool] being a subclass of [int]. *)
Inductive py_int_instance : Type :=
| PyInt (value : Z)
| PyBool (value : bool).

(** [str(value)]: the decimal numeral of an integer, and the name of a
    boolean. *)
Definition py_str_of_int (value : py_int_instance) : string :=
  match value with
  | PyInt value => pretty value
  | PyBool true => "True"
  | PyBool false => "False"
  end.

(** [set_int]: [str(value).encode("ascii")] is stored. *)
Definition set_int
    (self : Storage) (key : bytes) (value : py_int_instance) (g : Metrics)
  : Coroutine unit :=
  let value_bytes := py_str_of_int value in
  set_value self key value_bytes g.

Definition setnx_int
    (self : Storage) (key : bytes) (value : py_int_instance) (g : Metrics)
  : Coroutine bool :=
  let value_bytes := py_str_of_int value in
  setnx_value self key value_bytes g.

Definition get_int (self : Storage) (key : bytes) (default : option Z) (g : Metrics)
  : Coroutine (option Z) :=
  match get_value self key g with
  | (Ok None, self', g') => (Ok default, self', g')
  | (Ok (Some result), self', g') => (Some <$> py_int result, self', g')
  | (Raise e, self', g') => (Raise e, self', g')
  end.

Definition set_str (self : Storage) (key : bytes) (value : py_str) (g : Metrics)
  : Coroutine unit :=
  match encode_ascii value with
  | Ok value_bytes => set_value self key value_bytes g
  | Raise e => (Raise e, self, g)
  end.

Definition setnx_str (self : Storage) (key : bytes) (value : py_str) (g : Metrics)
  : Coroutine bool :=
  match encode_ascii value with
  | Ok value_bytes => setnx_value self key value_bytes g
  | Raise e => (Raise e, self, g)
  end.

Definition get_str
    (self : Storage) (key : bytes) (default : option py_str) (g : Metrics)
  : Coroutine (option py_str) :=
  match get_value self key g with
  | (Ok None, self', g') => (Ok default, self', g')
  | (Ok (Some result), self', g') => (Some <$> decode_ascii result, self', g')
  | (Raise e, self', g') => (Raise e, self', g')
  end.

(** *** Database objects *)

Definition hex_digit (n : N) : Ascii.ascii :=
  Ascii.ascii_of_N (if (n <? 10)%N then 48 + n else 87 + n)%N.

(** [repr(data)] of a byte string: the literal [b'...'], quoted with double
    quotes when the data holds a single quote and no double quote; the
    quote and the backslash are escaped, tab, newline and return are written
    as letters and other bytes outside the printable range in hexadecimal. *)
Definition py_repr_bytes (data : bytes) : string :=
  let codes := Ascii.N_of_ascii <$> String.list_ascii_of_string data in
  let quote : N :=
    if bool_decide (39%N ∈ codes) && negb (bool_decide (34%N ∈ codes)) then 34%N
    else 39%N in
  let escape (c : N) : list Ascii.ascii :=
    if ((c =? quote) || (c =? 92))%N then [Ascii.ascii_of_N 92; Ascii.ascii_of_N c]
    else if (c =? 9)%N then [Ascii.ascii_of_N 92; Ascii.ascii_of_N 116]
    else if (c =? 10)%N then [Ascii.ascii_of_N 92; Ascii.ascii_of_N 110]
    else if (c =? 13)%N then [Ascii.ascii_of_N 92; Ascii.ascii_of_N 114]
    else if ((c <? 32) || (127 <=? c))%N then
      [Ascii.ascii_of_N 92; Ascii.ascii_of_N 120;
       hex_digit (c `div` 16)%N; hex_digit (c `mod` 16)%N]
    else [Ascii.ascii_of_N c] in
  String.string_of_list_ascii
    ([Ascii.ascii_of_N 98; Ascii.ascii_of_N quote] ++ (codes ≫= escape)
       ++ [Ascii.ascii_of_N quote]).

(** [class DBObject(Serializable)]: what a class of database objects
    supplies ([Serializable] is not among the sources): its name, the prefix
    of its keys, and the two conversions, which may raise. *)
Class DBObject (T : Type) : Type := {
  cls_name : string;
  prefix : bytes;
  serialize : T → result bytes;
  deserialize : bytes → result T
}.

Arguments cls_name T {_}.
Arguments prefix T {_}.
Arguments deserialize T {_} _.

Section DBObject.

Context {T : Type} `{DBObject T}.

(** [cls.prefix() + b":" + suffix] *)
Definition db_key (suffix : bytes) : bytes := prefix T +:+ ":" +:+ suffix.

Definition get (storage : Storage) (suffix : bytes) (g : Metrics)
  : Coroutine (option T) :=
  match get_value storage (db_key suffix) g with
  | (Ok None, storage', g') => (Ok None, storage', g')
  | (Ok (Some result), storage', g') => (Some <$> deserialize T result, storage', g')
  | (Raise e, storage', g') => (Raise e, storage', g')
  end.

Definition get_or_fail (storage : Storage) (suffix : bytes) (g : Metrics)
  : Coroutine T :=
  let db_key := db_key suffix in
  match get_value storage db_key g with
  | (Ok None, storage', g') =>
      (Raise (AssertionError
                ("Key " +:+ py_repr_bytes db_key +:+ " does not appear in storage.")),
       storage', g')
  | (Ok (Some result), storage', g') => (deserialize T result, storage', g')
  | (Raise e, storage', g') => (Raise e, storage', g')
  end.

Definition set (self : T) (storage : Storage) (suffix : bytes) (g : Metrics)
  : Coroutine unit :=
  match serialize self with
  | Ok data => set_value storage (db_key suffix) data g
  | Raise e => (Raise e, storage, g)
  end.

Definition setnx (self : T) (storage : Storage) (suffix : bytes) (g : Metrics)
  : Coroutine bool :=
  match serialize self with
  | Ok data => setnx_value storage (db_key suffix) data g
  | Raise e => (Raise e, storage, g)
  end.

Definition get_update_for_mset (self : T) (suffix : bytes) : result (bytes * bytes) :=
  data ← serialize self; Ok (db_key suffix, data).

(** [class IndexedDBObject(DBObject)]: "a db object with integer key". *)
Definition key (index : Z) : bytes := db_key (pretty index).

Definition get_obj (storage : Storage) (index : Z) (g : Metrics)
  : Coroutine (option T) :=
  get storage (pretty index) g.

Definition set_obj (self : T) (storage : Storage) (index : Z) (g : Metrics)
  : Coroutine unit :=
  set self storage (pretty index) g.

Definition setnx_obj (self : T) (storage : Storage) (index : Z) (g : Metrics)
  : Coroutine bool :=
  setnx self storage (pretty index) g.

Definition get_indexed_update_for_mset (self : T) (index : Z) : result (bytes * bytes) :=
  data ← serialize self; Ok (key index, data).

End DBObject.

Arguments db_key T {_} _.
Arguments get T {_} _ _ _.
Arguments get_or_fail T {_} _ _ _.
Arguments key T {_} _.
Arguments get_obj T {_} _ _ _.

(** [class IntToIntMapping]: "a mapping from integer key to integer value".
    [to_bytes] and [from_bytes] of [starkware.python.utils], and the prefix
    that the class inherits, are not among the sources: they are taken as
    given. *)
Module IntToIntMapping.

Record t : Type := mk { value : Z }.

(** Python's [int.bit_length]. *)
Definition bit_length (z : Z) : Z :=
  if decide (z = 0) then 0 else Z.log2 (Z.abs z) + 1.

Section IntToIntMapping.

Variable to_bytes : Z → Z → result bytes.
Variable from_bytes : bytes → Z.
Variable inherited_prefix : bytes.

#[local] Instance db_object : DBObject t := {|
  cls_name := "IntToIntMapping";
  prefix := inherited_prefix;
  serialize := λ self,
    let length := (bit_length (value self) + 7) `div` 8 in
    to_bytes (value self) length;
  deserialize := λ data, Ok (mk (from_bytes data))
|}.

Definition get_value_or_fail (storage : Storage) (key : Z) (g : Metrics)
  : Coroutine Z :=
  match get_obj t storage key g with
  | (Ok None, storage', g') =>
      (Raise (AssertionError
                (cls_name t +:+ " value of key " +:+ pretty key
                   +:+ " does not appear in storage.")),
       storage', g')
  | (Ok (Some value_db_object), storage', g') => (Ok (value value_db_object), storage', g')
  | (Raise e, storage', g') => (Raise e, storage', g')
  end.

Definition setnx_value (storage : Storage) (key value : Z) (g : Metrics)
  : Coroutine bool :=
  setnx_obj (mk value) storage key g.

End IntToIntMapping.

End IntToIntMapping.

(** [HashFunctionType]; the hash functions are taken to be total. *)
Definition HashFunctionType : Type := bytes → bytes → bytes.

(** [class FactFetchingContext] *)
Record FactFetchingContext : Type := mkFactFetchingContext {
  ffc_storage : Storage;
  hash_func : HashFunctionType;
  n_workers : option Z
}.

(** [class Fact(DBObject)]: "a DB object with a DB key that is a hash of its
    value"; [_hash] is its abstract method. *)
Class Fact (T : Type) `{DBObject T} : Type := {
  _hash : T → HashFunctionType → bytes
}.

Definition set_fact {T : Type} `{Fact T} (self : T) (ffc : FactFetchingContext)
    (g : Metrics) : result bytes * FactFetchingContext * Metrics :=
  let hash_val := _hash self (hash_func ffc) in
  match set self (ffc_storage ffc) hash_val g with
  | (Ok _, storage', g') =>
      (Ok hash_val, mkFactFetchingContext storage' (hash_func ffc) (n_workers ffc), g')
  | (Raise e, storage', g') =>
      (Raise e, mkFactFetchingContext storage' (hash_func ffc) (n_workers ffc), g')
  end.

(** *** Notions used to state the properties of storages *)

(** What a storage holds: the dictionary at the bottom of the wrappers. *)
Fixpoint contents (self : Storage) : gmap bytes bytes :=
  match self with
  | DictStorage db => db
  | CachedStorage storage _ _ => contents storage
  end.

(** Every cache can hold an item, holds at most [maxsize] items, and holds
    only entries of the storage it wraps. *)
Fixpoint well_formed (self : Storage) : Prop :=
  match self with
  | DictStorage _ => True
  | CachedStorage storage cache _ =>
      well_formed storage ∧
      1 ≤ LRUCache.maxsize cache ∧
      Z.of_nat (length (LRUCache.items cache)) ≤ LRUCache.maxsize cache ∧
      Forall (λ kv, contents storage !! kv.1 = Some kv.2) (LRUCache.items cache)
  end.

(** A prefix that does not hold the separator of [db_key]. *)
Definition colon_free (prefix : bytes) : Prop :=
  Forall (λ c, Ascii.N_of_ascii c ≠ 58%N) (String.list_ascii_of_string prefix).

(** *** Example storages and classes *)

Definition example_metrics : Metrics := mkMetrics 0 0.

(** A cache of two items over a dictionary, with one item read already. *)
Definition example_warm_storage : Storage :=
  CachedStorage (DictStorage {[ "a" := "1"; "b" := "2" ]})
    (LRUCache.mk 2 [("a", "1")]) true.

(** A fresh cache of two items over a fresh cache of one item over an empty
    dictionary. *)
Definition example_cached_storage : Storage :=
  CachedStorage_init (CachedStorage_init (DictStorage_init None) 1 false) 2 true.

(** A cache that cannot hold an item, over an empty dictionary. *)
Definition example_refusing_storage : Storage :=
  CachedStorage_init (DictStorage_init None) 0 false.

(** Unsigned big-endian conversions, as [to_bytes] and [from_bytes] of
    [starkware.python.utils] with their default byte order; the
    [OverflowError] of a value that does not fit is [OtherException 0]. *)
Fixpoint example_big_endian (length : nat) (value : Z) : list Ascii.ascii :=
  match length with
  | O => []
  | S length' =>
      example_big_endian length' (value `div` 256)
        ++ [Ascii.ascii_of_N (Z.to_N (value `mod` 256))]
  end.

Definition example_to_bytes (value length : Z) : result bytes :=
  if decide (0 ≤ value < 256 ^ length)
  then Ok (String.string_of_list_ascii (example_big_endian (Z.to_nat length) value))
  else Raise (OtherException 0).

Definition example_from_bytes (data : bytes) : Z :=
  foldl (λ acc c, acc * 256 + Z.of_N (Ascii.N_of_ascii c)) 0
    (String.list_ascii_of_string data).

Definition example_mapping_class : DBObject IntToIntMapping.t :=
  IntToIntMapping.db_object example_to_bytes example_from_bytes "int_to_int".

(** A class of facts: byte strings kept as they are, under the hash of the
    string with itself. *)
Definition example_leaf_class : DBObject bytes := {|
  cls_name := "Leaf";
  prefix := "leaf";
  serialize := λ self, Ok self;
  deserialize := λ data, Ok data
|}.

Definition example_leaf_fact : @Fact bytes example_leaf_class := {|
  _hash := λ self hash_func, hash_func self self
|}.

Definition example_hash_func : HashFunctionType := λ x y, x +:+ "|" +:+ y.

Definition example_ffc : FactFetchingContext :=
  mkFactFetchingContext example_cached_storage example_hash_func None.

End storage.

(** ** Python objects held in hint scopes *)

(** The modular helpers that the constructor places in [static_locals]. *)
Inductive FieldOp : Type :=
| fadd | fsub | fmul | fdiv | fpow | fis_quad_residue | fsqrt.

(** The values of type [Any] found in the scope dictionaries. *)
Inductive PyObj : Type :=
| PyNone
| PyValue (v : MaybeRelocatable)
| PyStr (s : string)
| PyValidatedMemory
    (* a reference to the machine's [validated_memory] object *)
| PyVmConsts (pc ap fp : MaybeRelocatable) (memory : PyObj)
             (accessible_scopes : list string) (flow_tracking_data : nat)
    (* the [ids] object built by [CompiledHint.consts] *)
| PyBoundMethod (name : string)
    (* a bound method of the machine, e.g. [self.enter_scope] *)
| PyFieldOp (op : FieldOp) (p : Z)
    (* [lambda ..., p=self.prime: ...] *)
| PyFunction (name : string)
| PyBuiltins
| PyObject (id : nat).

(** A Python [dict] with string keys. *)
Abbreviation Dict := (gmap string PyObj).

(** ** Programs *)

Definition InstructionLocation : Type := string.

Module DebugInfo.
(** Modelled from the spec: [debug_info], with its [file_contents] and its
    [instruction_locations] by offset. *)
Record t : Type := mk {
  file_contents : gmap string string;
  instruction_locations : list (Z * InstructionLocation)
}.
End DebugInfo.

Module Hint.
(** Modelled from the spec: an entry of [program.hints],
    [{code, accessible_scopes, flow_tracking_data}]: the source text of the
    hint and the data its [ids] object is built from. *)
Record t : Type := mk {
  code : string;
  accessible_scopes : list string;
  flow_tracking_data : nat
}.
End Hint.

Module Program.
(** Modelled from the spec: the program input, as far as the machine reads
    it ([compiler/program.py] is not among the sources).  [hints] is a
    dictionary "pc offset -> ordered list" of hints; [load_hints] iterates
    over it, so its items are kept in order. *)
Record t : Type := mk {
  prime : Z;
  hints : list (Z * list Hint.t);
  debug_info : option DebugInfo.t
}.
End Program.

(** [ProgramBase]: a full [Program], or a [StrippedProgram] that carries
    neither hints nor debug information. *)
Inductive ProgramBase : Type :=
| FullProgram (program : Program.t)
| StrippedProgram (prime : Z).

Definition ProgramBase_prime (program : ProgramBase) : Z :=
  match program with
  | FullProgram p => Program.prime p
  | StrippedProgram prime => prime
  end.

(** ** Hints *)

(** An assignment to one of the attributes of the machine that [step] and
    [run_instruction] work on: the registers in the run context, the step
    counter and the trace. *)
Inductive Assignment : Type :=
| AssignPc (pc : MaybeRelocatable)
| AssignAp (ap : MaybeRelocatable)
| AssignFp (fp : MaybeRelocatable)
| AssignCurrentStep (current_step : nat)
| AssignTrace (trace : list (TraceEntry.t MaybeRelocatable)).

(** What a compiled hint does when executed, as a tree of the operations it
    performs on the objects it can reach from its bindings: its own globals,
    the validated memory, the three bound methods of the machine, and,
    through the machine that these methods are bound to, the flag
    [skip_instruction_execution], the registers, the step counter and the
    trace.  An operation that can raise hands the exception (if any) to its
    continuation, so a hint may catch it; [HRaise] lets the exception
    escape. *)
Inductive HintCode : Type :=
| HReturn
| HRaise (e : PyException)
| HSetSkip (flag : bool) (k : HintCode)
| HAssign (assignment : Assignment) (k : HintCode)
| HEnterScope (new_scope_locals : option Dict) (k : HintCode)
| HExitScope (k : option PyException → HintCode)
| HLoadProgram (program : Program.t) (program_base : MaybeRelocatable)
               (k : option PyException → HintCode)
| HMemoryGet (addr : MaybeRelocatable) (k : option MaybeRelocatable → HintCode)
| HMemorySet (addr value : MaybeRelocatable) (k : option PyException → HintCode)
| HLoadName (name : string) (k : option PyObj → HintCode)
| HStoreName (name : string) (value : PyObj) (k : HintCode)
| HDeleteName (name : string) (k : HintCode).

(** [@dataclasses.dataclass class CompiledHint] *)
Record CompiledHint : Type := mkCompiledHint {
  compiled : HintCode;
  consts : MaybeRelocatable → MaybeRelocatable → MaybeRelocatable → PyObj → PyObj
}.

(** ** Validated memory *)

Module ValidatedMemoryDict.

(** Modelled from the spec: a validation rule, "a function
    (memory, address) -> set of addresses it has now validated" that may
    raise; it is stored with its extra arguments. *)
Definition ValidationRule : Type :=
  MemoryDict.t → RelocatableValue → list PyObj → result (gset RelocatableValue).

(** Modelled from the spec: [ValidatedMemoryDict]
    ([validated_memory_dict.py] is not among the sources).  The wrapped
    [MemoryDict] is the one of the run context: it is shared, not copied,
    so it is passed to the operations below rather than stored here. *)
Record t : Type := mk {
  validation_rules : gmap Z (list (ValidationRule * list PyObj));
  validated_addresses : gset RelocatableValue
}.

Definition new : t := mk ∅ ∅.

Definition add_validation_rule
    (segment_index : Z) (rule : ValidationRule) (args : list PyObj) (self : t) : t :=
  mk (<[segment_index := default [] (validation_rules self !! segment_index) ++ [(rule, args)]]>
        (validation_rules self))
     (validated_addresses self).

Fixpoint run_validation_rules
    (rules : list (ValidationRule * list PyObj)) (memory : MemoryDict.t)
    (addr : RelocatableValue) (validated : gset RelocatableValue)
  : result unit * gset RelocatableValue :=
  match rules with
  | [] => (Ok (), validated)
  | (rule, args) :: rules' =>
      match rule memory addr args with
      | Ok validated_addresses =>
          run_validation_rules rules' memory addr (validated ∪ validated_addresses)
      | Raise e => (Raise e, validated)
      end
  end.

(** Modelled from the spec: the rules of the address's segment run unless
    the address is already validated. *)
Definition validate_memory_cell
    (self : t) (memory : MemoryDict.t) (addr : MaybeRelocatable) : result unit * t :=
  match addr with
  | Int _ => (Ok (), self)
  | Reloc r =>
      if decide (r ∈ validated_addresses self) then (Ok (), self)
      else
        let rules := default [] (validation_rules self !! segment_index r) in
        let '(res, validated) :=
          run_validation_rules rules memory r (validated_addresses self) in
        (res, mk (validation_rules self) validated)
  end.

(** Modelled from the spec: [validated_memory[addr] = value] writes to the
    memory ("write-once", see [MemoryDict.setitem]) and then validates the
    cell. *)
Definition setitem
    (self : t) (memory : MemoryDict.t) (addr value : MaybeRelocatable)
  : result unit * t * MemoryDict.t :=
  match MemoryDict.setitem memory addr value with
  | Ok memory' =>
      let '(res, self') := validate_memory_cell self memory' addr in
      (res, self', memory')
  | Raise e => (Raise e, self, memory)
  end.

End ValidatedMemoryDict.

(** ** The virtual machine *)

(** An auto-deduction rule is a Python callable taking the machine itself;
    it is represented by its name, and run by [call_rule] below. *)
Definition Rule : Type := string.

(** The attributes of a [VirtualMachineBase] object.  The scope dictionaries
    are Python objects referred to from several places at once (the scope
    stack, the local variable [exec_locals] of [step]), so they live in an
    object store [dicts] and [exec_scopes] lists their indices.  The memory is
    the one object shared by [run_context] and [validated_memory].
    [skip_instruction_execution], [current_step] and [trace] are attributes
    that the base class reads but leaves to its subclass to create. *)
Record VirtualMachineBase : Type := mkVM {
  prime : Z;
  builtin_runners : Dict;
  dicts : list Dict;
  exec_scopes : list nat;
  hints : gmap MaybeRelocatable (list CompiledHint);
  hint_pc_and_index : gmap nat (MaybeRelocatable * nat);
  instruction_debug_info : gmap MaybeRelocatable InstructionLocation;
  debug_file_contents : gmap string string;
  program : ProgramBase;
  validated_memory : ValidatedMemoryDict.t;
  auto_deduction : gmap Z (list (Rule * list PyObj));
  static_locals : Dict;
  run_context : RunContextBase.t;
  skip_instruction_execution : bool;
  current_step : nat;
  trace : list (TraceEntry.t MaybeRelocatable)
}.

Definition set_dicts (f : list Dict → list Dict) (vm : VirtualMachineBase) :=
  mkVM (prime vm) (builtin_runners vm) (f (dicts vm)) (exec_scopes vm) (hints vm)
       (hint_pc_and_index vm) (instruction_debug_info vm) (debug_file_contents vm)
       (program vm) (validated_memory vm) (auto_deduction vm) (static_locals vm)
       (run_context vm) (skip_instruction_execution vm) (current_step vm) (trace vm).

Definition set_exec_scopes (f : list nat → list nat) (vm : VirtualMachineBase) :=
  mkVM (prime vm) (builtin_runners vm) (dicts vm) (f (exec_scopes vm)) (hints vm)
       (hint_pc_and_index vm) (instruction_debug_info vm) (debug_file_contents vm)
       (program vm) (validated_memory vm) (auto_deduction vm) (static_locals vm)
       (run_context vm) (skip_instruction_execution vm) (current_step vm) (trace vm).

Definition set_hints
    (f : gmap MaybeRelocatable (list CompiledHint) → gmap MaybeRelocatable (list CompiledHint))
    (vm : VirtualMachineBase) :=
  mkVM (prime vm) (builtin_runners vm) (dicts vm) (exec_scopes vm) (f (hints vm))
       (hint_pc_and_index vm) (instruction_debug_info vm) (debug_file_contents vm)
       (program vm) (validated_memory vm) (auto_deduction vm) (static_locals vm)
       (run_context vm) (skip_instruction_execution vm) (current_step vm) (trace vm).

Definition set_hint_pc_and_index
    (f : gmap nat (MaybeRelocatable * nat) → gmap nat (MaybeRelocatable * nat))
    (vm : VirtualMachineBase) :=
  mkVM (prime vm) (builtin_runners vm) (dicts vm) (exec_scopes vm) (hints vm)
       (f (hint_pc_and_index vm)) (instruction_debug_info vm) (debug_file_contents vm)
       (program vm) (validated_memory vm) (auto_deduction vm) (static_locals vm)
       (run_context vm) (skip_instruction_execution vm) (current_step vm) (trace vm).

Definition set_instruction_debug_info
    (f : gmap MaybeRelocatable InstructionLocation → gmap MaybeRelocatable InstructionLocation)
    (vm : VirtualMachineBase) :=
  mkVM (prime vm) (builtin_runners vm) (dicts vm) (exec_scopes vm) (hints vm)
       (hint_pc_and_index vm) (f (instruction_debug_info vm)) (debug_file_contents vm)
       (program vm) (validated_memory vm) (auto_deduction vm) (static_locals vm)
       (run_context vm) (skip_instruction_execution vm) (current_step vm) (trace vm).

Definition set_debug_file_contents
    (f : gmap string string → gmap string string) (vm : VirtualMachineBase) :=
  mkVM (prime vm) (builtin_runners vm) (dicts vm) (exec_scopes vm) (hints vm)
       (hint_pc_and_index vm) (instruction_debug_info vm) (f (debug_file_contents vm))
       (program vm) (validated_memory vm) (auto_deduction vm) (static_locals vm)
       (run_context vm) (skip_instruction_execution vm) (current_step vm) (trace vm).

(** Replaces the validated memory object's own state and the memory it shares
    with the run context. *)
Definition set_memory
    (validated : ValidatedMemoryDict.t) (memory : MemoryDict.t) (vm : VirtualMachineBase) :=
  mkVM (prime vm) (builtin_runners vm) (dicts vm) (exec_scopes vm) (hints vm)
       (hint_pc_and_index vm) (instruction_debug_info vm) (debug_file_contents vm)
       (program vm) validated (auto_deduction vm) (static_locals vm)
       (RunContextBase.set_memory memory (run_context vm))
       (skip_instruction_execution vm) (current_step vm) (trace vm).

Definition set_auto_deduction
    (f : gmap Z (list (Rule * list PyObj)) → gmap Z (list (Rule * list PyObj)))
    (vm : VirtualMachineBase) :=
  mkVM (prime vm) (builtin_runners vm) (dicts vm) (exec_scopes vm) (hints vm)
       (hint_pc_and_index vm) (instruction_debug_info vm) (debug_file_contents vm)
       (program vm) (validated_memory vm) (f (auto_deduction vm)) (static_locals vm)
       (run_context vm) (skip_instruction_execution vm) (current_step vm) (trace vm).

Definition set_skip_instruction_execution (flag : bool) (vm : VirtualMachineBase) :=
  mkVM (prime vm) (builtin_runners vm) (dicts vm) (exec_scopes vm) (hints vm)
       (hint_pc_and_index vm) (instruction_debug_info vm) (debug_file_contents vm)
       (program vm) (validated_memory vm) (auto_deduction vm) (static_locals vm)
       (run_context vm) flag (current_step vm) (trace vm).

(** [self.run_context.pc = pc] and the like. *)
Definition assign (assignment : Assignment) (vm : VirtualMachineBase)
  : VirtualMachineBase :=
  let ctx := run_context vm in
  let with_registers pc ap fp :=
    mkVM (prime vm) (builtin_runners vm) (dicts vm) (exec_scopes vm) (hints vm)
         (hint_pc_and_index vm) (instruction_debug_info vm) (debug_file_contents vm)
         (program vm) (validated_memory vm) (auto_deduction vm) (static_locals vm)
         (RunContextBase.mk (RunContextBase.memory ctx) pc ap fp
                            (RunContextBase.prime ctx))
         (skip_instruction_execution vm) (current_step vm) (trace vm) in
  match assignment with
  | AssignPc pc => with_registers pc (RunContextBase.ap ctx) (RunContextBase.fp ctx)
  | AssignAp ap => with_registers (RunContextBase.pc ctx) ap (RunContextBase.fp ctx)
  | AssignFp fp => with_registers (RunContextBase.pc ctx) (RunContextBase.ap ctx) fp
  | AssignCurrentStep current_step =>
      mkVM (prime vm) (builtin_runners vm) (dicts vm) (exec_scopes vm) (hints vm)
           (hint_pc_and_index vm) (instruction_debug_info vm) (debug_file_contents vm)
           (program vm) (validated_memory vm) (auto_deduction vm) (static_locals vm)
           (run_context vm) (skip_instruction_execution vm) current_step (trace vm)
  | AssignTrace trace =>
      mkVM (prime vm) (builtin_runners vm) (dicts vm) (exec_scopes vm) (hints vm)
           (hint_pc_and_index vm) (instruction_debug_info vm) (debug_file_contents vm)
           (program vm) (validated_memory vm) (auto_deduction vm) (static_locals vm)
           (run_context vm) (skip_instruction_execution vm) (current_step vm) trace
  end.

(** The memory of the machine: [self.run_context.memory], which is also the
    memory behind [self.validated_memory]. *)
Definition vm_memory (vm : VirtualMachineBase) : MemoryDict.t :=
  RunContextBase.memory (run_context vm).

(** The dictionary object at a reference. *)
Definition deref (vm : VirtualMachineBase) (ref : nat) : Dict :=
  default ∅ (dicts vm !! ref).

(** *** Calls to supplied callables, as recorded during a method *)

Inductive Event : Type :=
| CallRule (rule : Rule) (addr : RelocatableValue) (args : list PyObj)
| ExecHint (hint_index : nat) (code : HintCode) (globals_ : Dict)
| HintMemoryWrite (addr value : MaybeRelocatable)
| HintAssign (assignment : Assignment)
| DecodeCurrentInstruction
| RunInstruction.

(** *** The monad of methods

    A method of the machine, run on a machine state, gives a result or an
    exception, the state it leaves behind (also when it raises: Python keeps
    the mutations made before the exception), and the calls it made. *)
Definition Method (A : Type) : Type :=
  VirtualMachineBase → result A * VirtualMachineBase * list Event.

#[global] Instance Method_ret : MRet Method := λ A a vm, (Ok a, vm, []).

#[global] Instance Method_bind : MBind Method := λ A B f m vm,
  match m vm with
  | (Ok a, vm1, log1) =>
      match f a vm1 with
      | (r, vm2, log2) => (r, vm2, log1 ++ log2)
      end
  | (Raise e, vm1, log1) => (Raise e, vm1, log1)
  end.

Definition get_self : Method VirtualMachineBase := λ vm, (Ok vm, vm, []).

Definition modify (f : VirtualMachineBase → VirtualMachineBase) : Method unit :=
  λ vm, (Ok (), f vm, []).

Definition raise {A} (e : PyException) : Method A := λ vm, (Raise e, vm, []).

Definition record (ev : Event) : Method unit := λ vm, (Ok (), vm, [ev]).

Definition lift_result {A} (r : result A) : Method A := λ vm, (r, vm, []).

Definition lift_state {A} (f : VirtualMachineBase → result A * VirtualMachineBase)
  : Method A :=
  λ vm, let '(r, vm') := f vm in (r, vm', []).

(** [try: m except Exception as e: ...]: the outcome of [m], caught. *)
Definition try {A} (m : Method A) : Method (result A) :=
  λ vm, match m vm with (r, vm', log) => (Ok r, vm', log) end.

Definition to_exception {A} (r : result A) : option PyException :=
  match r with Ok _ => None | Raise e => Some e end.

(** *** Operations on the dictionary objects *)

(** [d[name] = value] on the dictionary at [ref]. *)
Definition dict_setitem (ref : nat) (name : string) (value : PyObj) : Method unit :=
  modify (set_dicts (alter (<[name := value]>) ref)).

(** [d.update(other)]: the entries of [other] win. *)
Definition dict_update (ref : nat) (other : Dict) : Method unit :=
  modify (set_dicts (alter (λ d, other ∪ d) ref)).

(** [del d[name]]: a [KeyError] when the name is not bound. *)
Definition dict_delitem (ref : nat) (name : string) : Method unit :=
  vm ← get_self;
  match deref vm ref !! name with
  | Some _ => modify (set_dicts (alter (delete name) ref))
  | None => raise (KeyError name)
  end.

(** [self.validated_memory[addr] = value] *)
Definition validated_memory_setitem (addr value : MaybeRelocatable) : Method unit :=
  λ vm,
    let '(res, validated, memory) :=
      ValidatedMemoryDict.setitem (validated_memory vm) (vm_memory vm) addr value in
    (res, set_memory validated memory vm, []).

(** The entries that the constructor adds to [static_locals]. *)
Definition builtin_static_locals (prime : Z) : Dict :=
  <["PRIME" := PyValue (Int prime)]>
  (<["fadd" := PyFieldOp fadd prime]>
  (<["fsub" := PyFieldOp fsub prime]>
  (<["fmul" := PyFieldOp fmul prime]>
  (<["fdiv" := PyFieldOp fdiv prime]>
  (<["fpow" := PyFieldOp fpow prime]>
  (<["fis_quad_residue" := PyFieldOp fis_quad_residue prime]>
  (<["fsqrt" := PyFieldOp fsqrt prime]>
  (<["safe_div" := PyFunction "math_utils.safe_div"]> ∅)))))))).

(** ** The methods *)

Section VirtualMachine.

(** The parts supplied from outside the base class: the instruction
    decoders of the compiler, Python's [compile], the semantics of the
    registered auto-deduction rules, and the methods [check_eq],
    [decode_current_instruction] and [run_instruction] that the base
    class calls and its subclass defines. *)
Variable Instruction : Type.
Variable is_call_instruction : MaybeRelocatable → option MaybeRelocatable → bool.
Variable decode_instruction_values : MaybeRelocatable → result (Z * Z * Z * Z).
Variable compile : string → string → result HintCode.
Variable call_rule :
  Rule → VirtualMachineBase → RelocatableValue → list PyObj → option MaybeRelocatable.
Variable check_eq : VirtualMachineBase → MaybeRelocatable → MaybeRelocatable → bool.
Variable decode_current_instruction : VirtualMachineBase → result Instruction.
Variable run_instruction :
  Instruction → VirtualMachineBase → result unit * VirtualMachineBase.

(** **** [RunContextBase.get_traceback_entries] *)

(** The [for _ in range(MAX_TRACEBACK_ENTRIES)] loop, [n] iterations left. *)
Fixpoint traceback_loop
    (n : nat) (memory : MemoryDict.t) (fp : MaybeRelocatable)
    (entries : list MaybeRelocatable) : list MaybeRelocatable :=
  match n with
  | O => entries
  | S n' =>
      if decide (MemoryDict.get memory (sub_int fp 2) = Some fp) then entries
      else
        match MemoryDict.get memory (sub_int fp 2),
              MemoryDict.get memory (sub_int fp 1) with
        | Some fp', Some ret_pc =>
            let instruction0 := MemoryDict.get memory (sub_int ret_pc 2) in
            let instruction1 := MemoryDict.get memory (sub_int ret_pc 1) in
            let call_pc :=
              if match instruction1 with
                 | Some i1 => is_call_instruction i1 None
                 | None => false
                 end
              then Some (sub_int ret_pc 1)
              else if match instruction0, instruction1 with
                      | Some i0, Some i1 => is_call_instruction i0 (Some i1)
                      | _, _ => false
                      end
              then Some (sub_int ret_pc 2)
              else None in
            match call_pc with
            | Some call_pc => traceback_loop n' memory fp' (entries ++ [call_pc])
            | None => entries
            end
        | _, _ => entries
        end
  end.

Definition get_traceback_entries (self : RunContextBase.t) : list MaybeRelocatable :=
  reverse (traceback_loop MAX_TRACEBACK_ENTRIES (RunContextBase.memory self)
                          (RunContextBase.fp self) []).

(** **** [get_perm_range_check_limits] *)

Fixpoint collect_offsets
    (trace : list (TraceEntry.t Z)) (memory : MemoryDict.t) (offsets : list Z)
  : result (list Z) :=
  match trace with
  | [] => Ok offsets
  | entry :: trace' =>
      encoded_instruction ← MemoryDict.getitem memory (Int (TraceEntry.pc entry));
      '(_, off0, off1, off2) ← decode_instruction_values encoded_instruction;
      collect_offsets trace' memory (offsets ++ [off0; off1; off2])
  end.

Definition get_perm_range_check_limits
    (trace : list (TraceEntry.t Z)) (memory : MemoryDict.t) : result (Z * Z) :=
  offsets ← collect_offsets trace memory [];
  lo ← py_min offsets;
  hi ← py_max offsets;
  Ok (lo, hi).

(** **** Scopes *)

Definition enter_scope (new_scope_locals : option Dict) : Method unit :=
  let new_scope_locals := default ∅ new_scope_locals in
  vm ← get_self;
  (* {**new_scope_locals, **self.builtin_runners} *)
  let scope := builtin_runners vm ∪ new_scope_locals in
  let ref := length (dicts vm) in
  modify (set_dicts (λ d, d ++ [scope]));;
  modify (set_exec_scopes (λ s, s ++ [ref])).

Definition exit_scope : Method unit :=
  vm ← get_self;
  if decide (1 < length (exec_scopes vm))%nat
  then modify (set_exec_scopes (λ s, removelast s))
  else raise (AssertionError "Cannot exit main scope.").

(** **** Loading a program *)

(** [as_vm_exception] with [pc=None]: the exception is wrapped with the
    current pc.  The location, traceback text and notes of the wrapper
    are formatting only and are left out. *)
Definition as_vm_exception
    (exc : PyException) (hint_index : option nat) (vm : VirtualMachineBase)
  : PyException :=
  VmException (RunContextBase.pc (run_context vm)) exc hint_index.

Definition compile_hint (source filename : string) (hint_index : nat)
  : Method HintCode :=
  match compile source filename with
  | Ok code => mret code
  | Raise (SyntaxError msg) =>
      vm ← get_self;
      raise (as_vm_exception (HintException (SyntaxError msg)) (Some hint_index) vm)
  | Raise e => raise e
  end.

(** The inner loop of [load_hints], over the hints of one pc. *)
Fixpoint compile_hints
    (hint_index : nat) (hints : list Hint.t) (pc : MaybeRelocatable)
    (compiled_hints : list CompiledHint) : Method (list CompiledHint) :=
  match hints with
  | [] => mret compiled_hints
  | hint :: hints' =>
      vm ← get_self;
      let hint_id := size (hint_pc_and_index vm) in
      modify (set_hint_pc_and_index <[hint_id := (pc, hint_index)]>);;
      code ← compile_hint (Hint.code hint) ("<hint" +:+ pretty hint_id +:+ ">") hint_index;
      compile_hints (S hint_index) hints' pc
        (compiled_hints ++
           [mkCompiledHint code
              (λ pc ap fp memory,
                 PyVmConsts pc ap fp memory
                            (Hint.accessible_scopes hint)
                            (Hint.flow_tracking_data hint))])
  end.

Fixpoint load_hints_items
    (items : list (Z * list Hint.t)) (program_base : MaybeRelocatable) : Method unit :=
  match items with
  | [] => mret ()
  | (pc, hints) :: items' =>
      compiled_hints ← compile_hints 0 hints (add_int program_base pc) [];
      modify (set_hints <[add_int program_base pc := compiled_hints]>);;
      load_hints_items items' program_base
  end.

Definition load_hints (program : Program.t) (program_base : MaybeRelocatable)
  : Method unit :=
  load_hints_items (Program.hints program) program_base.

Definition load_debug_info
    (debug_info : option DebugInfo.t) (program_base : MaybeRelocatable) : Method unit :=
  match debug_info with
  | None => mret ()
  | Some debug_info =>
      modify (set_debug_file_contents (λ c, DebugInfo.file_contents debug_info ∪ c));;
      modify (set_instruction_debug_info (λ m,
        foldl (λ m item, <[add_int program_base item.1 := item.2]> m) m
              (DebugInfo.instruction_locations debug_info)))
  end.

Definition load_program (program : Program.t) (program_base : MaybeRelocatable)
  : Method unit :=
  vm ← get_self;
  if decide (prime vm = Program.prime program) then
    load_debug_info (Program.debug_info program) program_base;;
    load_hints program program_base
  else
    raise (AssertionError
             ("Unexpected prime for loaded program: " +:+ pretty (Program.prime program)
                +:+ " != " +:+ pretty (prime vm) +:+ ".")).

(** **** The constructor *)

(** The object as the assignments of [__init__] leave it, before the calls
    to [enter_scope] and [load_program].  The run context is kept for its
    memory, which [ValidatedMemoryDict(memory=run_context.memory)] wraps. *)
Definition new_object
    (program : ProgramBase) (run_context : RunContextBase.t)
    (static_locals : option Dict) (builtin_runners : Dict) : VirtualMachineBase :=
  {| prime := ProgramBase_prime program;
     builtin_runners := builtin_runners;
     dicts := [];
     exec_scopes := [];
     hints := ∅;
     hint_pc_and_index := ∅;
     instruction_debug_info := ∅;
     debug_file_contents := ∅;
     program := program;
     validated_memory := ValidatedMemoryDict.new;
     auto_deduction := ∅;
     (* static_locals.copy() ... .update({...}) *)
     static_locals :=
       builtin_static_locals (ProgramBase_prime program) ∪ default ∅ static_locals;
     run_context := run_context;
     skip_instruction_execution := false;
     current_step := 0%nat;
     trace := [] |}.

Definition __init__
    (program : ProgramBase) (run_context : RunContextBase.t)
    (hint_locals : Dict) (static_locals : option Dict) (builtin_runners : Dict)
    (program_base : MaybeRelocatable) : result VirtualMachineBase :=
  let body : Method unit :=
    enter_scope (Some hint_locals);;
    match program with
    | FullProgram p => load_program p program_base
    | StrippedProgram _ => mret ()
    end in
  match body (new_object program run_context static_locals builtin_runners) with
  | (Ok _, self, _) => Ok self
  | (Raise e, _, _) => Raise e
  end.

(** **** Hints *)

(** The run of a compiled hint with the dictionary at [globals_] as its
    globals. *)
Fixpoint exec_code (code : HintCode) (globals_ : nat) : Method unit :=
  match code with
  | HReturn => mret ()
  | HRaise e => raise e
  | HSetSkip flag k =>
      modify (set_skip_instruction_execution flag);;
      exec_code k globals_
  | HAssign assignment k =>
      record (HintAssign assignment);;
      modify (assign assignment);;
      exec_code k globals_
  | HEnterScope new_scope_locals k =>
      enter_scope new_scope_locals;;
      exec_code k globals_
  | HExitScope k =>
      r ← try exit_scope;
      exec_code (k (to_exception r)) globals_
  | HLoadProgram program program_base k =>
      r ← try (load_program program program_base);
      exec_code (k (to_exception r)) globals_
  | HMemoryGet addr k =>
      vm ← get_self;
      exec_code (k (MemoryDict.get (vm_memory vm) addr)) globals_
  | HMemorySet addr value k =>
      record (HintMemoryWrite addr value);;
      r ← try (validated_memory_setitem addr value);
      exec_code (k (to_exception r)) globals_
  | HLoadName name k =>
      vm ← get_self;
      exec_code (k (deref vm globals_ !! name)) globals_
  | HStoreName name value k =>
      dict_setitem globals_ name value;;
      exec_code k globals_
  | HDeleteName name k =>
      modify (set_dicts (alter (delete name) globals_));;
      exec_code k globals_
  end.

(** [exec_hint]: [exec(code, globals_)], where [except Exception] wraps
    what it catches by [as_vm_exception] and lets the other exceptions
    through.  Python's [exec] binds [__builtins__] in the globals when it is
    not bound yet. *)
Definition exec_hint (code : HintCode) (globals_ : nat) (hint_index : nat)
  : Method unit :=
  vm ← get_self;
  record (ExecHint hint_index code (deref vm globals_));;
  match deref vm globals_ !! "__builtins__" with
  | Some _ => mret ()
  | None => dict_setitem globals_ "__builtins__" PyBuiltins
  end;;
  r ← try (exec_code code globals_);
  match r with
  | Ok _ => mret ()
  | Raise e =>
      if is_Exception e then
        vm' ← get_self;
        raise (as_vm_exception (HintException e) (Some hint_index) vm')
      else raise e
  end.

(** **** [step] *)

(** One iteration of the loop over the hints of the current pc, up to
    the test of [skip_instruction_execution]. *)
Definition run_hint (hint_index : nat) (hint : CompiledHint) : Method unit :=
  vm ← get_self;
  exec_locals ← lift_result
    match last (exec_scopes vm) with
    | Some ref => Ok ref
    | None => Raise (IndexError "list index out of range")
    end;
  let memory := PyValidatedMemory in
  let ap := RunContextBase.ap (run_context vm) in
  let fp := RunContextBase.fp (run_context vm) in
  let pc := RunContextBase.pc (run_context vm) in
  dict_setitem exec_locals "memory" memory;;
  dict_setitem exec_locals "ap" (PyValue ap);;
  dict_setitem exec_locals "fp" (PyValue fp);;
  dict_setitem exec_locals "pc" (PyValue pc);;
  dict_setitem exec_locals "current_step" (PyValue (Int (Z.of_nat (current_step vm))));;
  dict_setitem exec_locals "ids" (consts hint pc ap fp memory);;
  dict_setitem exec_locals "vm_load_program" (PyBoundMethod "load_program");;
  dict_setitem exec_locals "vm_enter_scope" (PyBoundMethod "enter_scope");;
  dict_setitem exec_locals "vm_exit_scope" (PyBoundMethod "exit_scope");;
  dict_update exec_locals (static_locals vm);;
  exec_hint (compiled hint) exec_locals hint_index;;
  dict_delitem exec_locals "ids";;
  dict_delitem exec_locals "memory".

(** The loop over [enumerate(self.hints.get(self.run_context.pc, []))];
    its result tells whether [step] returned from inside the loop. *)
Fixpoint run_hints (hint_index : nat) (hints : list CompiledHint) : Method bool :=
  match hints with
  | [] => mret false
  | hint :: hints' =>
      run_hint hint_index hint;;
      vm ← get_self;
      if skip_instruction_execution vm then mret true
      else run_hints (S hint_index) hints'
  end.

Definition step : Method unit :=
  modify (set_skip_instruction_execution false);;
  vm ← get_self;
  returned ← run_hints 0 (default [] (hints vm !! RunContextBase.pc (run_context vm)));
  if (returned : bool) then mret ()
  else
    (* Decode. *)
    record DecodeCurrentInstruction;;
    vm ← get_self;
    instruction ← lift_result (decode_current_instruction vm);
    (* Run. *)
    record RunInstruction;;
    lift_state (run_instruction instruction).

(** **** Auto-deduction *)

Definition add_auto_deduction_rule
    (segment_index : Z) (rule : Rule) (args : list PyObj) : Method unit :=
  modify (set_auto_deduction (λ d,
    <[segment_index := default [] (d !! segment_index) ++ [(rule, args)]]> d)).

(** The loop of [deduce_memory_cell] over the rules of the segment. *)
Fixpoint deduce_loop (rules : list (Rule * list PyObj)) (addr : RelocatableValue)
  : Method (option MaybeRelocatable) :=
  match rules with
  | [] => mret None
  | (rule, args) :: rules' =>
      vm ← get_self;
      record (CallRule rule addr args);;
      match call_rule rule vm addr args with
      | None => deduce_loop rules' addr
      | Some value =>
          validated_memory_setitem (Reloc addr) value;;
          mret (Some value)
      end
  end.

Definition deduce_memory_cell (addr : MaybeRelocatable)
  : Method (option MaybeRelocatable) :=
  match addr with
  | Int _ => mret None
  | Reloc addr =>
      vm ← get_self;
      deduce_loop (default [] (auto_deduction vm !! segment_index addr)) addr
  end.

(** The inner loop of [verify_auto_deductions], over the rules of the
    segment of [addr]. *)
Fixpoint verify_rules (rules : list (Rule * list PyObj)) (addr : RelocatableValue)
  : Method unit :=
  match rules with
  | [] => mret ()
  | (rule, args) :: rules' =>
      vm ← get_self;
      record (CallRule rule addr args);;
      match call_rule rule vm addr args with
      | None => verify_rules rules' addr
      | Some value =>
          current ← lift_result (MemoryDict.getitem (vm_memory vm) (Reloc addr));
          if bool_decide (current ≠ value) && negb (check_eq vm current value)
          then raise (InconsistentAutoDeductionError addr current value)
          else verify_rules rules' addr
      end
  end.

(** The outer loop, over the addresses of the memory. *)
Fixpoint verify_addrs (addrs : list MaybeRelocatable) : Method unit :=
  match addrs with
  | [] => mret ()
  | Int _ :: addrs' => verify_addrs addrs'
  | Reloc addr :: addrs' =>
      vm ← get_self;
      verify_rules (default [] (auto_deduction vm !! segment_index addr)) addr;;
      verify_addrs addrs'
  end.

Definition verify_auto_deductions : Method unit :=
  vm ← get_self;
  verify_addrs (MemoryDict.keys (vm_memory vm)).

Definition end_run : Method unit :=
  verify_auto_deductions;;
  vm ← get_self;
  if decide (length (exec_scopes vm) ≠ 1%nat)
  then raise (VmExceptionBase "Every enter_scope() requires a corresponding exit_scope().")
  else mret ().

(** **** Locations and the traceback *)

(** [InstructionLocation.inst.to_string_with_content] and the text of a pc
    in an f-string are defined outside the sources. *)
Variable to_string_with_content : InstructionLocation → string → string.
Variable str_pc : MaybeRelocatable → string.

Definition get_location (pc : MaybeRelocatable) (vm : VirtualMachineBase)
  : option InstructionLocation :=
  instruction_debug_info vm !! pc.

Definition newline : string := String (Ascii.ascii_of_N 10) EmptyString.

Definition traceback_header : string :=
  "Cairo traceback (most recent call last):" +:+ newline.

(** The line that [get_traceback] adds for one entry. *)
Definition traceback_line (vm : VirtualMachineBase) (traceback_pc : MaybeRelocatable)
  : string :=
  match get_location traceback_pc vm with
  | None => "Unknown location (pc=" +:+ str_pc traceback_pc +:+ ")" +:+ newline
  | Some location =>
      to_string_with_content location ("(pc=" +:+ str_pc traceback_pc +:+ ")") +:+ newline
  end.

Definition get_traceback (vm : VirtualMachineBase) : option string :=
  let traceback :=
    foldl (λ traceback traceback_pc, traceback +:+ traceback_line vm traceback_pc)
          EmptyString (get_traceback_entries (run_context vm)) in
  if decide (String.length traceback = 0%nat) then None
  else Some (traceback_header +:+ traceback).

(** **** Notions used to state the properties *)

(** [o] is one of the offsets decoded from the instruction at the pc of some
    entry of the trace. *)
Definition decoded_offset
    (trace : list (TraceEntry.t Z)) (memory : MemoryDict.t) (o : Z) : Prop :=
  ∃ entry encoded flags off0 off1 off2,
    entry ∈ trace ∧
    MemoryDict.get memory (Int (TraceEntry.pc entry)) = Some encoded ∧
    decode_instruction_values encoded = Ok (flags, off0, off1, off2) ∧
    o ∈ [off0; off1; off2].

(** The entry of the trace points at a cell that holds an encoded
    instruction. *)
Definition decodable (memory : MemoryDict.t) (entry : TraceEntry.t Z) : Prop :=
  ∃ encoded flags off0 off1 off2,
    MemoryDict.get memory (Int (TraceEntry.pc entry)) = Some encoded ∧
    decode_instruction_values encoded = Ok (flags, off0, off1, off2).

(** The calls made to the rules of a list, in the order of the list. *)
Definition rule_calls (rules : list (Rule * list PyObj)) (addr : RelocatableValue)
  : list Event :=
  (λ ra, CallRule ra.1 addr ra.2) <$> rules.

(** The rule declines to deduce the cell. *)
Definition declines (vm : VirtualMachineBase) (addr : RelocatableValue)
    (ra : Rule * list PyObj) : Prop :=
  call_rule ra.1 vm addr ra.2 = None.

(** The rules registered for the segment of [addr]. *)
Definition segment_rules (vm : VirtualMachineBase) (addr : RelocatableValue)
  : list (Rule * list PyObj) :=
  default [] (auto_deduction vm !! segment_index addr).

(** A rule of the list gives, for the cell at [addr] that holds [current], a
    value [expected] that differs from it and that [check_eq] does not
    accept either. *)
Definition rule_mismatch
    (vm : VirtualMachineBase) (rules : list (Rule * list PyObj))
    (addr : RelocatableValue) (current expected : MaybeRelocatable) : Prop :=
  ∃ rule args,
    (rule, args) ∈ rules ∧
    call_rule rule vm addr args = Some expected ∧
    current ≠ expected ∧ check_eq vm current expected = false.

(** A written relocatable address with such a rule in its segment. *)
Definition mismatch
    (vm : VirtualMachineBase) (addr : RelocatableValue)
    (current expected : MaybeRelocatable) : Prop :=
  Reloc addr ∈ MemoryDict.keys (vm_memory vm) ∧
  MemoryDict.get (vm_memory vm) (Reloc addr) = Some current ∧
  rule_mismatch vm (segment_rules vm addr) addr current expected.

(** The message of the exception that [end_run] raises. *)
Definition unbalanced_scope : PyException :=
  VmExceptionBase "Every enter_scope() requires a corresponding exit_scope().".

(** [enter_scope({x: 1}); enter_scope(); exit_scope(); exit_scope()] *)
Definition balanced_scopes : Method unit :=
  enter_scope (Some {[ "x" := PyValue (Int 1) ]});;
  enter_scope None;;
  exit_scope;;
  exit_scope.

(** The references of the scope stack point into the object store. *)
Definition scopes_allocated (vm : VirtualMachineBase) : Prop :=
  Forall (λ ref, (ref < length (dicts vm))%nat) (exec_scopes vm).

(** What stays as it is between two states of the machine when only hints
    have run in between: everything but the scope dictionaries, the memory,
    the hint and debug tables, the skip flag and the attributes that a hint
    can assign.  The scope stack may change, but not become empty. *)
Record hint_frame (vm vm' : VirtualMachineBase) : Prop := mk_hint_frame {
  frame_prime : prime vm' = prime vm;
  frame_builtin_runners : builtin_runners vm' = builtin_runners vm;
  frame_program : program vm' = program vm;
  frame_static_locals : static_locals vm' = static_locals vm;
  frame_auto_deduction : auto_deduction vm' = auto_deduction vm;
  frame_scopes : exec_scopes vm ≠ [] → exec_scopes vm' ≠ [];
  frame_allocated : scopes_allocated vm → scopes_allocated vm'
}.

(** Every cell of the memory that differs between the two states was
    written by a hint, as recorded, and holds the value written. *)
Definition memory_frame (vm vm' : VirtualMachineBase) (log : list Event) : Prop :=
  ∀ addr,
    MemoryDict.get (vm_memory vm') addr ≠ MemoryDict.get (vm_memory vm) addr →
    ∃ value,
      HintMemoryWrite addr value ∈ log ∧
      MemoryDict.get (vm_memory vm') addr = Some value.

(** The attributes of the machine that a hint can assign. *)
Inductive Attribute : Type :=
| AttrPc | AttrAp | AttrFp | AttrCurrentStep | AttrTrace.

Definition assigned (assignment : Assignment) : Attribute :=
  match assignment with
  | AssignPc _ => AttrPc
  | AssignAp _ => AttrAp
  | AssignFp _ => AttrFp
  | AssignCurrentStep _ => AttrCurrentStep
  | AssignTrace _ => AttrTrace
  end.

(** No hint has assigned the attribute, by what was recorded. *)
Definition unassigned (attribute : Attribute) (log : list Event) : Prop :=
  ∀ assignment, HintAssign assignment ∈ log → assigned assignment ≠ attribute.

(** An attribute that no hint has assigned is as it was. *)
Definition attribute_frame (vm vm' : VirtualMachineBase) (log : list Event) : Prop :=
  (unassigned AttrPc log →
   RunContextBase.pc (run_context vm') = RunContextBase.pc (run_context vm)) ∧
  (unassigned AttrAp log →
   RunContextBase.ap (run_context vm') = RunContextBase.ap (run_context vm)) ∧
  (unassigned AttrFp log →
   RunContextBase.fp (run_context vm') = RunContextBase.fp (run_context vm)) ∧
  (unassigned AttrCurrentStep log → current_step vm' = current_step vm) ∧
  (unassigned AttrTrace log → trace vm' = trace vm).

(** What a hint records of what it writes: to the memory, or to an
    attribute of the machine. *)
Definition is_write (ev : Event) : Prop :=
  match ev with HintMemoryWrite _ _ | HintAssign _ => True | _ => False end.

Definition is_hint_event (ev : Event) : Prop :=
  match ev with
  | ExecHint _ _ _ | HintMemoryWrite _ _ | HintAssign _ => True
  | _ => False
  end.

(** The effect of a method that only runs hints, with events in [Q]. *)
Definition effect (Q : Event → Prop) (vm vm' : VirtualMachineBase) (log : list Event)
  : Prop :=
  hint_frame vm vm' ∧ Forall Q log ∧ memory_frame vm vm' log ∧
  attribute_frame vm vm' log.

Definition satisfies {A} (Q : Event → Prop) (m : Method A) : Prop :=
  ∀ vm, effect Q vm (m vm).1.2 (m vm).2.

(** The indices of the hints executed, in order. *)
Definition hint_indices (log : list Event) : list nat :=
  omap (λ ev, match ev with ExecHint i _ _ => Some i | _ => None end) log.

(** The dictionary that [step] makes of the top scope [d] before it
    executes a hint: the assignments to [exec_locals], then the update with
    the static locals. *)
Definition exec_locals_of (vm : VirtualMachineBase) (hint : CompiledHint) (d : Dict)
  : Dict :=
  let memory := PyValidatedMemory in
  let ap := RunContextBase.ap (run_context vm) in
  let fp := RunContextBase.fp (run_context vm) in
  let pc := RunContextBase.pc (run_context vm) in
  static_locals vm ∪
  <["vm_exit_scope" := PyBoundMethod "exit_scope"]>
  (<["vm_enter_scope" := PyBoundMethod "enter_scope"]>
  (<["vm_load_program" := PyBoundMethod "load_program"]>
  (<["ids" := consts hint pc ap fp memory]>
  (<["current_step" := PyValue (Int (Z.of_nat (current_step vm)))]>
  (<["pc" := PyValue pc]>
  (<["fp" := PyValue fp]>
  (<["ap" := PyValue ap]>
  (<["memory" := memory]> d)))))))).

(** The state in which the hint is executed: the top scope, at [ref], holds
    the bindings. *)
Definition bind_exec_locals
    (vm : VirtualMachineBase) (hint : CompiledHint) (ref : nat) : VirtualMachineBase :=
  set_dicts (alter (exec_locals_of vm hint) ref) vm.

(** A method that leaves the scope stack and the scope dictionaries alone. *)
Definition keeps_scopes {A} (m : Method A) : Prop :=
  ∀ vm, exec_scopes (m vm).1.2 = exec_scopes vm ∧ dicts (m vm).1.2 = dicts vm.

(** The calls that a driver can make on a machine, and a run: a sequence of
    calls, each made on the state that the one before left (also when that
    one raised, for the driver may catch the exception). *)
Inductive Call : Type :=
| CallEnterScope (new_scope_locals : option Dict)
| CallExitScope
| CallStep
| CallLoadProgram (program : Program.t) (program_base : MaybeRelocatable)
| CallAddAutoDeductionRule (segment_index : Z) (rule : Rule) (args : list PyObj)
| CallDeduceMemoryCell (addr : MaybeRelocatable)
| CallVerifyAutoDeductions
| CallEndRun.

Definition call (c : Call) : Method unit :=
  match c with
  | CallEnterScope new_scope_locals => enter_scope new_scope_locals
  | CallExitScope => exit_scope
  | CallStep => step
  | CallLoadProgram program program_base => load_program program program_base
  | CallAddAutoDeductionRule segment_index rule args =>
      add_auto_deduction_rule segment_index rule args
  | CallDeduceMemoryCell addr => deduce_memory_cell addr;; mret ()
  | CallVerifyAutoDeductions => verify_auto_deductions
  | CallEndRun => end_run
  end.

Fixpoint run_calls (calls : list Call) (vm : VirtualMachineBase) : VirtualMachineBase :=
  match calls with
  | [] => vm
  | c :: calls' => run_calls calls' (call c vm).1.2
  end.

(** The names that [step] binds in the dictionary it hands to a hint. *)
Definition bound_names : list string :=
  ["memory"; "ap"; "fp"; "pc"; "current_step"; "ids";
   "vm_load_program"; "vm_enter_scope"; "vm_exit_scope"].

(** The validated memory and the registers, under their names. *)
Definition register_bindings (vm : VirtualMachineBase) : list (string * PyObj) :=
  [("memory", PyValidatedMemory);
   ("ap", PyValue (RunContextBase.ap (run_context vm)));
   ("fp", PyValue (RunContextBase.fp (run_context vm)));
   ("pc", PyValue (RunContextBase.pc (run_context vm)))].

(** The bindings of a hint as the specification states them: the names are
    bound, so is every static local, [PRIME] is the prime of the program, and
    [memory], [ap], [fp], [pc] are the validated memory and the registers. *)
Definition hint_bindings_as_stated (vm : VirtualMachineBase) (globals_ : Dict) : Prop :=
  (∀ name, name ∈ bound_names → is_Some (globals_ !! name)) ∧
  (∀ name, is_Some (static_locals vm !! name) → is_Some (globals_ !! name)) ∧
  globals_ !! "PRIME" = Some (PyValue (Int (ProgramBase_prime (program vm)))) ∧
  (∀ name value, (name, value) ∈ register_bindings vm → globals_ !! name = Some value).

(** The bindings of a hint as the code makes them: [memory], [ap], [fp],
    [pc] are the validated memory and the registers unless a static local
    has that name, for every static local is bound to its own value. *)
Definition hint_bindings (vm : VirtualMachineBase) (globals_ : Dict) : Prop :=
  (∀ name, name ∈ bound_names → is_Some (globals_ !! name)) ∧
  (∀ name value, static_locals vm !! name = Some value → globals_ !! name = Some value) ∧
  (∀ name value,
     (name, value) ∈ register_bindings vm →
     static_locals vm !! name = None → globals_ !! name = Some value).

(** What the constructor establishes and hints keep: the references of the
    scope stack are allocated, and the static locals include those that the
    constructor adds for the prime of the program. *)
Definition constructed (vm : VirtualMachineBase) : Prop :=
  scopes_allocated vm ∧
  builtin_static_locals (ProgramBase_prime (program vm)) ⊆ static_locals vm.

(** The word before [ret_pc] alone encodes a call (no immediate). *)
Definition single_word_call (memory : MemoryDict.t) (ret_pc : MaybeRelocatable) : Prop :=
  ∃ i1, MemoryDict.get memory (sub_int ret_pc 1) = Some i1 ∧
        is_call_instruction i1 None = true.

(** The two words before [ret_pc] encode a call with an immediate. *)
Definition two_word_call (memory : MemoryDict.t) (ret_pc : MaybeRelocatable) : Prop :=
  ∃ i0 i1, MemoryDict.get memory (sub_int ret_pc 2) = Some i0 ∧
           MemoryDict.get memory (sub_int ret_pc 1) = Some i1 ∧
           is_call_instruction i0 (Some i1) = true.

(** The traceback walk as the specification words it: [walked memory n fp
    calls] when a walk of at most [n] frames from [fp] records [calls], the
    most recent call first. *)
Inductive walked (memory : MemoryDict.t)
  : nat → MaybeRelocatable → list MaybeRelocatable → Prop :=
| walked_limit fp :
    walked memory 0 fp []
| walked_outermost n fp :
    MemoryDict.get memory (sub_int fp 2) = Some fp →
    walked memory (S n) fp []
| walked_absent n fp :
    MemoryDict.get memory (sub_int fp 2) = None ∨
    MemoryDict.get memory (sub_int fp 1) = None →
    walked memory (S n) fp []
| walked_single n fp prev_fp ret_pc calls :
    MemoryDict.get memory (sub_int fp 2) = Some prev_fp → prev_fp ≠ fp →
    MemoryDict.get memory (sub_int fp 1) = Some ret_pc →
    single_word_call memory ret_pc →
    walked memory n prev_fp calls →
    walked memory (S n) fp (sub_int ret_pc 1 :: calls)
| walked_pair n fp prev_fp ret_pc calls :
    MemoryDict.get memory (sub_int fp 2) = Some prev_fp → prev_fp ≠ fp →
    MemoryDict.get memory (sub_int fp 1) = Some ret_pc →
    ¬ single_word_call memory ret_pc →
    two_word_call memory ret_pc →
    walked memory n prev_fp calls →
    walked memory (S n) fp (sub_int ret_pc 2 :: calls)
| walked_stop n fp prev_fp ret_pc :
    MemoryDict.get memory (sub_int fp 2) = Some prev_fp → prev_fp ≠ fp →
    MemoryDict.get memory (sub_int fp 1) = Some ret_pc →
    ¬ single_word_call memory ret_pc →
    ¬ two_word_call memory ret_pc →
    walked memory (S n) fp [].


(** The hint ids in use are the numbers below their count. *)
Definition dense_hint_ids (vm : VirtualMachineBase) : Prop :=
  ∀ hint_id,
    is_Some (hint_pc_and_index vm !! hint_id) ↔
    (hint_id < size (hint_pc_and_index vm))%nat.

(** The source of the hint compiles, under every file name. *)
Definition compiles (hint : Hint.t) : Prop :=
  ∀ filename, ∃ code, compile (Hint.code hint) filename = Ok code.

(** [c] is the hint compiled, under some file name, with the [ids] object
    that [load_hints] makes for it. *)
Definition compiled_from (hint : Hint.t) (c : CompiledHint) : Prop :=
  (∃ hint_id : nat,
     compile (Hint.code hint) ("<hint" +:+ pretty hint_id +:+ ">") = Ok (compiled c)) ∧
  consts c = (λ pc ap fp memory,
                PyVmConsts pc ap fp memory
                           (Hint.accessible_scopes hint)
                           (Hint.flow_tracking_data hint)).

(** What [compile_hint] raises when [compile] raises [e]. *)
Definition compile_error (vm : VirtualMachineBase) (e : PyException) (hint_index : nat)
  : PyException :=
  match e with
  | SyntaxError msg =>
      VmException (RunContextBase.pc (run_context vm)) (HintException (SyntaxError msg))
                  (Some hint_index)
  | _ => e
  end.

(** The exception is one that the loop over the hints of [step] lets out,
    in the state [vm'] that it leaves: an exception of a hint that
    [except Exception] catches, wrapped with the pc of that state and the
    index of the hint; an exception of a hint that it does not catch, as it
    is; or the [KeyError] of a [del] on a name that the hint unbound. *)
Definition hint_loop_exception
    (vm' : VirtualMachineBase) (count : nat) (e : PyException) : Prop :=
  (∃ inner hint_index,
     is_Exception inner = true ∧
     e = VmException (RunContextBase.pc (run_context vm')) (HintException inner)
                     (Some hint_index) ∧
     (hint_index < count)%nat) ∨
  is_Exception e = false ∨
  e = KeyError "ids" ∨ e = KeyError "memory".

(** What [run_instruction], which the subclass supplies, has to leave alone
    for the bindings of later hints: the scopes, the program and the static
    locals.  It may move the registers and extend the trace. *)
Definition keeps_bindings
    (run_instruction : Instruction → VirtualMachineBase → result unit * VirtualMachineBase)
  : Prop :=
  ∀ instruction vm,
    let vm' := (run_instruction instruction vm).2 in
    exec_scopes vm' = exec_scopes vm ∧ dicts vm' = dicts vm ∧
    program vm' = program vm ∧ static_locals vm' = static_locals vm.

(** A step that a hint has cut short, as the specification states it: no
    trace entry is appended, and pc, ap and fp are unchanged. *)
Definition skipped_step_as_stated (vm : VirtualMachineBase) : Prop :=
  ∀ vm' log,
    step vm = (Ok (), vm', log) →
    skip_instruction_execution vm' = true →
    trace vm' = trace vm ∧
    RunContextBase.pc (run_context vm') = RunContextBase.pc (run_context vm) ∧
    RunContextBase.ap (run_context vm') = RunContextBase.ap (run_context vm) ∧
    RunContextBase.fp (run_context vm') = RunContextBase.fp (run_context vm).

(** **** Example inputs *)

(** A decoder of instruction words with three 16-bit offsets below the
    flags, to run [get_perm_range_check_limits] on. *)
Definition example_decode_instruction_values (encoded_instruction : MaybeRelocatable)
  : result (Z * Z * Z * Z) :=
  match encoded_instruction with
  | Int z =>
      if decide (0 ≤ z < 2 ^ 63) then
        Ok (z ≫ 48, Z.land z 65535, Z.land (z ≫ 16) 65535, Z.land (z ≫ 32) 65535)
      else Raise (AssertionError "Unsupported instruction.")
  | Reloc _ => Raise (AssertionError "Unsupported instruction.")
  end.

Definition example_encode (off0 off1 off2 : Z) : MaybeRelocatable :=
  Int (off0 + off1 ≪ 16 + off2 ≪ 32).

(** A memory after relocation with three instructions, and a trace over them. *)
Definition example_program_memory : MemoryDict.t :=
  [(Int 0, example_encode 1 2 3);
   (Int 1, example_encode 0 5 2);
   (Int 2, example_encode 4 4 4)].

Definition example_trace : list (TraceEntry.t Z) :=
  [TraceEntry.mk 0 100 100; TraceEntry.mk 1 101 100; TraceEntry.mk 2 102 100].

(** A recogniser of call instructions to run the traceback on: the word 100
    is a call without immediate, and the word 200 followed by any immediate
    is a call with immediate. *)
Definition example_is_call_instruction
    (encoded_instruction : MaybeRelocatable) (imm : option MaybeRelocatable) : bool :=
  match encoded_instruction, imm with
  | Int 100, None => true
  | Int 200, Some _ => true
  | _, _ => false
  end.

(** A frame at fp = 1:10 called from 0:18..0:19, where both readings of the
    words before the return pc 0:20 are calls; the caller's frame, at 1:4, is
    the outermost one. *)
Definition example_run_context : RunContextBase.t :=
  RunContextBase.mk
    [(Reloc (mkRelocatable 0 18), Int 200);
     (Reloc (mkRelocatable 0 19), Int 100);
     (Reloc (mkRelocatable 1 2), Reloc (mkRelocatable 1 4));
     (Reloc (mkRelocatable 1 8), Reloc (mkRelocatable 1 4));
     (Reloc (mkRelocatable 1 9), Reloc (mkRelocatable 0 20))]
    (Reloc (mkRelocatable 0 30))
    (Reloc (mkRelocatable 1 12))
    (Reloc (mkRelocatable 1 10))
    3618502788666131213697322783095070105623107215331596699973092056135872020481.

(** A machine to run the methods on.  Python's [compile] knows three hint
    sources; the rules are one that always declines and one that gives back
    its argument; [check_eq] is equality; an instruction is decoded to
    nothing, and running it records the registers and moves on. *)
Definition example_compile (source filename : string) : result HintCode :=
  if decide (source = "pass") then Ok HReturn
  else if decide (source = "skip") then
    Ok (HMemorySet (Reloc (mkRelocatable 1 0)) (Int 7) (λ _, HSetSkip true HReturn))
  else if decide (source = "scope") then
    Ok (HEnterScope None (HExitScope (λ _, HExitScope (λ _, HReturn))))
  else Raise (SyntaxError "invalid syntax").

Definition example_call_rule
    (rule : Rule) (vm : VirtualMachineBase) (addr : RelocatableValue) (args : list PyObj)
  : option MaybeRelocatable :=
  if decide (rule = "constant") then
    match args with
    | [PyValue value] => Some value
    | _ => None
    end
  else None.

Definition example_check_eq
    (vm : VirtualMachineBase) (val0 val1 : MaybeRelocatable) : bool :=
  bool_decide (val0 = val1).

Definition example_decode_current_instruction (vm : VirtualMachineBase) : result unit :=
  Ok ().

Definition example_run_instruction (instruction : unit) (vm : VirtualMachineBase)
  : result unit * VirtualMachineBase :=
  let ctx := run_context vm in
  (Ok (),
   mkVM (prime vm) (builtin_runners vm) (dicts vm) (exec_scopes vm) (hints vm)
        (hint_pc_and_index vm) (instruction_debug_info vm) (debug_file_contents vm)
        (program vm) (validated_memory vm) (auto_deduction vm) (static_locals vm)
        (RunContextBase.mk (RunContextBase.memory ctx)
           (add_int (RunContextBase.pc ctx) 1) (RunContextBase.ap ctx)
           (RunContextBase.fp ctx) (RunContextBase.prime ctx))
        (skip_instruction_execution vm) (S (current_step vm))
        (trace vm ++ [TraceEntry.mk (RunContextBase.pc ctx) (RunContextBase.ap ctx)
                                    (RunContextBase.fp ctx)])).

Definition example_prime : Z := 2 ^ 251 + 17 * 2 ^ 192 + 1.

Definition example_program : Program.t :=
  Program.mk example_prime
    [(0, [Hint.mk "pass" [] 0; Hint.mk "skip" [] 1; Hint.mk "pass" [] 2])]
    None.

Definition example_initial_context : RunContextBase.t :=
  RunContextBase.mk [] (Reloc (mkRelocatable 0 0)) (Reloc (mkRelocatable 1 0))
                    (Reloc (mkRelocatable 1 0)) example_prime.

(** The [ids] object of a hint, as [load_hints] builds it. *)
Definition example_consts (hint : Hint.t)
  : MaybeRelocatable → MaybeRelocatable → MaybeRelocatable → PyObj → PyObj :=
  λ pc ap fp memory,
    PyVmConsts pc ap fp memory (Hint.accessible_scopes hint) (Hint.flow_tracking_data hint).

(** The hints of the example program, compiled. *)
Definition example_hints : list CompiledHint :=
  [mkCompiledHint HReturn (example_consts (Hint.mk "pass" [] 0));
   mkCompiledHint
     (HMemorySet (Reloc (mkRelocatable 1 0)) (Int 7) (λ _, HSetSkip true HReturn))
     (example_consts (Hint.mk "skip" [] 1));
   mkCompiledHint HReturn (example_consts (Hint.mk "pass" [] 2))].

(** The machine that the constructor returns for the example program, given
    the caller's static locals: the main scope only, and the hints loaded at
    the program base 0:0. *)
Definition example_machine (static_locals : option Dict) : VirtualMachineBase :=
  {| prime := example_prime;
     builtin_runners := ∅;
     dicts := [∅];
     exec_scopes := [0%nat];
     hints := {[ Reloc (mkRelocatable 0 0) := example_hints ]};
     hint_pc_and_index :=
       {[ 0%nat := (Reloc (mkRelocatable 0 0), 0%nat);
          1%nat := (Reloc (mkRelocatable 0 0), 1%nat);
          2%nat := (Reloc (mkRelocatable 0 0), 2%nat) ]};
     instruction_debug_info := ∅;
     debug_file_contents := ∅;
     program := FullProgram example_program;
     validated_memory := ValidatedMemoryDict.new;
     auto_deduction := ∅;
     static_locals := builtin_static_locals example_prime ∪ default ∅ static_locals;
     run_context := example_initial_context;
     skip_instruction_execution := false;
     current_step := 0%nat;
     trace := [] |}.

(** The same with a caller's static local that goes by the name of a
    register. *)
Definition example_shadowing_machine : VirtualMachineBase :=
  example_machine (Some {[ "ap" := PyValue (Int 0) ]}).

(** The example machine with three rules registered on segment 2: one that
    declines and two that give 42 and 43. *)
Definition example_rules_machine : VirtualMachineBase :=
  set_auto_deduction
    (λ _, {[ 2 := [("decline", []);
                   ("constant", [PyValue (Int 42)]);
                   ("constant", [PyValue (Int 43)])] ]})
    (example_machine None).

Definition example_cell : RelocatableValue := mkRelocatable 2 5.

(** That machine after the cell 2:5 has been deduced to hold 42. *)
Definition example_deduced_machine : VirtualMachineBase :=
  set_memory ValidatedMemoryDict.new [(Reloc example_cell, Int 42)] example_rules_machine.

(** The example machine with, at its pc, a hint that moves the pc, adds an
    entry to the trace and asks for the instruction to be skipped; and with
    a hint that leaves the interpreter. *)
Definition example_moving_machine : VirtualMachineBase :=
  set_hints
    (λ _, {[ Reloc (mkRelocatable 0 0) :=
               [mkCompiledHint
                  (HAssign (AssignPc (Reloc (mkRelocatable 0 5)))
                     (HAssign (AssignTrace
                                 [TraceEntry.mk (Reloc (mkRelocatable 0 0))
                                                (Reloc (mkRelocatable 1 0))
                                                (Reloc (mkRelocatable 1 0))])
                        (HSetSkip true HReturn)))
                  (example_consts (Hint.mk "jump" [] 0))] ]})
    (example_machine None).

Definition example_exiting_machine : VirtualMachineBase :=
  set_hints
    (λ _, {[ Reloc (mkRelocatable 0 0) :=
               [mkCompiledHint (HRaise (SystemExit 1))
                               (example_consts (Hint.mk "exit(1)" [] 0))] ]})
    (example_machine None).

(** The object as the constructor has it before it loads the program. *)
Definition example_new_object : VirtualMachineBase :=
  new_object (FullProgram example_program) example_initial_context None ∅.

(** A program whose second pc with hints has a hint that does not compile. *)
Definition example_failing_program : Program.t :=
  Program.mk example_prime
    [(0, [Hint.mk "pass" [] 0]);
     (4, [Hint.mk "pass" [] 1; Hint.mk "x =" [] 2; Hint.mk "pass" [] 3])]
    None.

(** The example machine with, at its pc, a hint that does nothing and one
    that binds a name; and with a hint that raises. *)
Definition example_quiet_machine : VirtualMachineBase :=
  set_hints
    (λ _, {[ Reloc (mkRelocatable 0 0) :=
               [mkCompiledHint HReturn (example_consts (Hint.mk "pass" [] 0));
                mkCompiledHint (HStoreName "x" (PyValue (Int 1)) HReturn)
                               (example_consts (Hint.mk "x = 1" [] 1))] ]})
    (example_machine None).

Definition example_raising_machine : VirtualMachineBase :=
  set_hints
    (λ _, {[ Reloc (mkRelocatable 0 0) :=
               [mkCompiledHint HReturn (example_consts (Hint.mk "pass" [] 0));
                mkCompiledHint (HRaise (ValueError "boom"))
                               (example_consts (Hint.mk "raise ValueError('boom')" [] 1))] ]})
    (example_machine None).

Definition example_debug_info : DebugInfo.t :=
  DebugInfo.mk {[ "main.cairo" := "ret;" ]} [(0, "main.cairo:1:1"); (2, "main.cairo:2:1")].

(** ** Properties *)

(** *** The memory *)

Lemma MemoryDict_get_Some_keys (m : MemoryDict.t) addr v :
  MemoryDict.get m addr = Some v → addr ∈ MemoryDict.keys m.
Proof.
  induction m as [|[a w] m IH]; simpl; [done|].
  case_decide; subst; intros ?; [left | right; auto].
Qed.

Lemma MemoryDict_keys_get (m : MemoryDict.t) addr :
  addr ∈ MemoryDict.keys m → is_Some (MemoryDict.get m addr).
Proof.
  induction m as [|[a w] m IH]; simpl.
  - by intros ?%elem_of_nil.
  - intros [->|?]%elem_of_cons; case_decide; eauto; done.
Qed.

Lemma MemoryDict_get_app_None (m : MemoryDict.t) addr a v :
  MemoryDict.get m addr = None →
  MemoryDict.get (m ++ [(a, v)]) addr = if decide (a = addr) then Some v else None.
Proof.
  induction m as [|[b w] m IH]; simpl; [done|].
  destruct (decide (b = addr)); [done | auto].
Qed.

Lemma MemoryDict_get_app_Some (m m' : MemoryDict.t) addr v :
  MemoryDict.get m addr = Some v → MemoryDict.get (m ++ m') addr = Some v.
Proof.
  induction m as [|[b w] m IH]; simpl; [done|].
  case_decide; auto.
Qed.

(** A successful write stores the value, and leaves every other cell alone. *)
Lemma MemoryDict_setitem_get (m : MemoryDict.t) addr value m' :
  MemoryDict.setitem m addr value = Ok m' → MemoryDict.get m' addr = Some value.
Proof.
  unfold MemoryDict.setitem. destruct (MemoryDict.get m addr) as [old|] eqn:E.
  - case_decide; [|done]. intros [= <-]. by subst.
  - intros [= <-]. rewrite MemoryDict_get_app_None; [|done]. by rewrite decide_True.
Qed.

Lemma MemoryDict_setitem_get_ne (m : MemoryDict.t) addr value m' a :
  MemoryDict.setitem m addr value = Ok m' → a ≠ addr →
  MemoryDict.get m' a = MemoryDict.get m a.
Proof.
  unfold MemoryDict.setitem. destruct (MemoryDict.get m addr) as [old|] eqn:E.
  - case_decide; [|done]. by intros [= <-].
  - intros [= <-] Hne. destruct (MemoryDict.get m a) as [w|] eqn:Ea.
    + by apply MemoryDict_get_app_Some.
    + rewrite MemoryDict_get_app_None; [|done]. by rewrite decide_False.
Qed.

(** *** Range-check limits *)

Lemma foldl_min_le (xs : list Z) (x : Z) :
  foldl Z.min x xs ≤ x ∧ (∀ y, y ∈ xs → foldl Z.min x xs ≤ y) ∧
  foldl Z.min x xs ∈ x :: xs.
Proof.
  revert x. induction xs as [|a xs IH]; intros x; simpl.
  - split; [lia|]. split; [by intros ? ?%elem_of_nil | left].
  - destruct (IH (x `min` a)) as (H1 & H2 & H3). split; [lia|]. split.
    + intros y [->|Hy]%elem_of_cons; [lia | auto].
    + apply elem_of_cons in H3 as [H3|H3]; [|by do 2 right].
      rewrite H3. destruct (Z.min_spec x a) as [[_ ->]|[_ ->]]; [left | right; left].
Qed.

Lemma foldl_max_ge (xs : list Z) (x : Z) :
  x ≤ foldl Z.max x xs ∧ (∀ y, y ∈ xs → y ≤ foldl Z.max x xs) ∧
  foldl Z.max x xs ∈ x :: xs.
Proof.
  revert x. induction xs as [|a xs IH]; intros x; simpl.
  - split; [lia|]. split; [by intros ? ?%elem_of_nil | left].
  - destruct (IH (x `max` a)) as (H1 & H2 & H3). split; [lia|]. split.
    + intros y [->|Hy]%elem_of_cons; [lia | auto].
    + apply elem_of_cons in H3 as [H3|H3]; [|by do 2 right].
      rewrite H3. destruct (Z.max_spec x a) as [[_ ->]|[_ ->]]; [right; left | left].
Qed.

Lemma collect_offsets_decodable trace memory offsets :
  Forall (decodable memory) trace →
  ∃ collected,
    collect_offsets trace memory offsets = Ok (offsets ++ collected) ∧
    (∀ o, o ∈ collected ↔ decoded_offset trace memory o) ∧
    (trace ≠ [] → collected ≠ []).
Proof.
  intros Hall. revert offsets.
  induction Hall as [|entry trace (enc & fl & o0 & o1 & o2 & Hget & Hdec) Hall IH];
    intros offsets.
  - exists []. rewrite app_nil_r. split; [done|]. split; [|done].
    intros o. split.
    + by intros ?%elem_of_nil.
    + intros (e & ? & ? & ? & ? & ? & []%elem_of_nil & _).
  - destruct (IH (offsets ++ [o0; o1; o2])) as (coll & Hc & Hmem & _).
    exists ([o0; o1; o2] ++ coll). split; [|split].
    + simpl. unfold MemoryDict.getitem. rewrite Hget. simpl. rewrite Hdec. simpl.
      rewrite Hc. by rewrite <-app_assoc.
    + intros o. rewrite elem_of_app, Hmem. split.
      * intros [Ho|(e & enc' & fl' & a & b & c & He & ?)].
        -- exists entry, enc, fl, o0, o1, o2. repeat split; [left|done..].
        -- exists e, enc', fl', a, b, c. split; [by right | done].
      * intros (e & enc' & fl' & a & b & c & [->|He]%elem_of_cons & Hg & Hd & Ho).
        -- left. rewrite Hget in Hg. injection Hg as <-. rewrite Hdec in Hd.
           by injection Hd as <- <- <- <-.
        -- right. by exists e, enc', fl', a, b, c.
    + done.
Qed.

(** C8: on a non-empty trace whose entries all point at encoded instructions,
    [get_perm_range_check_limits] returns a pair [(lo, hi)] where [lo] is the
    least and [hi] the greatest of the offsets [off0], [off1], [off2] decoded
    over all entries; for three entries decoding to (1,2,3), (0,5,2), (4,4,4)
    the pair is (0, 5). *)
Theorem get_perm_range_check_limits_min_max :
  (∀ trace memory,
     trace ≠ [] → Forall (decodable memory) trace →
     ∃ lo hi,
       get_perm_range_check_limits trace memory = Ok (lo, hi) ∧
       decoded_offset trace memory lo ∧ decoded_offset trace memory hi ∧
       ∀ o, decoded_offset trace memory o → lo ≤ o ≤ hi) ∧
  (∀ memory e1 e2 e3 w1 w2 w3 f1 f2 f3,
     MemoryDict.get memory (Int (TraceEntry.pc e1)) = Some w1 →
     MemoryDict.get memory (Int (TraceEntry.pc e2)) = Some w2 →
     MemoryDict.get memory (Int (TraceEntry.pc e3)) = Some w3 →
     decode_instruction_values w1 = Ok (f1, 1, 2, 3) →
     decode_instruction_values w2 = Ok (f2, 0, 5, 2) →
     decode_instruction_values w3 = Ok (f3, 4, 4, 4) →
     get_perm_range_check_limits [e1; e2; e3] memory = Ok (0, 5)).
Proof.
  split.
  - intros trace memory Hne Hall.
    destruct (collect_offsets_decodable trace memory [] Hall) as (coll & Hc & Hmem & Hnil).
    simpl in Hc. specialize (Hnil Hne). destruct coll as [|x xs]; [done|].
    exists (foldl Z.min x xs), (foldl Z.max x xs).
    destruct (foldl_min_le xs x) as (Hm1 & Hm2 & Hm3).
    destruct (foldl_max_ge xs x) as (HM1 & HM2 & HM3).
    split; [|split; [|split]].
    + unfold get_perm_range_check_limits. by rewrite Hc.
    + by apply Hmem.
    + by apply Hmem.
    + intros o [->|Ho]%Hmem%elem_of_cons; split; auto.
  - intros memory e1 e2 e3 w1 w2 w3 f1 f2 f3 G1 G2 G3 D1 D2 D3.
    unfold get_perm_range_check_limits, collect_offsets, MemoryDict.getitem.
    rewrite G1; simpl; rewrite D1; simpl.
    rewrite G2; simpl; rewrite D2; simpl.
    rewrite G3; simpl; rewrite D3; simpl. done.
Qed.

(** C10: on the empty trace [get_perm_range_check_limits] returns no pair: it
    raises the [ValueError] of [min] on an empty list, whatever the memory. *)
Theorem get_perm_range_check_limits_empty_trace (memory : MemoryDict.t) :
  get_perm_range_check_limits [] memory
  = Raise (ValueError "min() arg is an empty sequence").
Proof. reflexivity. Qed.

(** *** Tracebacks *)

Lemma single_word_call_dec memory ret_pc :
  single_word_call memory ret_pc ↔
  match MemoryDict.get memory (sub_int ret_pc 1) with
  | Some i1 => is_call_instruction i1 None
  | None => false
  end = true.
Proof.
  unfold single_word_call. destruct (MemoryDict.get memory (sub_int ret_pc 1)) as [i1|].
  - split; [by intros (? & [= <-] & ?) | eauto].
  - split; [by intros (? & ? & ?) | done].
Qed.

Lemma two_word_call_dec memory ret_pc :
  two_word_call memory ret_pc ↔
  match MemoryDict.get memory (sub_int ret_pc 2),
        MemoryDict.get memory (sub_int ret_pc 1) with
  | Some i0, Some i1 => is_call_instruction i0 (Some i1)
  | _, _ => false
  end = true.
Proof.
  unfold two_word_call.
  destruct (MemoryDict.get memory (sub_int ret_pc 2)) as [i0|],
           (MemoryDict.get memory (sub_int ret_pc 1)) as [i1|];
    (split; [by intros (? & ? & ? & ? & ?); simplify_eq | by eauto]).
Qed.

Lemma traceback_loop_walked memory n fp calls entries :
  walked memory n fp calls →
  traceback_loop n memory fp entries = entries ++ calls.
Proof.
  intros Hw. revert entries.
  induction Hw as [fp|n fp Hout|n fp Habs|n fp prev ret calls Hp Hne Hr Hs Hw IH
                  |n fp prev ret calls Hp Hne Hr Hns Ht Hw IH|n fp prev ret Hp Hne Hr Hns Hnt];
    intros entries; simpl.
  - by rewrite app_nil_r.
  - rewrite decide_True by done. by rewrite app_nil_r.
  - rewrite app_nil_r. case_decide; [done|].
    destruct Habs as [-> | ->]; [done|].
    by destruct (MemoryDict.get memory (sub_int fp 2)).
  - rewrite decide_False by (rewrite Hp; congruence). rewrite Hp, Hr.
    apply single_word_call_dec in Hs. rewrite Hs.
    rewrite IH. by rewrite <-app_assoc.
  - rewrite decide_False by (rewrite Hp; congruence). rewrite Hp, Hr.
    rewrite single_word_call_dec in Hns. apply not_true_is_false in Hns. rewrite Hns.
    apply two_word_call_dec in Ht. rewrite Ht.
    rewrite IH. by rewrite <-app_assoc.
  - rewrite decide_False by (rewrite Hp; congruence). rewrite Hp, Hr.
    rewrite single_word_call_dec in Hns. apply not_true_is_false in Hns. rewrite Hns.
    rewrite two_word_call_dec in Hnt. apply not_true_is_false in Hnt. rewrite Hnt.
    by rewrite app_nil_r.
Qed.

Lemma walked_total memory n fp : ∃ calls, walked memory n fp calls.
Proof.
  revert fp. induction n as [|n IH]; intros fp; [by eexists; constructor|].
  destruct (MemoryDict.get memory (sub_int fp 2)) as [prev|] eqn:Hp;
    [|eexists; apply walked_absent; by left].
  destruct (decide (prev = fp)) as [->|Hne]; [eexists; by apply walked_outermost|].
  destruct (MemoryDict.get memory (sub_int fp 1)) as [ret|] eqn:Hr;
    [|eexists; apply walked_absent; by right].
  destruct (IH prev) as [calls Hcalls].
  destruct (match MemoryDict.get memory (sub_int ret 1) with
            | Some i1 => is_call_instruction i1 None
            | None => false
            end) eqn:Hs.
  { eexists. eapply walked_single; eauto. by apply single_word_call_dec. }
  assert (¬ single_word_call memory ret) as Hns
    by (rewrite single_word_call_dec, Hs; done).
  destruct (match MemoryDict.get memory (sub_int ret 2),
                  MemoryDict.get memory (sub_int ret 1) with
            | Some i0, Some i1 => is_call_instruction i0 (Some i1)
            | _, _ => false
            end) eqn:Ht.
  { eexists. eapply walked_pair; eauto. by apply two_word_call_dec. }
  eexists. eapply walked_stop; eauto. rewrite two_word_call_dec, Ht. done.
Qed.

(** C6: [get_traceback_entries] returns, most recent call last, the calls of
    the walk in which a frame whose word at [ret_pc - 1] alone encodes a call
    is recorded as [ret_pc - 1] (whatever the pair of words encodes), a frame
    where only the pair encodes a call as [ret_pc - 2], and a frame where
    neither does ends the walk with what was collected. *)
Theorem get_traceback_entries_walk (self : RunContextBase.t) :
  (∃ calls,
     walked (RunContextBase.memory self) MAX_TRACEBACK_ENTRIES
            (RunContextBase.fp self) calls) ∧
  (∀ calls,
     walked (RunContextBase.memory self) MAX_TRACEBACK_ENTRIES
            (RunContextBase.fp self) calls →
     get_traceback_entries self = reverse calls).
Proof.
  split; [apply walked_total|].
  intros calls Hw. unfold get_traceback_entries.
  by rewrite (traceback_loop_walked _ _ _ calls []).
Qed.

(** *** Auto-deduction *)

(** Unfolds the monad of methods down to functions on machine states. *)
Ltac unfold_method :=
  unfold mbind, Method_bind, mret, Method_ret, get_self, modify, raise, record,
    lift_result, lift_state, try.

Lemma deduce_loop_declined rules addr vm :
  Forall (declines vm addr) rules →
  deduce_loop rules addr vm = (Ok None, vm, rule_calls rules addr).
Proof.
  induction 1 as [|[rule args] rules Hdecl _ IH]; [done|].
  unfold declines in Hdecl. simpl in Hdecl. simpl.
  unfold_method. by rewrite Hdecl, IH.
Qed.

Lemma deduce_loop_fires pre rule args post value addr vm :
  Forall (declines vm addr) pre →
  call_rule rule vm addr args = Some value →
  deduce_loop (pre ++ (rule, args) :: post) addr vm =
    let '(res, validated, memory) :=
      ValidatedMemoryDict.setitem (validated_memory vm) (vm_memory vm) (Reloc addr) value in
    ((λ _, Some value) <$> res, set_memory validated memory vm,
     rule_calls (pre ++ [(rule, args)]) addr).
Proof.
  intros Hpre Hfire. induction Hpre as [|[rule' args'] pre Hdecl _ IH].
  - simpl. unfold_method. rewrite Hfire. unfold validated_memory_setitem.
    destruct (ValidatedMemoryDict.setitem _ _ _ _) as [[[u|e] validated] memory]; done.
  - unfold declines in Hdecl. simpl in Hdecl. simpl.
    unfold_method. rewrite Hdecl, IH.
    by destruct (ValidatedMemoryDict.setitem _ _ _ _) as [[res validated] memory].
Qed.

(** C1: [deduce_memory_cell] returns [None], calling no rule, on an address
    that is not relocatable.  On a relocatable address it calls the rules of
    the segment in the order of their list -- the order in which
    [add_auto_deduction_rule] appended them -- up to the first rule that
    gives a value; that value is written through the validated memory at the
    address and returned.  When every rule declines, the result is [None]. *)
Theorem deduce_memory_cell_first_rule (vm : VirtualMachineBase) :
  (∀ z, deduce_memory_cell (Int z) vm = (Ok None, vm, [])) ∧
  (∀ addr pre rule args post value,
     segment_rules vm addr = pre ++ (rule, args) :: post →
     Forall (declines vm addr) pre →
     call_rule rule vm addr args = Some value →
     ∃ res validated memory,
       ValidatedMemoryDict.setitem (validated_memory vm) (vm_memory vm) (Reloc addr) value
         = (res, validated, memory) ∧
       deduce_memory_cell (Reloc addr) vm =
         ((λ _, Some value) <$> res, set_memory validated memory vm,
          rule_calls (pre ++ [(rule, args)]) addr) ∧
       (res = Ok () → MemoryDict.get memory (Reloc addr) = Some value)) ∧
  (∀ addr,
     Forall (declines vm addr) (segment_rules vm addr) →
     deduce_memory_cell (Reloc addr) vm
       = (Ok None, vm, rule_calls (segment_rules vm addr) addr)) ∧
  (∀ seg rule args addr,
     segment_index addr = seg →
     segment_rules (add_auto_deduction_rule seg rule args vm).1.2 addr
       = segment_rules vm addr ++ [(rule, args)]).
Proof.
  split; [done|]. split; [|split].
  - intros addr pre rule args post value Hrules Hpre Hfire.
    destruct (ValidatedMemoryDict.setitem (validated_memory vm) (vm_memory vm)
                (Reloc addr) value) as [[res validated] memory] eqn:Hset.
    exists res, validated, memory. split; [done|]. split.
    + unfold deduce_memory_cell. unfold_method. simpl.
      fold (segment_rules vm addr). rewrite Hrules.
      rewrite (deduce_loop_fires pre rule args post value addr vm Hpre Hfire).
      by rewrite Hset.
    + intros ->. unfold ValidatedMemoryDict.setitem in Hset.
      destruct (MemoryDict.setitem (vm_memory vm) (Reloc addr) value) as [m'|e] eqn:Hm;
        [|done].
      destruct (ValidatedMemoryDict.validate_memory_cell _ _ _) as [r v'].
      injection Hset as _ _ <-. by eapply MemoryDict_setitem_get.
  - intros addr Hall. unfold deduce_memory_cell. unfold_method. simpl.
    fold (segment_rules vm addr). by rewrite deduce_loop_declined.
  - intros seg rule args addr <-. unfold segment_rules. simpl.
    by rewrite lookup_insert_eq.
Qed.

(** The rules of one address: the machine is left as it was, and the loop
    either passes, no rule mismatching, or raises for a mismatching rule. *)
Lemma verify_rules_outcome rules addr vm current :
  MemoryDict.get (vm_memory vm) (Reloc addr) = Some current →
  ∃ r log,
    verify_rules rules addr vm = (r, vm, log) ∧
    ((r = Ok () ∧ ∀ expected, ¬ rule_mismatch vm rules addr current expected) ∨
     (∃ expected, r = Raise (InconsistentAutoDeductionError addr current expected) ∧
                  rule_mismatch vm rules addr current expected)).
Proof.
  intros Hcur. induction rules as [|[rule args] rules IH].
  - exists (Ok ()), []. split; [done|]. left. split; [done|].
    intros expected (? & ? & []%elem_of_nil & _).
  - destruct IH as (r & log & Hrun & IH). simpl. unfold_method.
    destruct (call_rule rule vm addr args) as [value|] eqn:Hcall.
    + unfold MemoryDict.getitem. rewrite Hcur.
      destruct (bool_decide (current ≠ value) && negb (check_eq vm current value))
        eqn:Hbad.
      * apply andb_prop in Hbad as [Hne%bool_decide_eq_true Hchk%negb_true_iff].
        eexists _, _. split; [done|]. right. exists value. split; [done|].
        exists rule, args. split; [left | done].
      * rewrite Hrun. eexists _, _. split; [done|].
        destruct IH as [[-> Hnone]|(expected & -> & rule' & args' & Hin & ?)].
        -- left. split; [done|].
           intros expected (rule' & args' & [[= -> ->]|Hin]%elem_of_cons & Hc & Hne & Hchk).
           ++ rewrite Hcall in Hc. injection Hc as ->.
              apply andb_false_iff in Hbad as [Hb%bool_decide_eq_false | Hb%negb_false_iff];
                [done | congruence].
           ++ apply (Hnone expected). by exists rule', args'.
        -- right. exists expected. split; [done|]. exists rule', args'.
           split; [by right | done].
    + rewrite Hrun. eexists _, _. split; [done|].
      destruct IH as [[-> Hnone]|(expected & -> & rule' & args' & Hin & ?)].
      * left. split; [done|].
        intros expected (rule' & args' & [[= -> ->]|Hin]%elem_of_cons & Hc & Hne & Hchk).
        -- congruence.
        -- apply (Hnone expected). by exists rule', args'.
      * right. exists expected. split; [done|]. exists rule', args'.
        split; [by right | done].
Qed.

Lemma verify_addrs_outcome addrs vm :
  addrs ⊆ MemoryDict.keys (vm_memory vm) →
  ∃ r log,
    verify_addrs addrs vm = (r, vm, log) ∧
    ((r = Ok () ∧
      ∀ addr current expected,
        Reloc addr ∈ addrs → ¬ mismatch vm addr current expected) ∨
     (∃ addr current expected,
        r = Raise (InconsistentAutoDeductionError addr current expected) ∧
        Reloc addr ∈ addrs ∧ mismatch vm addr current expected)).
Proof.
  induction addrs as [|a addrs IH]; intros Hsub.
  - exists (Ok ()), []. split; [done|]. left. split; [done|].
    by intros ??? ?%elem_of_nil.
  - destruct IH as (r & log & Hrun & IH); [by intros x Hx; apply Hsub; right|].
    destruct a as [z|addr]; simpl.
    + exists r, log. split; [done|].
      destruct IH as [[-> Hnone]|(addr & cur & ex & -> & Hin & Hmis)].
      * left. split; [done|]. intros addr cur ex [?|?]%elem_of_cons; [done | eauto].
      * right. exists addr, cur, ex. split; [done|]. split; [by right | done].
    + assert (Reloc addr ∈ MemoryDict.keys (vm_memory vm)) as Hkey by (apply Hsub; left).
      destruct (MemoryDict_keys_get _ _ Hkey) as [current Hcur].
      destruct (verify_rules_outcome (segment_rules vm addr) addr vm current Hcur)
        as (r1 & log1 & Hrun1 & Hr1).
      unfold_method. fold (segment_rules vm addr). rewrite Hrun1.
      destruct Hr1 as [[-> Hnone1]|(expected & -> & Hmis1)].
      * rewrite Hrun. eexists _, _. split; [done|].
        destruct IH as [[-> Hnone]|(addr' & cur & ex & -> & Hin & Hmis)].
        -- left. split; [done|].
           intros addr' cur ex [[= ->]|?]%elem_of_cons; [|eauto].
           intros (_ & Hc & Hm). rewrite Hcur in Hc. injection Hc as <-.
           by apply (Hnone1 ex).
        -- right. exists addr', cur, ex. split; [done|]. split; [by right | done].
      * eexists _, _. split; [done|]. right. exists addr, current, expected.
        split; [done|]. split; [left | done].
Qed.

(** C3: [verify_auto_deductions] leaves the machine as it is, and raises
    [InconsistentAutoDeductionError] exactly when some written relocatable
    address has a rule of its segment giving a value that differs from the
    stored one and that [check_eq] rejects; the exception then names such an
    address, the stored value and the rule's value.  Otherwise it returns
    normally. *)
Theorem verify_auto_deductions_raises_iff_mismatch (vm : VirtualMachineBase) :
  (verify_auto_deductions vm).1.2 = vm ∧
  (∀ addr current expected,
     (verify_auto_deductions vm).1.1
       = Raise (InconsistentAutoDeductionError addr current expected) →
     mismatch vm addr current expected) ∧
  ((∃ addr current expected,
      (verify_auto_deductions vm).1.1
        = Raise (InconsistentAutoDeductionError addr current expected)) ↔
   (∃ addr current expected, mismatch vm addr current expected)) ∧
  ((∀ addr current expected, ¬ mismatch vm addr current expected) →
   (verify_auto_deductions vm).1.1 = Ok ()).
Proof.
  destruct (verify_addrs_outcome (MemoryDict.keys (vm_memory vm)) vm) as (r & log & Hrun & Hr);
    [done|].
  unfold verify_auto_deductions. unfold_method. rewrite Hrun. simpl.
  destruct Hr as [[-> Hnone]|(addr & cur & ex & -> & Hin & Hmis)].
  - split; [done|]. split; [done|]. split; [|done]. split.
    + by intros (? & ? & ? & ?).
    + intros (addr & cur & ex & Hmis). exfalso.
      apply (Hnone addr cur ex); [|done]. by destruct Hmis.
  - split; [done|]. split; [by intros ??? [= -> -> ->]|]. split.
    + split; eauto.
    + intros Hnone. by destruct (Hnone addr cur ex).
Qed.

Lemma verify_auto_deductions_unchanged vm :
  (verify_auto_deductions vm).1.2 = vm.
Proof.
  destruct (verify_addrs_outcome (MemoryDict.keys (vm_memory vm)) vm) as (r & log & Hrun & _);
    [done|].
  unfold verify_auto_deductions. unfold_method. by rewrite Hrun.
Qed.

(** *** Scopes *)

Lemma bind_run {A B} (m : Method A) (f : A → Method B) vm :
  (m ≫= f) vm =
    match m vm with
    | (Ok a, vm1, log1) => let '(r, vm2, log2) := f a vm1 in (r, vm2, log1 ++ log2)
    | (Raise e, vm1, log1) => (Raise e, vm1, log1)
    end.
Proof.
  unfold_method. destruct (m vm) as [[[a|e] vm1] log1]; [|done].
  by destruct (f a vm1) as [[r vm2] log2].
Qed.

Lemma bind_assoc {A B C} (m : Method A) (f : A → Method B) (g : B → Method C) vm :
  (m ≫= λ a, f a ≫= g) vm = ((m ≫= f) ≫= g) vm.
Proof.
  rewrite !bind_run. destruct (m vm) as [[[a|e] vm1] log1]; [|done].
  rewrite bind_run. destruct (f a vm1) as [[[b|e] vm2] log2]; [|done].
  destruct (g b vm2) as [[r vm3] log3]. by rewrite app_assoc.
Qed.

Lemma bind_modify {B} f (m : Method B) vm : (modify f ≫= λ _, m) vm = m (f vm).
Proof. rewrite bind_run. unfold modify. by destruct (m (f vm)) as [[r vm'] log]. Qed.

Lemma bind_get_self {B} (f : VirtualMachineBase → Method B) vm :
  (get_self ≫= f) vm = f vm vm.
Proof. rewrite bind_run. unfold get_self. by destruct (f vm vm) as [[r vm'] log]. Qed.

Lemma bind_lift_result_Ok {A B} (a : A) (f : A → Method B) vm :
  (lift_result (Ok a) ≫= f) vm = f a vm.
Proof. rewrite bind_run. unfold lift_result. by destruct (f a vm) as [[r vm'] log]. Qed.

Lemma set_dicts_set_dicts f g vm :
  set_dicts f (set_dicts g vm) = set_dicts (λ d, f (g d)) vm.
Proof. done. Qed.

Lemma set_dicts_ext f g vm :
  f (dicts vm) = g (dicts vm) → set_dicts f vm = set_dicts g vm.
Proof. intros H. unfold set_dicts. by rewrite H. Qed.

Lemma enter_scope_run new_scope_locals vm :
  enter_scope new_scope_locals vm =
    (Ok (),
     set_exec_scopes (λ s, s ++ [length (dicts vm)])
       (set_dicts (λ d, d ++ [builtin_runners vm ∪ default ∅ new_scope_locals]) vm),
     []).
Proof. done. Qed.

Lemma exit_scope_pop vm :
  (1 < length (exec_scopes vm))%nat →
  exit_scope vm = (Ok (), set_exec_scopes (λ s, removelast s) vm, []).
Proof. intros H. unfold exit_scope. unfold_method. by rewrite decide_True. Qed.

Lemma exit_scope_main vm :
  (length (exec_scopes vm) ≤ 1)%nat →
  exit_scope vm = (Raise (AssertionError "Cannot exit main scope."), vm, []).
Proof. intros H. unfold exit_scope. unfold_method. rewrite decide_False; [done | lia]. Qed.

(** *** The end of the run *)

Lemma end_run_unfold vm :
  (end_run vm).1.1 =
    match (verify_auto_deductions vm).1.1 with
    | Ok _ =>
        if decide (length (exec_scopes vm) ≠ 1%nat) then Raise unbalanced_scope
        else Ok ()
    | Raise e => Raise e
    end.
Proof.
  pose proof (verify_auto_deductions_unchanged vm) as Hvm.
  unfold end_run. unfold_method.
  destruct (verify_auto_deductions vm) as [[[[]|e] vm'] log]; simpl in *; [|done].
  subst vm'. by case_decide.
Qed.

Lemma removelast_snoc {A} (l : list A) (x : A) : removelast (l ++ [x]) = l.
Proof. by rewrite removelast_last. Qed.

(** C5: [end_run] first runs [verify_auto_deductions], whose exception it
    lets through; once that has passed it raises the unbalanced-scope
    exception exactly when the scope stack does not hold exactly one entry,
    and succeeds otherwise.  From a machine with its main scope only,
    [enter_scope({x: 1}); enter_scope(); exit_scope(); exit_scope()] leads to
    a state where [end_run] succeeds, and a lone [enter_scope()] to a state
    where it raises the unbalanced-scope exception. *)
Theorem end_run_unbalanced_scope (vm : VirtualMachineBase) :
  (∀ e, (verify_auto_deductions vm).1.1 = Raise e → (end_run vm).1.1 = Raise e) ∧
  ((verify_auto_deductions vm).1.1 = Ok () →
     ((end_run vm).1.1 = Raise unbalanced_scope ↔ length (exec_scopes vm) ≠ 1%nat) ∧
     ((end_run vm).1.1 = Ok () ↔ length (exec_scopes vm) = 1%nat)) ∧
  (length (exec_scopes vm) = 1%nat →
     ∃ vm' log,
       balanced_scopes vm = (Ok (), vm', log) ∧
       ((verify_auto_deductions vm').1.1 = Ok () → (end_run vm').1.1 = Ok ())) ∧
  (length (exec_scopes vm) = 1%nat →
     ∃ vm' log,
       enter_scope None vm = (Ok (), vm', log) ∧
       (end_run vm').1.1 ≠ Ok () ∧
       ((verify_auto_deductions vm').1.1 = Ok () →
        (end_run vm').1.1 = Raise unbalanced_scope)).
Proof.
  split; [|split; [|split]].
  - intros e He. by rewrite end_run_unfold, He.
  - intros Hok. rewrite end_run_unfold, Hok.
    case_decide; split; split; (done || lia).
  - intros Hlen. destruct (exec_scopes vm) as [|main [|]] eqn:Hscopes; [done| |done].
    unfold balanced_scopes.
    rewrite bind_run, enter_scope_run. rewrite bind_run, enter_scope_run.
    rewrite bind_run, exit_scope_pop by (simpl; rewrite Hscopes; simpl; lia).
    rewrite exit_scope_pop by (simpl; rewrite Hscopes; simpl; lia).
    eexists _, _. split; [done|].
    intros Hok. rewrite end_run_unfold, Hok. simpl. rewrite Hscopes. done.
  - intros Hlen. destruct (exec_scopes vm) as [|main [|]] eqn:Hscopes; [done| |done].
    rewrite enter_scope_run. eexists _, _. split; [done|]. rewrite end_run_unfold.
    split.
    + destruct ((verify_auto_deductions _).1.1); [|done].
      simpl. rewrite Hscopes. done.
    + intros ->. simpl. rewrite Hscopes. done.
Qed.

(** *** The effect of hints *)

Lemma hint_frame_refl vm : hint_frame vm vm.
Proof. by split. Qed.

Lemma hint_frame_trans vm1 vm2 vm3 :
  hint_frame vm1 vm2 → hint_frame vm2 vm3 → hint_frame vm1 vm3.
Proof.
  intros [] []. split; try congruence; auto.
Qed.

Lemma unassigned_app attribute log1 log2 :
  unassigned attribute (log1 ++ log2) →
  unassigned attribute log1 ∧ unassigned attribute log2.
Proof.
  intros Hun. split; intros assignment Hin; apply Hun, elem_of_app; auto.
Qed.

Lemma attribute_frame_refl vm log : attribute_frame vm vm log.
Proof. by repeat split. Qed.

Lemma attribute_frame_trans vm1 vm2 vm3 log1 log2 :
  attribute_frame vm1 vm2 log1 → attribute_frame vm2 vm3 log2 →
  attribute_frame vm1 vm3 (log1 ++ log2).
Proof.
  intros (P1 & A1 & F1 & S1 & T1) (P2 & A2 & F2 & S2 & T2).
  repeat split; intros [H1 H2]%unassigned_app.
  - by rewrite P2, P1.
  - by rewrite A2, A1.
  - by rewrite F2, F1.
  - by rewrite S2, S1.
  - by rewrite T2, T1.
Qed.

Lemma effect_refl Q vm : effect Q vm vm [].
Proof.
  split; [apply hint_frame_refl|]. split; [done|].
  split; [by intros addr [] | apply attribute_frame_refl].
Qed.

Lemma effect_trans Q vm1 vm2 vm3 log1 log2 :
  effect Q vm1 vm2 log1 → effect Q vm2 vm3 log2 → effect Q vm1 vm3 (log1 ++ log2).
Proof.
  intros (F1 & L1 & M1 & A1) (F2 & L2 & M2 & A2). split; [by eapply hint_frame_trans|].
  split; [by apply Forall_app|]. split; [|by eapply attribute_frame_trans].
  intros addr Hne.
  destruct (decide (MemoryDict.get (vm_memory vm3) addr
                    = MemoryDict.get (vm_memory vm2) addr)) as [Heq|Hne2].
  - destruct (M1 addr) as (value & Hin & Hval); [congruence|].
    exists value. split; [apply elem_of_app; by left | congruence].
  - destruct (M2 addr Hne2) as (value & Hin & Hval).
    exists value. split; [apply elem_of_app; by right | done].
Qed.

Lemma effect_mono (Q Q' : Event → Prop) vm vm' log :
  (∀ ev, Q ev → Q' ev) → effect Q vm vm' log → effect Q' vm vm' log.
Proof.
  intros HQ (F & L & M). split; [done|]. split; [|done].
  eapply Forall_impl; eauto.
Qed.

Lemma satisfies_mono {A} (Q Q' : Event → Prop) (m : Method A) :
  (∀ ev, Q ev → Q' ev) → satisfies Q m → satisfies Q' m.
Proof. intros HQ Hm vm. by eapply effect_mono. Qed.

Lemma satisfies_ret {A} Q (a : A) : satisfies Q (mret a).
Proof. intros vm. apply effect_refl. Qed.

Lemma satisfies_raise {A} Q e : satisfies Q (raise (A:=A) e).
Proof. intros vm. apply effect_refl. Qed.

Lemma satisfies_get_self Q : satisfies Q get_self.
Proof. intros vm. apply effect_refl. Qed.

Lemma satisfies_lift_result {A} Q (r : result A) : satisfies Q (lift_result r).
Proof. intros vm. apply effect_refl. Qed.

Lemma satisfies_bind {A B} Q (m : Method A) (f : A → Method B) :
  satisfies Q m → (∀ a, satisfies Q (f a)) → satisfies Q (m ≫= f).
Proof.
  intros Hm Hf vm. rewrite bind_run. specialize (Hm vm).
  destruct (m vm) as [[[a|e] vm1] log1]; simpl in *; [|done].
  specialize (Hf a vm1). destruct (f a vm1) as [[r vm2] log2]; simpl in *.
  by eapply effect_trans.
Qed.

Lemma satisfies_try {A} Q (m : Method A) : satisfies Q m → satisfies Q (try m).
Proof.
  intros Hm vm. specialize (Hm vm). unfold try.
  by destruct (m vm) as [[r vm1] log1].
Qed.

(** A change of the machine that keeps the memory, the attributes and the
    frame. *)
Lemma satisfies_modify Q (f : VirtualMachineBase → VirtualMachineBase) :
  (∀ vm, hint_frame vm (f vm)) →
  (∀ vm, vm_memory (f vm) = vm_memory vm) →
  (∀ vm, attribute_frame vm (f vm) []) →
  satisfies Q (modify f).
Proof.
  intros Hf Hmem Hattr vm. split; [apply Hf|]. split; [done|].
  split; [|apply Hattr]. intros addr []. simpl. by rewrite Hmem.
Qed.

Lemma scopes_allocated_set_dicts f vm :
  (∀ d, (length d ≤ length (f d))%nat) →
  scopes_allocated vm → scopes_allocated (set_dicts f vm).
Proof.
  intros Hlen Halloc. unfold scopes_allocated in *. simpl.
  eapply Forall_impl; [done|]. intros ref Href. specialize (Hlen (dicts vm)).
  simpl in *. lia.
Qed.

Lemma satisfies_set_dicts Q f :
  (∀ d, (length d ≤ length (f d))%nat) →
  satisfies Q (modify (set_dicts f)).
Proof.
  intros Hlen. apply satisfies_modify; [|done|done].
  intros vm. split; try done. by apply scopes_allocated_set_dicts.
Qed.

Lemma satisfies_dict_setitem Q ref name value :
  satisfies Q (dict_setitem ref name value).
Proof. apply satisfies_set_dicts. intros d. by rewrite length_alter. Qed.

Lemma satisfies_dict_update Q ref other : satisfies Q (dict_update ref other).
Proof. apply satisfies_set_dicts. intros d. by rewrite length_alter. Qed.

Lemma satisfies_dict_delitem Q ref name : satisfies Q (dict_delitem ref name).
Proof.
  apply satisfies_bind; [apply satisfies_get_self|]. intros vm.
  destruct (deref vm ref !! name); [|apply satisfies_raise].
  apply satisfies_set_dicts. intros d. by rewrite length_alter.
Qed.

Lemma satisfies_set_skip Q flag :
  satisfies Q (modify (set_skip_instruction_execution flag)).
Proof. by apply satisfies_modify. Qed.

Lemma satisfies_enter_scope Q new_scope_locals :
  satisfies Q (enter_scope new_scope_locals).
Proof.
  intros vm. rewrite enter_scope_run. simpl.
  split; [|split; [done | split; [by intros addr [] | done]]].
  split; try done; simpl.
  - intros _ Hnil. by apply app_eq_nil in Hnil as [_ ?].
  - unfold scopes_allocated. simpl. intros Halloc. rewrite length_app. simpl.
    apply Forall_app. split; [|apply Forall_singleton; lia].
    eapply Forall_impl; [done|]. intros ref Href. simpl in *. lia.
Qed.

Lemma removelast_allocated n (l : list nat) :
  Forall (λ ref, (ref < n)%nat) l → Forall (λ ref, (ref < n)%nat) (removelast l).
Proof.
  induction 1 as [|x l Hx Hl IH]; [done|]. simpl.
  destruct l; [done|]. by constructor.
Qed.

Lemma removelast_nonempty {A} (l : list A) :
  (1 < length l)%nat → removelast l ≠ [].
Proof. destruct l as [|x [|y l]]; simpl; (lia || done). Qed.

Lemma satisfies_exit_scope Q : satisfies Q exit_scope.
Proof.
  intros vm. destruct (decide (1 < length (exec_scopes vm))%nat) as [Hlen|Hlen].
  - rewrite exit_scope_pop by done. simpl.
    split; [|split; [done | split; [by intros addr [] | done]]].
    split; try done; simpl.
    + intros _. by apply removelast_nonempty.
    + apply removelast_allocated.
  - rewrite exit_scope_main by lia. apply effect_refl.
Qed.

Lemma satisfies_compile_hint Q source filename hint_index :
  satisfies Q (compile_hint source filename hint_index).
Proof.
  unfold compile_hint. destruct (compile source filename) as [code|[]];
    try apply satisfies_ret; try apply satisfies_raise.
  apply satisfies_bind; [apply satisfies_get_self|]. intros vm. apply satisfies_raise.
Qed.

Lemma satisfies_compile_hints Q hint_index program_hints pc compiled_hints :
  satisfies Q (compile_hints hint_index program_hints pc compiled_hints).
Proof.
  revert hint_index compiled_hints.
  induction program_hints as [|hint program_hints IH]; intros hint_index compiled_hints;
    simpl; [apply satisfies_ret|].
  apply satisfies_bind; [apply satisfies_get_self|]. intros vm.
  apply satisfies_bind; [by apply satisfies_modify|]. intros _.
  apply satisfies_bind; [apply satisfies_compile_hint|]. intros code. apply IH.
Qed.

Lemma satisfies_load_program Q program program_base :
  satisfies Q (load_program program program_base).
Proof.
  unfold load_program. apply satisfies_bind; [apply satisfies_get_self|]. intros vm.
  case_decide; [|apply satisfies_raise].
  apply satisfies_bind.
  - unfold load_debug_info. destruct (Program.debug_info program); [|apply satisfies_ret].
    apply satisfies_bind; [by apply satisfies_modify|]. intros _.
    by apply satisfies_modify.
  - intros _. unfold load_hints.
    induction (Program.hints program) as [|[pc program_hints] items IH]; simpl;
      [apply satisfies_ret|].
    apply satisfies_bind; [apply satisfies_compile_hints|]. intros compiled_hints.
    apply satisfies_bind; [by apply satisfies_modify|]. intros _. apply IH.
Qed.

(** A write by a hint: recorded, then performed through the validated
    memory.  Whether or not validation accepts it, only the cell written
    can have changed. *)
Lemma satisfies_hint_write addr value :
  satisfies is_write
    (record (HintMemoryWrite addr value);; try (validated_memory_setitem addr value)).
Proof.
  intros vm. rewrite bind_run. unfold record, try, validated_memory_setitem.
  unfold ValidatedMemoryDict.setitem.
  destruct (MemoryDict.setitem (vm_memory vm) addr value) as [memory|e] eqn:Hset.
  - destruct (ValidatedMemoryDict.validate_memory_cell _ _ _) as [res validated]. simpl.
    split; [by split|]. split; [by repeat constructor|]. split; [|done].
    intros a Hne. simpl in Hne.
    destruct (decide (a = addr)) as [->|Ha].
    + exists value. split; [left|]. by eapply MemoryDict_setitem_get.
    + destruct Hne. unfold vm_memory. simpl.
      by rewrite (MemoryDict_setitem_get_ne _ _ _ _ _ Hset Ha).
  - simpl. split; [by split|]. split; [by repeat constructor|].
    destruct vm as [? ? ? ? ? ? ? ? ? ? ? ? [] ? ? ?]. split; [by intros a Hne | done].
Qed.

(** An assignment by a hint: recorded, then performed.  It keeps the
    memory and every other attribute. *)
Lemma satisfies_hint_assign assignment :
  satisfies is_write (record (HintAssign assignment);; modify (assign assignment)).
Proof.
  intros vm. rewrite bind_run. unfold record, modify. simpl.
  split; [by destruct assignment|]. split; [by repeat constructor|]. split.
  - intros addr Hne. destruct Hne. by destruct assignment.
  - repeat split; intros Hun;
      (destruct assignment; try done;
       by destruct (Hun _ (list_elem_of_here _ _))).
Qed.

Lemma satisfies_exec_code code globals_ :
  satisfies is_write (exec_code code globals_).
Proof.
  induction code as [|e|flag k IH|assignment k IH|new_scope_locals k IH|k IH
                    |program program_base k IH
                    |addr k IH|addr value k IH|name k IH|name value k IH|name k IH];
    simpl.
  - apply satisfies_ret.
  - apply satisfies_raise.
  - apply satisfies_bind; [apply satisfies_set_skip | done].
  - intros vm.
    rewrite (bind_assoc (record (HintAssign assignment))
               (λ _, modify (assign assignment)) (λ _, exec_code k globals_)).
    apply satisfies_bind; [apply satisfies_hint_assign | done].
  - apply satisfies_bind; [apply satisfies_enter_scope | done].
  - apply satisfies_bind; [apply satisfies_try, satisfies_exit_scope | done].
  - apply satisfies_bind; [apply satisfies_try, satisfies_load_program | done].
  - apply satisfies_bind; [apply satisfies_get_self | done].
  - intros vm.
    rewrite (bind_assoc (record (HintMemoryWrite addr value))
               (λ _, try (validated_memory_setitem addr value))
               (λ r, exec_code (k (to_exception r)) globals_)).
    apply satisfies_bind; [apply satisfies_hint_write | done].
  - apply satisfies_bind; [apply satisfies_get_self | done].
  - apply satisfies_bind; [apply satisfies_dict_setitem | done].
  - apply satisfies_bind; [|done].
    apply satisfies_set_dicts. intros d. by rewrite length_alter.
Qed.

Lemma is_write_hint_event ev : is_write ev → is_hint_event ev.
Proof. by destruct ev. Qed.

Lemma is_write_hint_indices log : Forall is_write log → hint_indices log = [].
Proof. induction 1 as [|[] log Hev _ IH]; done. Qed.

(** [exec_hint] records the execution with the globals as they are when it
    is called; everything else it records is a write of the hint. *)
Lemma exec_hint_log code globals_ hint_index vm :
  ∃ writes,
    (exec_hint code globals_ hint_index vm).2
      = ExecHint hint_index code (deref vm globals_) :: writes ∧
    Forall is_write writes.
Proof.
  unfold exec_hint. rewrite bind_run. unfold get_self at 1.
  rewrite bind_run. unfold record at 1. rewrite bind_run.
  assert (∃ vm1, (match deref vm globals_ !! "__builtins__" with
                  | Some _ => mret ()
                  | None => dict_setitem globals_ "__builtins__" PyBuiltins
                  end) vm = (Ok (), vm1, [])) as [vm1 ->]
    by (destruct (deref vm globals_ !! "__builtins__"); by eexists).
  rewrite bind_run. unfold try at 1.
  pose proof (satisfies_exec_code code globals_ vm1) as (_ & Hlog & _).
  destruct (exec_code code globals_ vm1) as [[[[]|e] vm2] log]; simpl in *.
  - exists log. by rewrite !app_nil_r.
  - exists log. destruct (is_Exception e); unfold_method; simpl; by rewrite !app_nil_r.
Qed.

Lemma satisfies_exec_hint code globals_ hint_index :
  satisfies is_hint_event (exec_hint code globals_ hint_index).
Proof.
  unfold exec_hint. apply satisfies_bind; [apply satisfies_get_self|]. intros vm.
  apply satisfies_bind.
  { intros vm'. split; [apply hint_frame_refl|]. split; [by repeat constructor|].
    split; [by intros addr [] | apply attribute_frame_refl]. }
  intros _. apply satisfies_bind.
  { destruct (deref vm globals_ !! "__builtins__");
      [apply satisfies_ret | apply satisfies_dict_setitem]. }
  intros _. apply satisfies_bind.
  { apply satisfies_try. eapply satisfies_mono; [apply is_write_hint_event|].
    apply satisfies_exec_code. }
  intros [[]|e]; [apply satisfies_ret|].
  destruct (is_Exception e); [|apply satisfies_raise].
  apply satisfies_bind; [apply satisfies_get_self|]. intros vm'. apply satisfies_raise.
Qed.

(** The iteration of the loop of [step] for one hint, when the scope stack
    has a top: the hint is executed in the state [bind_exec_locals], and
    [ids] and [memory] are then deleted from the same dictionary. *)
Lemma run_hint_run hint_index hint vm ref :
  last (exec_scopes vm) = Some ref →
  run_hint hint_index hint vm =
    (exec_hint (compiled hint) ref hint_index;;
     dict_delitem ref "ids";;
     dict_delitem ref "memory") (bind_exec_locals vm hint ref).
Proof.
  intros Hlast. unfold run_hint. rewrite bind_get_self, Hlast, bind_lift_result_Ok.
  unfold dict_setitem, dict_update. rewrite !bind_modify.
  match goal with |- ?m ?a = ?m ?b => cut (a = b); [by intros ->|] end.
  rewrite !set_dicts_set_dicts. unfold bind_exec_locals. apply set_dicts_ext.
  by rewrite !list_alter_alter_eq.
Qed.

Lemma run_hint_no_scope hint_index hint vm :
  last (exec_scopes vm) = None →
  run_hint hint_index hint vm = (Raise (IndexError "list index out of range"), vm, []).
Proof.
  intros Hlast. unfold run_hint. rewrite bind_run. unfold get_self at 1.
  rewrite Hlast. by rewrite bind_run.
Qed.

Lemma satisfies_run_hint hint_index hint :
  satisfies is_hint_event (run_hint hint_index hint).
Proof.
  unfold run_hint. apply satisfies_bind; [apply satisfies_get_self|]. intros vm.
  apply satisfies_bind; [apply satisfies_lift_result|]. intros ref.
  do 9 (apply satisfies_bind; [apply satisfies_dict_setitem|]; intros _).
  apply satisfies_bind; [apply satisfies_dict_update|]. intros _.
  apply satisfies_bind; [apply satisfies_exec_hint|]. intros _.
  apply satisfies_bind; [apply satisfies_dict_delitem|]. intros _.
  apply satisfies_dict_delitem.
Qed.

Lemma satisfies_run_hints hint_index compiled_hints :
  satisfies is_hint_event (run_hints hint_index compiled_hints).
Proof.
  revert hint_index.
  induction compiled_hints as [|hint compiled_hints IH]; intros hint_index; simpl;
    [apply satisfies_ret|].
  apply satisfies_bind; [apply satisfies_run_hint|]. intros _.
  apply satisfies_bind; [apply satisfies_get_self|]. intros vm.
  destruct (skip_instruction_execution vm); [apply satisfies_ret | apply IH].
Qed.

Lemma dict_delitem_log ref name vm : (dict_delitem ref name vm).2 = [].
Proof. unfold dict_delitem. rewrite bind_get_self. by destruct (deref vm ref !! name). Qed.

Lemma dict_delitems_log ref name1 name2 vm :
  ((dict_delitem ref name1;; dict_delitem ref name2) vm).2 = [].
Proof.
  rewrite bind_run. pose proof (dict_delitem_log ref name1 vm) as H1.
  destruct (dict_delitem ref name1 vm) as [[[[]|e] vm1] log1]; simpl in *; [|done].
  pose proof (dict_delitem_log ref name2 vm1) as H2.
  destruct (dict_delitem ref name2 vm1) as [[r vm2] log2]. simpl in *. by subst.
Qed.

(** What one iteration records: nothing when there is no scope, and else
    the execution of the hint, with its bindings, followed by the writes
    of the hint. *)
Lemma run_hint_log hint_index hint vm :
  (last (exec_scopes vm) = None ∧ (run_hint hint_index hint vm).2 = []) ∨
  (∃ ref writes,
     last (exec_scopes vm) = Some ref ∧
     (run_hint hint_index hint vm).2
       = ExecHint hint_index (compiled hint)
                  (deref (bind_exec_locals vm hint ref) ref) :: writes ∧
     Forall is_write writes).
Proof.
  destruct (last (exec_scopes vm)) as [ref|] eqn:Hlast.
  - right. rewrite (run_hint_run _ _ _ _ Hlast).
    destruct (exec_hint_log (compiled hint) ref hint_index (bind_exec_locals vm hint ref))
      as (writes & Hlog & Hwrites).
    exists ref, writes. split; [done|]. split; [|done].
    rewrite bind_run.
    destruct (exec_hint _ _ _ _) as [[[[]|e] vm1] log1]; simpl in *; [|done].
    pose proof (dict_delitems_log ref "ids" "memory" vm1) as Hdel.
    destruct ((dict_delitem ref "ids";; dict_delitem ref "memory") vm1) as [[r vm2] log2].
    simpl in *. subst. by rewrite app_nil_r.
  - left. by rewrite run_hint_no_scope.
Qed.

Lemma run_hint_indices hint_index hint vm vm' log :
  run_hint hint_index hint vm = (Ok (), vm', log) → hint_indices log = [hint_index].
Proof.
  intros Hrun.
  destruct (run_hint_log hint_index hint vm) as [[Hlast _]|(ref & writes & _ & Hlog & Hw)].
  - by rewrite run_hint_no_scope in Hrun.
  - rewrite Hrun in Hlog. simpl in Hlog. subst log. simpl.
    by rewrite (is_write_hint_indices _ Hw).
Qed.

Lemma hint_indices_app log1 log2 :
  hint_indices (log1 ++ log2) = hint_indices log1 ++ hint_indices log2.
Proof. apply omap_app. Qed.

(** A pass over the hints that does not return from [step] has executed
    them all, in order. *)
Lemma run_hints_indices hint_index compiled_hints vm vm' log :
  run_hints hint_index compiled_hints vm = (Ok false, vm', log) →
  hint_indices log = seq hint_index (length compiled_hints).
Proof.
  revert hint_index vm log.
  induction compiled_hints as [|hint compiled_hints IH]; intros hint_index vm log; simpl.
  - unfold mret, Method_ret. by intros [= _ <-].
  - rewrite bind_run.
    destruct (run_hint hint_index hint vm) as [[[[]|e] vm1] log1] eqn:Hrun; [|done].
    rewrite bind_get_self.
    destruct (skip_instruction_execution vm1); [by unfold mret, Method_ret|].
    destruct (run_hints (S hint_index) compiled_hints vm1) as [[r vm2] log2] eqn:Hrest.
    intros [= -> -> <-]. rewrite hint_indices_app.
    by rewrite (run_hint_indices _ _ _ _ _ Hrun), (IH _ _ _ Hrest).
Qed.

(** The loop returns from [step] at the first hint after which the flag is
    set, whatever hints follow it in the list. *)
Lemma run_hints_skip pre hint post hint_index vm vm1 log1 vm2 log2 :
  run_hints hint_index pre vm = (Ok false, vm1, log1) →
  run_hint (hint_index + length pre) hint vm1 = (Ok (), vm2, log2) →
  skip_instruction_execution vm2 = true →
  run_hints hint_index (pre ++ hint :: post) vm = (Ok true, vm2, log1 ++ log2).
Proof.
  revert hint_index vm log1.
  induction pre as [|hint0 pre IH]; intros hint_index vm log1; simpl.
  - unfold mret at 1, Method_ret at 1. intros [= -> <-]. rewrite Nat.add_0_r.
    intros Hrun Hskip.
    rewrite bind_run, Hrun, bind_get_self, Hskip. unfold mret, Method_ret. simpl.
    by rewrite app_nil_r.
  - rewrite !bind_run.
    destruct (run_hint hint_index hint0 vm) as [[[[]|e] vm0] log0] eqn:Hrun0; [|done].
    rewrite !bind_get_self.
    destruct (skip_instruction_execution vm0); [by unfold mret, Method_ret|].
    destruct (run_hints (S hint_index) pre vm0) as [[r vm1'] log1'] eqn:Hrest.
    intros [= -> -> <-] Hrun Hskip.
    rewrite (IH (S hint_index) vm0 log1' Hrest); [|by rewrite Nat.add_succ_comm|done].
    by rewrite app_assoc.
Qed.

(** *** [step] *)

Lemma is_hint_event_not_decode log :
  Forall is_hint_event log →
  (DecodeCurrentInstruction ∉ log) ∧ (RunInstruction ∉ log).
Proof.
  intros Hlog. split; intros Hin.
  - by apply (proj1 (Forall_forall _ _) Hlog) in Hin.
  - by apply (proj1 (Forall_forall _ _) Hlog) in Hin.
Qed.

(** C2, as the code has it: when the hints before some hint of the current
    pc have run without asking for a skip, and that hint completes with
    [skip_instruction_execution] set, [step] returns right there, in the
    state that the hint left: exactly the hints up to that one were executed
    and none of those after it, and the instruction was neither decoded nor
    run.  [step] itself appends nothing to the trace and updates no
    register: the trace, the step counter and pc, ap, fp are those of the
    start unless a hint assigned them, and a memory cell differs from the
    start only where a hint wrote it. *)
Theorem step_skip_instruction_execution
    (vm : VirtualMachineBase) (pre : list CompiledHint) (hint : CompiledHint)
    (post : list CompiledHint) (vm1 vm2 : VirtualMachineBase) (log1 log2 : list Event) :
  default [] (hints vm !! RunContextBase.pc (run_context vm)) = pre ++ hint :: post →
  run_hints 0 pre (set_skip_instruction_execution false vm) = (Ok false, vm1, log1) →
  run_hint (length pre) hint vm1 = (Ok (), vm2, log2) →
  skip_instruction_execution vm2 = true →
  step vm = (Ok (), vm2, log1 ++ log2) ∧
  hint_indices (log1 ++ log2) = seq 0 (S (length pre)) ∧
  (DecodeCurrentInstruction ∉ log1 ++ log2) ∧
  (RunInstruction ∉ log1 ++ log2) ∧
  attribute_frame vm vm2 (log1 ++ log2) ∧
  memory_frame vm vm2 (log1 ++ log2).
Proof.
  intros Hhints Hpre Hhint Hskip.
  pose proof (run_hints_skip pre hint post 0 _ _ _ _ _ Hpre Hhint Hskip) as Hrun.
  pose proof (satisfies_run_hints 0 (pre ++ hint :: post)
                (set_skip_instruction_execution false vm)) as Heff.
  rewrite Hrun in Heff. simpl in Heff. destruct Heff as (_ & Hlog & Hmem & Hattr).
  destruct (is_hint_event_not_decode _ Hlog) as [Hdec Hinstr].
  split; [|split; [|split_and!; done]].
  - unfold step. rewrite bind_modify, bind_get_self.
    cbn [hints run_context set_skip_instruction_execution].
    rewrite bind_run, Hhints, Hrun. unfold mret, Method_ret. by rewrite app_nil_r.
  - rewrite hint_indices_app, (run_hints_indices _ _ _ _ _ Hpre),
      (run_hint_indices _ _ _ _ _ Hhint).
    by rewrite seq_S.
Qed.

(** *** The scope stack *)

Lemma keeps_scopes_ret {A} (a : A) : keeps_scopes (mret a).
Proof. by intros vm. Qed.

Lemma keeps_scopes_raise {A} e : keeps_scopes (raise (A:=A) e).
Proof. by intros vm. Qed.

Lemma keeps_scopes_get_self : keeps_scopes get_self.
Proof. by intros vm. Qed.

Lemma keeps_scopes_record ev : keeps_scopes (record ev).
Proof. by intros vm. Qed.

Lemma keeps_scopes_lift_result {A} (r : result A) : keeps_scopes (lift_result r).
Proof. by intros vm. Qed.

Lemma keeps_scopes_modify f :
  (∀ vm, exec_scopes (f vm) = exec_scopes vm ∧ dicts (f vm) = dicts vm) →
  keeps_scopes (modify f).
Proof. intros Hf vm. apply Hf. Qed.

Lemma keeps_scopes_bind {A B} (m : Method A) (f : A → Method B) :
  keeps_scopes m → (∀ a, keeps_scopes (f a)) → keeps_scopes (m ≫= f).
Proof.
  intros Hm Hf vm. rewrite bind_run. specialize (Hm vm).
  destruct (m vm) as [[[a|e] vm1] log1]; simpl in *; [|done].
  specialize (Hf a vm1). destruct (f a vm1) as [[r vm2] log2]; simpl in *.
  destruct Hm, Hf. split; congruence.
Qed.

Lemma keeps_scopes_compile_hint source filename hint_index :
  keeps_scopes (compile_hint source filename hint_index).
Proof.
  unfold compile_hint. destruct (compile source filename) as [code|[]];
    try apply keeps_scopes_ret; try apply keeps_scopes_raise.
  apply keeps_scopes_bind; [apply keeps_scopes_get_self|]. intros vm.
  apply keeps_scopes_raise.
Qed.

Lemma keeps_scopes_compile_hints hint_index program_hints pc compiled_hints :
  keeps_scopes (compile_hints hint_index program_hints pc compiled_hints).
Proof.
  revert hint_index compiled_hints.
  induction program_hints as [|hint program_hints IH]; intros hint_index compiled_hints;
    simpl; [apply keeps_scopes_ret|].
  apply keeps_scopes_bind; [apply keeps_scopes_get_self|]. intros vm.
  apply keeps_scopes_bind; [by apply keeps_scopes_modify|]. intros _.
  apply keeps_scopes_bind; [apply keeps_scopes_compile_hint|]. intros code. apply IH.
Qed.

Lemma keeps_scopes_load_program program program_base :
  keeps_scopes (load_program program program_base).
Proof.
  unfold load_program. apply keeps_scopes_bind; [apply keeps_scopes_get_self|].
  intros vm. case_decide; [|apply keeps_scopes_raise].
  apply keeps_scopes_bind.
  - unfold load_debug_info.
    destruct (Program.debug_info program); [|apply keeps_scopes_ret].
    apply keeps_scopes_bind; [by apply keeps_scopes_modify|]. intros _.
    by apply keeps_scopes_modify.
  - intros _. unfold load_hints.
    induction (Program.hints program) as [|[pc program_hints] items IH]; simpl;
      [apply keeps_scopes_ret|].
    apply keeps_scopes_bind; [apply keeps_scopes_compile_hints|]. intros compiled_hints.
    apply keeps_scopes_bind; [by apply keeps_scopes_modify|]. intros _. apply IH.
Qed.

Lemma keeps_scopes_validated_memory_setitem addr value :
  keeps_scopes (validated_memory_setitem addr value).
Proof.
  intros vm. unfold validated_memory_setitem.
  by destruct (ValidatedMemoryDict.setitem _ _ _ _) as [[res validated] memory].
Qed.

Lemma keeps_scopes_deduce_memory_cell addr : keeps_scopes (deduce_memory_cell addr).
Proof.
  destruct addr as [z|addr]; simpl; [apply keeps_scopes_ret|].
  apply keeps_scopes_bind; [apply keeps_scopes_get_self|]. intros vm.
  induction (default [] (auto_deduction vm !! segment_index addr))
    as [|[rule args] rules IH]; simpl; [apply keeps_scopes_ret|].
  apply keeps_scopes_bind; [apply keeps_scopes_get_self|]. intros vm'.
  apply keeps_scopes_bind; [apply keeps_scopes_record|]. intros _.
  destruct (call_rule rule vm' addr args); [|done].
  apply keeps_scopes_bind; [apply keeps_scopes_validated_memory_setitem|]. intros _.
  apply keeps_scopes_ret.
Qed.

Lemma end_run_unchanged vm : (end_run vm).1.2 = vm.
Proof.
  pose proof (verify_auto_deductions_unchanged vm) as Hvm.
  unfold end_run. rewrite bind_run.
  destruct (verify_auto_deductions vm) as [[[[]|e] vm'] log]; simpl in *; [|done].
  subst vm'. rewrite bind_run. unfold get_self. by case_decide.
Qed.

(** The state that the constructor returns. *)
Lemma init_state program run_context hint_locals static_locals builtin_runners
      program_base vm :
  __init__ program run_context hint_locals static_locals builtin_runners program_base
    = Ok vm →
  exec_scopes vm = [0%nat] ∧
  dicts vm = [builtin_runners ∪ hint_locals] ∧
  hint_frame (new_object program run_context static_locals builtin_runners) vm.
Proof.
  unfold __init__. rewrite bind_run, enter_scope_run.
  set (vm0 := set_exec_scopes _ _).
  assert (∃ body : Method unit,
            keeps_scopes body ∧ satisfies (λ _, True) body ∧
            match program with
            | FullProgram p => load_program p program_base
            | StrippedProgram _ => mret ()
            end = body) as (body & Hkeeps & Hsat & ->).
  { destruct program; eexists; (split; [|split; [|done]]);
      auto using keeps_scopes_load_program, keeps_scopes_ret,
                 satisfies_load_program, satisfies_ret. }
  specialize (Hkeeps vm0). specialize (Hsat vm0).
  destruct (body vm0) as [[[[]|e] vm'] log]; simpl in *; [|done].
  intros [= <-]. destruct Hkeeps as [-> ->], Hsat as (Hframe & _).
  split; [done|]. split; [done|].
  eapply hint_frame_trans; [|done]. subst vm0. split; try done.
  intros _. unfold scopes_allocated. simpl. apply Forall_singleton. lia.
Qed.

(** [step] keeps the scope stack non-empty, as long as [run_instruction]
    does not touch it. *)
Lemma step_scopes_nonempty vm :
  (∀ instruction vm, exec_scopes (run_instruction instruction vm).2 = exec_scopes vm) →
  exec_scopes vm ≠ [] → exec_scopes (step vm).1.2 ≠ [].
Proof.
  intros Hrun Hne. unfold step. rewrite bind_run. unfold modify at 1.
  rewrite bind_run. unfold get_self at 1. rewrite bind_run.
  pose proof (satisfies_run_hints 0
                (default [] (hints (set_skip_instruction_execution false vm)
                               !! RunContextBase.pc
                                    (run_context (set_skip_instruction_execution false vm))))
                (set_skip_instruction_execution false vm)) as ([] & _ & _).
  destruct (run_hints _ _ _) as [[[returned|e] vm1] log1]; simpl in *; [|auto].
  destruct returned; simpl; [auto|].
  rewrite bind_run. unfold record at 1. rewrite bind_run. unfold get_self at 1.
  rewrite bind_run. unfold lift_result at 1.
  destruct (decode_current_instruction vm1) as [instruction|e]; simpl; [|auto].
  rewrite bind_run. unfold record, lift_state. specialize (Hrun instruction vm1).
  destruct (run_instruction instruction vm1) as [r vm2]. simpl in *.
  rewrite Hrun. auto.
Qed.

Lemma call_scopes_nonempty c vm :
  (∀ instruction vm, exec_scopes (run_instruction instruction vm).2 = exec_scopes vm) →
  exec_scopes vm ≠ [] → exec_scopes (call c vm).1.2 ≠ [].
Proof.
  intros Hrun Hne.
  destruct c as [new_scope_locals| | |prog program_base|seg rule args|addr| |];
    unfold call.
  - destruct (satisfies_enter_scope (λ _, True) new_scope_locals vm) as (Hf & _).
    by apply (frame_scopes _ _ Hf).
  - destruct (satisfies_exit_scope (λ _, True) vm) as (Hf & _).
    by apply (frame_scopes _ _ Hf).
  - by apply step_scopes_nonempty.
  - by destruct (keeps_scopes_load_program prog program_base vm) as [-> _].
  - done.
  - rewrite bind_run.
    destruct (keeps_scopes_deduce_memory_cell addr vm) as [Hs _].
    destruct (deduce_memory_cell addr vm) as [[[a|e] vm1] log1]; simpl in *;
      by rewrite Hs.
  - by rewrite verify_auto_deductions_unchanged.
  - by rewrite end_run_unchanged.
Qed.

Lemma run_calls_scopes_nonempty calls vm :
  (∀ instruction vm, exec_scopes (run_instruction instruction vm).2 = exec_scopes vm) →
  exec_scopes vm ≠ [] → exec_scopes (run_calls calls vm) ≠ [].
Proof.
  intros Hrun. revert vm. induction calls as [|c calls IH]; intros vm Hne; [done|].
  simpl. apply IH. by apply call_scopes_nonempty.
Qed.

(** C4: the scope stack is never empty.  The constructor leaves exactly one
    scope on it, the main scope; [enter_scope] pushes one scope;
    [exit_scope] raises and changes nothing when at most one scope is there,
    and pops one otherwise; so after the constructor, and after any run of
    calls on the machine it returns, the stack holds a scope -- given that
    [run_instruction], which the subclass supplies, does not touch the
    stack. *)
Theorem scope_stack_never_empty
    (Hrun : ∀ instruction vm,
        exec_scopes (run_instruction instruction vm).2 = exec_scopes vm) :
  (∀ program run_context hint_locals static_locals builtin_runners program_base vm,
     __init__ program run_context hint_locals static_locals builtin_runners program_base
       = Ok vm →
     ∃ main, exec_scopes vm = [main] ∧ deref vm main = builtin_runners ∪ hint_locals) ∧
  (∀ new_scope_locals vm,
     ∃ vm' ref,
       enter_scope new_scope_locals vm = (Ok (), vm', []) ∧
       exec_scopes vm' = exec_scopes vm ++ [ref]) ∧
  (∀ vm, (length (exec_scopes vm) ≤ 1)%nat →
     exit_scope vm = (Raise (AssertionError "Cannot exit main scope."), vm, [])) ∧
  (∀ vm, (1 < length (exec_scopes vm))%nat →
     ∃ vm',
       exit_scope vm = (Ok (), vm', []) ∧
       exec_scopes vm' = removelast (exec_scopes vm) ∧ exec_scopes vm' ≠ []) ∧
  (∀ calls vm, exec_scopes vm ≠ [] → exec_scopes (run_calls calls vm) ≠ []) ∧
  (∀ program run_context hint_locals static_locals builtin_runners program_base vm calls,
     __init__ program run_context hint_locals static_locals builtin_runners program_base
       = Ok vm →
     exec_scopes (run_calls calls vm) ≠ []).
Proof.
  repeat split.
  - intros program0 rc hint_locals statics runners base vm Hinit.
    apply init_state in Hinit as (Hs & Hd & _). exists 0%nat. split; [done|].
    unfold deref. by rewrite Hd.
  - intros new_scope_locals vm. rewrite enter_scope_run. by eexists _, _.
  - intros vm Hlen. by apply exit_scope_main.
  - intros vm Hlen. rewrite exit_scope_pop by done. eexists. split; [done|].
    split; [done|]. simpl. by apply removelast_nonempty.
  - intros calls vm. by apply run_calls_scopes_nonempty.
  - intros program0 rc hint_locals statics runners base vm calls Hinit.
    apply init_state in Hinit as (Hs & _). apply run_calls_scopes_nonempty; [done|].
    by rewrite Hs.
Qed.

(** *** The bindings of hints *)

Lemma exec_locals_of_bindings vm hint d : hint_bindings vm (exec_locals_of vm hint d).
Proof.
  unfold hint_bindings, exec_locals_of. split; [|split].
  - intros name Hname. apply lookup_union_is_Some. right.
    unfold bound_names in Hname. rewrite !elem_of_cons in Hname.
    destruct Hname as [->|[->|[->|[->|[->|[->|[->|[->|[->|[]%elem_of_nil]]]]]]]]];
      by simplify_map_eq.
  - intros name value Hstatic. by apply lookup_union_Some_l.
  - intros name value Hname Hstatic. rewrite lookup_union_r by done.
    unfold register_bindings in Hname. rewrite !elem_of_cons in Hname.
    destruct Hname as [[= -> ->]|[[= -> ->]|[[= -> ->]|[[= -> ->]|[]%elem_of_nil]]]];
      by simplify_map_eq.
Qed.

Lemma last_elem_of {A} (l : list A) (x : A) : last l = Some x → x ∈ l.
Proof.
  intros Hlast. apply last_Some in Hlast as [l' ->]. apply elem_of_app. right. left.
Qed.

Lemma run_hint_bindings hint_index hint vm :
  scopes_allocated vm →
  ∀ i code globals_,
    ExecHint i code globals_ ∈ (run_hint hint_index hint vm).2 →
    hint_bindings vm globals_.
Proof.
  intros Halloc i code globals_ Hin.
  destruct (run_hint_log hint_index hint vm)
    as [[_ Hlog]|(ref & writes & Hlast & Hlog & Hwrites)]; rewrite Hlog in Hin.
  - by apply elem_of_nil in Hin.
  - apply elem_of_cons in Hin as [[= -> -> ->]|Hin].
    + apply last_elem_of in Hlast.
      apply (proj1 (Forall_forall _ _) Halloc), lookup_lt_is_Some in Hlast as [d Hd].
      unfold deref, bind_exec_locals. simpl. rewrite list_lookup_alter_eq, Hd. simpl.
      apply exec_locals_of_bindings.
    + by apply (proj1 (Forall_forall _ _) Hwrites) in Hin.
Qed.

(** An execution recorded by the loop over the hints is that of a hint of
    the list, made in the state that the hints before it have left, and
    with the bindings of that state. *)
Lemma run_hints_bindings hint_index compiled_hints vm :
  scopes_allocated vm →
  ∀ i code globals_,
    ExecHint i code globals_ ∈ (run_hints hint_index compiled_hints vm).2 →
    ∃ vm_i log_i,
      (hint_index ≤ i)%nat ∧
      run_hints hint_index (take (i - hint_index) compiled_hints) vm
        = (Ok false, vm_i, log_i) ∧
      hint_frame vm vm_i ∧
      hint_bindings vm_i globals_.
Proof.
  revert hint_index vm.
  induction compiled_hints as [|hint compiled_hints IH];
    intros hint_index vm Halloc i code globals_; simpl.
  { by intros ?%elem_of_nil. }
  rewrite bind_run.
  pose proof (run_hint_bindings hint_index hint vm Halloc i code globals_) as Hfirst.
  pose proof (run_hint_log hint_index hint vm) as Hlog.
  pose proof (satisfies_run_hint hint_index hint vm) as (Hframe & _).
  destruct (run_hint hint_index hint vm) as [[[[]|e] vm1] log1] eqn:Hrun; simpl in *.
  - rewrite bind_get_self.
    assert (ExecHint i code globals_ ∈ log1 →
            ∃ vm_i log_i,
              (hint_index ≤ i)%nat ∧
              run_hints hint_index (take (i - hint_index) (hint :: compiled_hints)) vm
                = (Ok false, vm_i, log_i) ∧
              hint_frame vm vm_i ∧ hint_bindings vm_i globals_) as Hhere.
    { intros Hin. exists vm, []. 
      destruct Hlog as [[_ ->]|(ref & writes & _ & -> & Hwrites)];
        [by apply elem_of_nil in Hin|].
      assert (i = hint_index) as ->.
      { apply elem_of_cons in Hin as [[= -> _ _]|Hin]; [done|].
        by apply (proj1 (Forall_forall _ _) Hwrites) in Hin. }
      rewrite Nat.sub_diag. split; [done|]. split; [done|].
      split; [apply hint_frame_refl | by apply Hfirst]. }
    destruct (skip_instruction_execution vm1) eqn:Hskip.
    + unfold mret, Method_ret. simpl. rewrite app_nil_r. exact Hhere.
    + specialize (IH (S hint_index) vm1 (frame_allocated _ _ Hframe Halloc)
                    i code globals_).
      destruct (run_hints (S hint_index) compiled_hints vm1) as [[r vm2] log2].
      simpl in *. intros [Hin|Hin]%elem_of_app; [by apply Hhere|].
      destruct (IH Hin) as (vm_i & log_i & Hle & Hrest & Hframe_i & Hbind).
      exists vm_i, (log1 ++ log_i). split; [lia|].
      replace (i - hint_index)%nat with (S (i - S hint_index)) by lia.
      simpl. rewrite bind_run, Hrun, bind_get_self, Hskip, Hrest.
      split; [done|]. split; [by eapply hint_frame_trans | done].
  - intros Hin. exists vm, [].
    destruct Hlog as [[_ ->]|(ref & writes & _ & -> & Hwrites)];
      [by apply elem_of_nil in Hin|].
    assert (i = hint_index) as ->.
    { apply elem_of_cons in Hin as [[= -> _ _]|Hin]; [done|].
      by apply (proj1 (Forall_forall _ _) Hwrites) in Hin. }
    rewrite Nat.sub_diag. split; [done|]. split; [done|].
    split; [apply hint_frame_refl | by apply Hfirst].
Qed.

Lemma decode_and_run_log vm :
  Forall (λ ev, ev = DecodeCurrentInstruction ∨ ev = RunInstruction)
    ((record DecodeCurrentInstruction;;
      vm ← get_self;
      instruction ← lift_result (decode_current_instruction vm);
      record RunInstruction;;
      lift_state (run_instruction instruction)) vm).2.
Proof.
  rewrite bind_run. unfold record at 1. rewrite bind_get_self, bind_run.
  unfold lift_result at 1.
  destruct (decode_current_instruction vm) as [instruction|e].
  - rewrite bind_run. unfold record, lift_state.
    destruct (run_instruction instruction vm) as [r vm2]. cbn.
    repeat (constructor; [by auto|]). constructor.
  - cbn. repeat (constructor; [by auto|]). constructor.
Qed.

Lemma step_log vm :
  ∃ rest,
    (step vm).2 =
      (run_hints 0 (default [] (hints vm !! RunContextBase.pc (run_context vm)))
                 (set_skip_instruction_execution false vm)).2 ++ rest ∧
    Forall (λ ev, ev = DecodeCurrentInstruction ∨ ev = RunInstruction) rest.
Proof.
  unfold step. rewrite bind_modify, bind_get_self.
  cbn [hints run_context set_skip_instruction_execution]. rewrite bind_run.
  destruct (run_hints _ _ _) as [[[returned|e] vm1] log1]; cbn [fst snd];
    [|exists []; by rewrite app_nil_r].
  destruct returned.
  - unfold mret, Method_ret. by exists [].
  - pose proof (decode_and_run_log vm1) as Hlog.
    match goal with |- context [?m vm1] => destruct (m vm1) as [[r vm2] log2] end.
    by exists log2.
Qed.

Lemma constructed_frame vm vm' : hint_frame vm vm' → constructed vm → constructed vm'.
Proof.
  intros Hf [Halloc Hstatic]. split; [by apply (frame_allocated _ _ Hf)|].
  by rewrite (frame_program _ _ Hf), (frame_static_locals _ _ Hf).
Qed.

Lemma step_constructed vm :
  keeps_bindings run_instruction → constructed vm → constructed (step vm).1.2.
Proof.
  intros Hrun Hc. unfold step. rewrite bind_run. unfold modify at 1.
  rewrite bind_run. unfold get_self at 1. rewrite bind_run.
  pose proof (satisfies_run_hints 0
                (default [] (hints (set_skip_instruction_execution false vm)
                               !! RunContextBase.pc
                                    (run_context (set_skip_instruction_execution false vm))))
                (set_skip_instruction_execution false vm)) as (Hframe & _ & _).
  assert (constructed (set_skip_instruction_execution false vm)) as Hskip by done.
  destruct (run_hints _ _ _) as [[[returned|e] vm1] log1]; simpl in *;
    [|by eapply constructed_frame].
  assert (constructed vm1) as Hc1 by by eapply constructed_frame.
  destruct returned; simpl; [done|].
  rewrite bind_run. unfold record at 1. rewrite bind_run. unfold get_self at 1.
  rewrite bind_run. unfold lift_result at 1.
  destruct (decode_current_instruction vm1) as [instruction|e]; simpl; [|done].
  rewrite bind_run. unfold record, lift_state.
  destruct (Hrun instruction vm1) as (Hs & Hd & Hp & Hl).
  destruct (run_instruction instruction vm1) as [r vm2]. simpl in *.
  destruct Hc1 as [Halloc Hstatic]. split.
  - unfold scopes_allocated. by rewrite Hs, Hd.
  - by rewrite Hp, Hl.
Qed.

Lemma deduce_loop_state rules addr vm :
  (deduce_loop rules addr vm).1.2 = vm ∨
  ∃ validated memory, (deduce_loop rules addr vm).1.2 = set_memory validated memory vm.
Proof.
  induction rules as [|[rule args] rules IH]; simpl; [by left|].
  unfold_method. simpl.
  destruct (call_rule rule vm addr args) as [value|].
  - right. unfold validated_memory_setitem.
    destruct (ValidatedMemoryDict.setitem _ _ _ _) as [[[[]|e] validated] memory];
      by eexists _, _.
  - by destruct (deduce_loop rules addr vm) as [[[r|e] vm'] log].
Qed.

Lemma call_constructed c vm :
  keeps_bindings run_instruction → constructed vm → constructed (call c vm).1.2.
Proof.
  intros Hrun Hc.
  destruct c as [new_scope_locals| | |prog program_base|seg rule args|addr| |];
    unfold call.
  - destruct (satisfies_enter_scope (λ _, True) new_scope_locals vm) as (Hf & _).
    by eapply constructed_frame.
  - destruct (satisfies_exit_scope (λ _, True) vm) as (Hf & _).
    by eapply constructed_frame.
  - by apply step_constructed.
  - destruct (satisfies_load_program (λ _, True) prog program_base vm) as (Hf & _).
    by eapply constructed_frame.
  - done.
  - rewrite bind_run.
    assert (constructed (deduce_memory_cell addr vm).1.2) as Hd.
    { destruct addr as [z|addr]; [done|]. unfold deduce_memory_cell.
      rewrite bind_get_self.
      by destruct (deduce_loop_state
                     (default [] (auto_deduction vm !! segment_index addr)) addr vm)
        as [->|(validated & memory & ->)]. }
    by destruct (deduce_memory_cell addr vm) as [[[a|e] vm1] log1].
  - by rewrite verify_auto_deductions_unchanged.
  - by rewrite end_run_unchanged.
Qed.

Lemma run_calls_constructed calls vm :
  keeps_bindings run_instruction → constructed vm → constructed (run_calls calls vm).
Proof.
  intros Hrun. revert vm. induction calls as [|c calls IH]; intros vm Hc; [done|].
  simpl. apply IH. by apply call_constructed.
Qed.

(** C7, as the code has it: the constructor makes a machine in which the
    references of the scope stack are allocated and the static locals
    include the entries for the prime of the program, and every run of calls
    keeps it so, given that [run_instruction] leaves the scopes, the program
    and the static locals alone.  In such a machine, the dictionary that
    [step] hands to each hint it executes binds [memory], [ap], [fp], [pc],
    [current_step], [ids], [vm_load_program], [vm_enter_scope],
    [vm_exit_scope], binds every static local to its value, [PRIME] to the
    prime of the program, and binds [memory], [ap], [fp], [pc] to the
    validated memory and to the registers as the hints before it have left
    them, unless a static local goes by that name. *)
Theorem hint_bindings_before_exec :
  (∀ program run_context hint_locals static_locals builtin_runners program_base vm,
     __init__ program run_context hint_locals static_locals builtin_runners program_base
       = Ok vm →
     constructed vm) ∧
  (∀ calls vm,
     keeps_bindings run_instruction → constructed vm → constructed (run_calls calls vm)) ∧
  (∀ vm,
     constructed vm →
     ∀ hint_index code globals_,
       ExecHint hint_index code globals_ ∈ (step vm).2 →
       ∃ vm_i log_i,
         run_hints 0
           (take hint_index
                 (default [] (hints vm !! RunContextBase.pc (run_context vm))))
           (set_skip_instruction_execution false vm) = (Ok false, vm_i, log_i) ∧
         static_locals vm_i = static_locals vm ∧
         hint_bindings vm_i globals_ ∧
         globals_ !! "PRIME" = Some (PyValue (Int (ProgramBase_prime (program vm))))).
Proof.
  split; [|split].
  - intros prog rc hint_locals statics runners base vm Hinit.
    apply init_state in Hinit as (Hs & Hd & Hframe).
    eapply constructed_frame; [done|]. split.
    + by apply Forall_nil.
    + simpl. apply map_union_subseteq_l.
  - intros calls vm. apply run_calls_constructed.
  - intros vm [Halloc Hstatic] hint_index code globals_ Hin.
    destruct (step_log vm) as (rest & Hlog & Hrest). rewrite Hlog in Hin.
    apply elem_of_app in Hin as [Hin|Hin].
    + apply (run_hints_bindings 0 _ (set_skip_instruction_execution false vm)) in Hin
        as (vm_i & log_i & _ & Hrun & Hframe & Hbind); [|done].
      rewrite Nat.sub_0_r in Hrun. exists vm_i, log_i. split; [done|].
      split; [by rewrite (frame_static_locals _ _ Hframe)|]. split; [done|].
      destruct Hbind as (_ & Hbound & _). apply Hbound.
      rewrite (frame_static_locals _ _ Hframe). simpl.
      eapply lookup_weaken; [|done]. unfold builtin_static_locals.
      by rewrite lookup_insert_eq.
    + by apply (proj1 (Forall_forall _ _) Hrest) in Hin as [|].
Qed.

(** *** The calls of the traceback *)

Lemma walked_calls memory n fp calls :
  walked memory n fp calls →
  (length calls ≤ n)%nat ∧
  Forall (λ call_pc,
            ∃ ret_pc,
              (call_pc = sub_int ret_pc 1 ∧ single_word_call memory ret_pc) ∨
              (call_pc = sub_int ret_pc 2 ∧ two_word_call memory ret_pc)) calls.
Proof.
  induction 1 as [fp|n fp Hout|n fp Habs|n fp prev ret calls Hp Hne Hr Hs Hw [IHl IHc]
                 |n fp prev ret calls Hp Hne Hr Hns Ht Hw [IHl IHc]
                 |n fp prev ret Hp Hne Hr Hns Hnt]; simpl.
  1-3, 6: split; [lia | constructor].
  - split; [lia|]. constructor; [|done]. exists ret. by left.
  - split; [lia|]. constructor; [|done]. exists ret. by right.
Qed.

(** X18: [get_traceback_entries] returns at most [MAX_TRACEBACK_ENTRIES]
    entries, also when the saved frame pointers form a cycle, and every entry
    is the address of a call: one or two words before a return pc, where the
    memory holds words that [is_call_instruction] takes for a call. *)
Theorem get_traceback_entries_calls (self : RunContextBase.t) :
  (length (get_traceback_entries self) ≤ MAX_TRACEBACK_ENTRIES)%nat ∧
  ∀ call_pc,
    call_pc ∈ get_traceback_entries self →
    ∃ ret_pc,
      (call_pc = sub_int ret_pc 1 ∧
       single_word_call (RunContextBase.memory self) ret_pc) ∨
      (call_pc = sub_int ret_pc 2 ∧
       two_word_call (RunContextBase.memory self) ret_pc).
Proof.
  destruct (walked_total (RunContextBase.memory self) MAX_TRACEBACK_ENTRIES
              (RunContextBase.fp self)) as [calls Hw].
  unfold get_traceback_entries. rewrite (traceback_loop_walked _ _ _ calls [] Hw).
  destruct (walked_calls _ _ _ _ Hw) as [Hlen Hcalls]. simpl. split.
  - by rewrite length_reverse.
  - intros call_pc Hin. rewrite elem_of_reverse in Hin.
    rewrite Forall_forall in Hcalls. by apply Hcalls.
Qed.

(** *** Scopes, entered and left *)

Lemma deref_set_exec_scopes f vm ref : deref (set_exec_scopes f vm) ref = deref vm ref.
Proof. done. Qed.

(** X19: [enter_scope] puts on the stack a new dictionary, which no scope
    below shares: the locals given, overridden by the builtin runners of the
    same names, and nothing of the scope that was current. The scopes below
    are as they were, and [exit_scope] then takes the stack back. *)
Theorem enter_scope_new_scope
    (new_scope_locals : option Dict) (vm : VirtualMachineBase) :
  scopes_allocated vm →
  let vm' := (enter_scope new_scope_locals vm).1.2 in
  ∃ ref,
    exec_scopes vm' = exec_scopes vm ++ [ref] ∧
    (ref ∉ exec_scopes vm) ∧
    deref vm' ref = builtin_runners vm ∪ default ∅ new_scope_locals ∧
    (∀ below, below ∈ exec_scopes vm → deref vm' below = deref vm below) ∧
    (exec_scopes vm ≠ [] →
     (exit_scope vm').1.1 = Ok () ∧
     exec_scopes (exit_scope vm').1.2 = exec_scopes vm).
Proof.
  intros Halloc. rewrite enter_scope_run. simpl.
  exists (length (dicts vm)). unfold scopes_allocated in Halloc.
  rewrite Forall_forall in Halloc. split_and!.
  - done.
  - intros Hin%Halloc. lia.
  - unfold deref. simpl. by rewrite lookup_app_r, Nat.sub_diag.
  - intros below Hin%Halloc. unfold deref. simpl. by rewrite lookup_app_l.
  - intros Hne. rewrite exit_scope_pop.
    + simpl. by rewrite removelast_snoc.
    + simpl. rewrite length_app. simpl. destruct (exec_scopes vm); [done|simpl; lia].
Qed.



(** *** Loading a program *)

Lemma set_hint_pc_and_index_compose f g vm :
  set_hint_pc_and_index f (set_hint_pc_and_index g vm)
    = set_hint_pc_and_index (λ m, f (g m)) vm.
Proof. done. Qed.

Lemma add_int_inj base (pc1 pc2 : Z) : add_int base pc1 = add_int base pc2 → pc1 = pc2.
Proof. destruct base as [z|[seg off]]; simpl; intros [= ?]; lia. Qed.

Lemma compile_hint_run source filename hint_index vm :
  compile_hint source filename hint_index vm =
    match compile source filename with
    | Ok code => (Ok code, vm, [])
    | Raise e => (Raise (compile_error vm e hint_index), vm, [])
    end.
Proof.
  unfold compile_hint, compile_error.
  destruct (compile source filename) as [code|[]]; done.
Qed.

(** The loop over the hints of one pc touches only the table of hint ids,
    where it gives every hint it meets the next free id. *)
Lemma compile_hints_ids hint_index program_hints pc compiled_hints vm :
  dense_hint_ids vm →
  ∃ f,
    (compile_hints hint_index program_hints pc compiled_hints vm).1.2
      = set_hint_pc_and_index f vm ∧
    (compile_hints hint_index program_hints pc compiled_hints vm).2 = [] ∧
    dense_hint_ids (set_hint_pc_and_index f vm) ∧
    hint_pc_and_index vm ⊆ f (hint_pc_and_index vm) ∧
    (∀ hint_id entry,
       f (hint_pc_and_index vm) !! hint_id = Some entry →
       hint_pc_and_index vm !! hint_id = Some entry ∨
       ∃ index, entry = (pc, index) ∧
                (hint_index ≤ index < hint_index + length program_hints)%nat).
Proof.
  revert hint_index compiled_hints vm.
  induction program_hints as [|hint program_hints IH];
    intros hint_index compiled_hints vm Hdense; simpl.
  { exists id. destruct vm. split_and!; auto. }
  rewrite bind_get_self, bind_modify, bind_run, compile_hint_run.
  set (vm1 := set_hint_pc_and_index _ vm).
  assert (hint_pc_and_index vm !! size (hint_pc_and_index vm) = None) as Hfresh.
  { apply eq_None_not_Some. rewrite (Hdense _). lia. }
  assert (dense_hint_ids vm1) as Hdense1.
  { intros hint_id. subst vm1. simpl. rewrite map_size_insert_None by done.
    destruct (decide (hint_id = size (hint_pc_and_index vm))) as [->|Hne].
    - rewrite lookup_insert_eq. split; [lia | by eauto].
    - rewrite lookup_insert_ne by done. rewrite (Hdense _). lia. }
  assert (hint_pc_and_index vm ⊆ hint_pc_and_index vm1) as Hsub1.
  { subst vm1. simpl. by apply insert_subseteq. }
  assert (∀ hint_id entry,
            hint_pc_and_index vm1 !! hint_id = Some entry →
            hint_pc_and_index vm !! hint_id = Some entry ∨ entry = (pc, hint_index))
    as Hnew1.
  { intros hint_id entry. subst vm1. simpl.
    destruct (decide (hint_id = size (hint_pc_and_index vm))) as [->|Hne].
    - rewrite lookup_insert_eq. intros [= <-]. by right.
    - rewrite lookup_insert_ne by done. by left. }
  destruct (compile _ _) as [code|e].
  - destruct (IH (S hint_index)
                (compiled_hints ++
                   [mkCompiledHint code
                      (λ pc ap fp memory,
                         PyVmConsts pc ap fp memory (Hint.accessible_scopes hint)
                                    (Hint.flow_tracking_data hint))])
                vm1 Hdense1) as (f & Hvm & Hlog & Hdense' & Hsub' & Hnew').
    destruct (compile_hints _ _ _ _ vm1) as [[r vm2] log2]. simpl in *. subst vm2 log2.
    eexists (λ m, f (<[size (hint_pc_and_index vm) := (pc, hint_index)]> m)).
    split; [done|]. split; [done|]. split; [done|]. simpl. split.
    + etrans; [exact Hsub1|]. exact Hsub'.
    + intros hint_id entry Hentry.
      destruct (Hnew' _ _ Hentry) as [Hold|(index & -> & Hindex)].
      * destruct (Hnew1 _ _ Hold) as [?| ->]; [by left|].
        right. exists hint_index. split; [done|lia].
      * right. exists index. split; [done|lia].
  - simpl. eexists. split; [done|]. split; [done|]. split; [done|].
    split; [exact Hsub1|].
    intros hint_id entry Hentry. destruct (Hnew1 _ _ Hentry) as [?| ->]; [by left|].
    right. exists hint_index. split; [done|lia].
Qed.

Lemma load_hints_items_ids items program_base vm :
  dense_hint_ids vm →
  let vm' := (load_hints_items items program_base vm).1.2 in
  dense_hint_ids vm' ∧
  hint_pc_and_index vm ⊆ hint_pc_and_index vm' ∧
  (∀ hint_id entry,
     hint_pc_and_index vm' !! hint_id = Some entry →
     hint_pc_and_index vm !! hint_id = Some entry ∨
     ∃ pc program_hints index,
       (pc, program_hints) ∈ items ∧ entry = (add_int program_base pc, index) ∧
       (index < length program_hints)%nat).
Proof.
  revert vm. induction items as [|[pc program_hints] items IH]; intros vm Hdense; simpl.
  { split_and!; auto. }
  rewrite bind_run.
  destruct (compile_hints_ids 0 program_hints (add_int program_base pc) [] vm Hdense)
    as (f & Hvm & Hlog & Hdense1 & Hsub1 & Hnew1).
  destruct (compile_hints 0 program_hints _ [] vm) as [[[compiled_hints|e] vm1] log1];
    simpl in *; subst vm1 log1.
  - rewrite bind_modify.
    set (vm2 := set_hints _ _).
    destruct (IH vm2) as (Hdense2 & Hsub2 & Hnew2); [done|].
    destruct (load_hints_items items program_base vm2) as [[r vm3] log3]. simpl in *.
    split; [done|]. split; [by etrans|].
    intros hint_id entry Hentry.
    destruct (Hnew2 _ _ Hentry) as [Hold|(pc' & hs' & index & Hin & -> & Hindex)].
    + destruct (Hnew1 _ _ Hold) as [?|(index & -> & Hindex)]; [by left|].
      right. exists pc, program_hints, index. split_and!; [by left|done|lia].
    + right. exists pc', hs', index. split_and!; [by right|done|done].
  - split; [done|]. split; [done|].
    intros hint_id entry Hentry.
    destruct (Hnew1 _ _ Hentry) as [?|(index & -> & Hindex)]; [by left|].
    right. exists pc, program_hints, index. split_and!; [by left|done|lia].
Qed.

(** X21: The hint ids are never reused: whatever [load_program] does, also
    when it raises, every id in use keeps its entry, the ids in use stay the
    numbers below their count, and every new entry is the pc and the index of
    a hint of the program. *)
Theorem load_program_hint_ids
    (program : Program.t) (program_base : MaybeRelocatable) (vm : VirtualMachineBase) :
  dense_hint_ids vm →
  let vm' := (load_program program program_base vm).1.2 in
  dense_hint_ids vm' ∧
  hint_pc_and_index vm ⊆ hint_pc_and_index vm' ∧
  (∀ hint_id entry,
     hint_pc_and_index vm' !! hint_id = Some entry →
     hint_pc_and_index vm !! hint_id = Some entry ∨
     ∃ pc program_hints index,
       (pc, program_hints) ∈ Program.hints program ∧
       entry = (add_int program_base pc, index) ∧
       (index < length program_hints)%nat).
Proof.
  intros Hdense. unfold load_program. rewrite bind_get_self.
  destruct (decide (prime vm = Program.prime program)); [|simpl; split_and!; auto].
  rewrite bind_run.
  assert (∃ vm0, load_debug_info (Program.debug_info program) program_base vm
                 = (Ok (), vm0, []) ∧
                 hint_pc_and_index vm0 = hint_pc_and_index vm) as (vm0 & -> & Hids).
  { unfold load_debug_info. destruct (Program.debug_info program); [|by eexists].
    rewrite bind_modify. by eexists. }
  assert (dense_hint_ids vm0) as Hdense0.
  { intros hint_id. rewrite Hids. apply Hdense. }
  pose proof (load_hints_items_ids (Program.hints program) program_base vm0 Hdense0) as H.
  unfold load_hints.
  destruct (load_hints_items _ _ vm0) as [[r vm1] log1]. simpl in *.
  by rewrite Hids in H.
Qed.

Lemma compile_hints_ok hint_index program_hints pc compiled_hints vm :
  Forall compiles program_hints →
  ∃ f loaded,
    compile_hints hint_index program_hints pc compiled_hints vm
      = (Ok (compiled_hints ++ loaded), set_hint_pc_and_index f vm, []) ∧
    Forall2 compiled_from program_hints loaded.
Proof.
  intros Hall. revert hint_index compiled_hints vm.
  induction Hall as [|hint program_hints Hhint _ IH]; intros hint_index compiled_hints vm.
  { exists id, []. simpl. unfold mret, Method_ret. rewrite app_nil_r.
    split; [by destruct vm | constructor]. }
  simpl. rewrite bind_get_self, bind_modify, bind_run, compile_hint_run.
  destruct (Hhint ("<hint" +:+ pretty (size (hint_pc_and_index vm)) +:+ ">"))
    as [code Hcode].
  rewrite Hcode.
  set (c := mkCompiledHint code _).
  destruct (IH (S hint_index) (compiled_hints ++ [c]) (set_hint_pc_and_index
              <[size (hint_pc_and_index vm) := (pc, hint_index)]> vm))
    as (f & loaded & -> & Hloaded).
  eexists (λ m, f (<[size (hint_pc_and_index vm) := (pc, hint_index)]> m)), (c :: loaded).
  split; [by rewrite <-app_assoc|].
  constructor; [|done]. split; [by eexists|done].
Qed.

Lemma compile_hints_fails hint_index pre hint post pc compiled_hints vm e :
  Forall compiles pre →
  (∀ filename, compile (Hint.code hint) filename = Raise e) →
  ∃ f,
    compile_hints hint_index (pre ++ hint :: post) pc compiled_hints vm
      = (Raise (compile_error vm e (hint_index + length pre)),
         set_hint_pc_and_index f vm, []).
Proof.
  intros Hpre Hfail. revert hint_index compiled_hints vm.
  induction Hpre as [|hint0 pre Hhint _ IH]; intros hint_index compiled_hints vm; simpl.
  - rewrite bind_get_self, bind_modify, bind_run, compile_hint_run, Hfail.
    rewrite Nat.add_0_r. by eexists.
  - rewrite bind_get_self, bind_modify, bind_run, compile_hint_run.
    destruct (Hhint ("<hint" +:+ pretty (size (hint_pc_and_index vm)) +:+ ">"))
      as [code Hcode].
    rewrite Hcode.
    set (c := mkCompiledHint code _).
    destruct (IH (S hint_index) (compiled_hints ++ [c]) (set_hint_pc_and_index
                <[size (hint_pc_and_index vm) := (pc, hint_index)]> vm)) as (f & ->).
    eexists (λ m, f (<[size (hint_pc_and_index vm) := (pc, hint_index)]> m)).
    replace (hint_index + S (length pre))%nat
      with (S hint_index + length pre)%nat by lia.
    done.
Qed.

Lemma load_hints_items_ok items program_base vm :
  NoDup items.*1 →
  Forall (λ item, Forall compiles item.2) items →
  ∃ vm',
    load_hints_items items program_base vm = (Ok (), vm', []) ∧
    (∀ pc program_hints,
       (pc, program_hints) ∈ items →
       ∃ loaded,
         hints vm' !! add_int program_base pc = Some loaded ∧
         Forall2 compiled_from program_hints loaded) ∧
    (∀ addr,
       (∀ pc, pc ∈ items.*1 → addr ≠ add_int program_base pc) →
       hints vm' !! addr = hints vm !! addr) ∧
    exec_scopes vm' = exec_scopes vm ∧ dicts vm' = dicts vm ∧
    run_context vm' = run_context vm ∧ prime vm' = prime vm.
Proof.
  intros Hnodup Hall. revert vm Hnodup.
  induction Hall as [|[pc program_hints] items Hitem _ IH]; intros vm Hnodup; simpl.
  { eexists. split; [done|]. split_and!; auto. by intros ? ? ?%elem_of_nil. }
  apply NoDup_cons in Hnodup as [Hpc Hnodup].
  rewrite bind_run.
  destruct (compile_hints_ok 0 program_hints (add_int program_base pc) [] vm Hitem)
    as (f & loaded & -> & Hloaded).
  rewrite bind_modify.
  set (vm1 := set_hints _ _).
  destruct (IH vm1 Hnodup) as (vm' & -> & Hin & Hout & Hscopes & Hdicts & Hctx & Hprime).
  exists vm'. split; [done|]. split_and!.
  - intros pc' hs' [[= -> ->]|Hin']%elem_of_cons.
    + exists loaded. split; [|done]. rewrite Hout.
      * subst vm1. simpl. by rewrite lookup_insert_eq.
      * intros pc' Hpc' Heq%add_int_inj. by subst.
    + by apply Hin.
  - intros addr Haddr. rewrite Hout.
    + subst vm1. simpl. rewrite lookup_insert_ne; [done|].
      intros Heq. eapply Haddr; [|done]. simpl. by left.
    + intros pc' Hpc'. apply Haddr. simpl. by right.
  - by rewrite Hscopes.
  - by rewrite Hdicts.
  - by rewrite Hctx.
  - by rewrite Hprime.
Qed.

Lemma load_debug_info_run debug_info program_base vm :
  ∃ vm0,
    load_debug_info debug_info program_base vm = (Ok (), vm0, []) ∧
    hints vm0 = hints vm ∧ hint_pc_and_index vm0 = hint_pc_and_index vm ∧
    exec_scopes vm0 = exec_scopes vm ∧ dicts vm0 = dicts vm ∧
    run_context vm0 = run_context vm ∧ prime vm0 = prime vm.
Proof.
  unfold load_debug_info. destruct debug_info; [|by eexists].
  rewrite bind_modify. by eexists.
Qed.

(** X22: A program of the machine's prime whose hints all compile is loaded
    without an exception: under the address of every pc of the program that
    has hints, the table of hints then holds those hints, compiled, in their
    order, and the hints under every other address are the ones that were
    there. *)
Theorem load_program_loads_hints
    (program : Program.t) (program_base : MaybeRelocatable) (vm : VirtualMachineBase) :
  prime vm = Program.prime program →
  NoDup (Program.hints program).*1 →
  Forall (λ item, Forall compiles item.2) (Program.hints program) →
  ∃ vm',
    load_program program program_base vm = (Ok (), vm', []) ∧
    (∀ pc program_hints,
       (pc, program_hints) ∈ Program.hints program →
       ∃ loaded,
         hints vm' !! add_int program_base pc = Some loaded ∧
         Forall2 compiled_from program_hints loaded) ∧
    (∀ addr,
       (∀ pc, pc ∈ (Program.hints program).*1 → addr ≠ add_int program_base pc) →
       hints vm' !! addr = hints vm !! addr).
Proof.
  intros Hprime Hnodup Hall. unfold load_program.
  rewrite bind_get_self, decide_True by done. rewrite bind_run.
  destruct (load_debug_info_run (Program.debug_info program) program_base vm)
    as (vm0 & -> & Hhints0 & _).
  destruct (load_hints_items_ok _ program_base vm0 Hnodup Hall)
    as (vm' & Hrun & Hin & Hout & _).
  unfold load_hints. rewrite Hrun. exists vm'. split; [done|]. split; [done|].
  intros addr Haddr. by rewrite Hout, Hhints0.
Qed.

Lemma load_hints_items_fails pre_items pc pre hint post post_items program_base vm e :
  Forall (λ item, Forall compiles item.2) pre_items →
  Forall compiles pre →
  (∀ filename, compile (Hint.code hint) filename = Raise e) →
  pc ∉ pre_items.*1 →
  ∃ vm',
    load_hints_items (pre_items ++ (pc, pre ++ hint :: post) :: post_items) program_base vm
      = (Raise (compile_error vm e (length pre)), vm', []) ∧
    hints vm' !! add_int program_base pc = hints vm !! add_int program_base pc ∧
    run_context vm' = run_context vm.
Proof.
  intros Hitems Hpre Hfail. revert vm.
  induction Hitems as [|[pc0 hs0] pre_items Hitem _ IH]; intros vm Hpc; simpl.
  - rewrite bind_run.
    destruct (compile_hints_fails 0 pre hint post (add_int program_base pc) [] vm e
                Hpre Hfail) as (f & ->).
    by eexists.
  - rewrite bind_run.
    destruct (compile_hints_ok 0 hs0 (add_int program_base pc0) [] vm Hitem)
      as (f & loaded & -> & _).
    rewrite bind_modify.
    set (vm1 := set_hints _ _).
    destruct (IH vm1) as (vm' & -> & Hhints & Hctx).
    { intros Hin. apply Hpc. simpl. by right. }
    exists vm'. split; [done|]. split; [|by rewrite Hctx].
    rewrite Hhints. subst vm1. simpl. rewrite lookup_insert_ne; [done|].
    intros Heq%add_int_inj. apply Hpc. simpl. subst. by left.
Qed.

(** X23: [load_program] stops at the first hint that does not compile. A
    [SyntaxError] is raised as the inner exception of a [VmException] with the
    index of the hint among those of its pc and, for its pc, the pc at which
    the machine stands, not the one of the hint; any other exception of
    [compile] is raised as it is. The hints of that pc are not registered, not
    even those before it that did compile. *)
Theorem load_program_compile_error
    (program : Program.t) (program_base : MaybeRelocatable) (vm : VirtualMachineBase)
    (pre_items post_items : list (Z * list Hint.t)) (pc : Z)
    (pre post : list Hint.t) (hint : Hint.t) (e : PyException) :
  prime vm = Program.prime program →
  Program.hints program = pre_items ++ (pc, pre ++ hint :: post) :: post_items →
  Forall (λ item, Forall compiles item.2) pre_items →
  Forall compiles pre →
  (∀ filename, compile (Hint.code hint) filename = Raise e) →
  pc ∉ pre_items.*1 →
  ∃ vm',
    load_program program program_base vm
      = (Raise (compile_error vm e (length pre)), vm', []) ∧
    hints vm' !! add_int program_base pc = hints vm !! add_int program_base pc.
Proof.
  intros Hprime Hhints Hitems Hpre Hfail Hpc. unfold load_program.
  rewrite bind_get_self, decide_True by done. rewrite bind_run.
  destruct (load_debug_info_run (Program.debug_info program) program_base vm)
    as (vm0 & -> & Hhints0 & _ & _ & _ & Hctx0 & _).
  destruct (load_hints_items_fails pre_items pc pre hint post post_items program_base vm0 e
              Hitems Hpre Hfail Hpc) as (vm' & Hrun & Hsame & _).
  unfold load_hints. rewrite Hhints, Hrun. exists vm'.
  unfold compile_error. rewrite Hctx0. split; [done|]. by rewrite Hsame, Hhints0.
Qed.

(** X24: The constructor fails only where a hint does not compile: for a
    stripped program, and for a program whose hints all compile, it returns a
    machine -- the prime of the program is the prime of the machine, so the
    assertion of [load_program] holds -- with the main scope alone on the
    stack and, for a full program, the hints of every pc loaded. *)
Theorem init_returns
    (program : ProgramBase) (run_context : RunContextBase.t)
    (hint_locals : Dict) (static_locals : option Dict) (builtin_runners : Dict)
    (program_base : MaybeRelocatable) :
  match program with
  | FullProgram p =>
      NoDup (Program.hints p).*1 ∧
      Forall (λ item, Forall compiles item.2) (Program.hints p)
  | StrippedProgram _ => True
  end →
  ∃ vm,
    __init__ program run_context hint_locals static_locals builtin_runners program_base
      = Ok vm ∧
    prime vm = ProgramBase_prime program ∧
    (exec_scopes vm ≫= λ ref, [deref vm ref]) = [builtin_runners ∪ hint_locals] ∧
    match program with
    | FullProgram p =>
        ∀ pc program_hints,
          (pc, program_hints) ∈ Program.hints p →
          ∃ loaded,
            hints vm !! add_int program_base pc = Some loaded ∧
            Forall2 compiled_from program_hints loaded
    | StrippedProgram _ => hints vm = ∅
    end.
Proof.
  intros Hprogram. unfold __init__. rewrite bind_run, enter_scope_run.
  set (vm0 := set_exec_scopes _ _).
  destruct program as [p|stripped_prime].
  - destruct Hprogram as [Hnodup Hall].
    unfold load_program. rewrite bind_get_self, decide_True by done.
    rewrite bind_run.
    destruct (load_debug_info_run (Program.debug_info p) program_base vm0)
      as (vm1 & -> & Hhints1 & _ & Hscopes1 & Hdicts1 & _ & Hprime1).
    destruct (load_hints_items_ok _ program_base vm1 Hnodup Hall)
      as (vm' & Hrun & Hin & _ & Hscopes & Hdicts & _ & Hprime).
    unfold load_hints. rewrite Hrun. exists vm'. split; [done|].
    split_and!.
    + by rewrite Hprime, Hprime1.
    + unfold deref. rewrite Hscopes, Hdicts, Hscopes1, Hdicts1. done.
    + done.
  - exists vm0. done.
Qed.

(** *** [step], when no hint asks for a skip *)

Lemma run_hints_no_skip hint_index compiled_hints vm vm' log :
  skip_instruction_execution vm = false →
  run_hints hint_index compiled_hints vm = (Ok false, vm', log) →
  skip_instruction_execution vm' = false.
Proof.
  revert hint_index vm log.
  induction compiled_hints as [|hint compiled_hints IH]; intros hint_index vm log Hskip;
    simpl.
  - unfold mret, Method_ret. by intros [= <- _].
  - rewrite bind_run.
    destruct (run_hint hint_index hint vm) as [[[[]|e] vm1] log1]; [|done].
    rewrite bind_get_self.
    destruct (skip_instruction_execution vm1) eqn:Hskip1; [by unfold mret, Method_ret|].
    destruct (run_hints (S hint_index) compiled_hints vm1) as [[r vm2] log2] eqn:Hrest.
    intros [= -> -> _]. by eapply IH.
Qed.

(** X25: When the hints of the current pc have all run and none has left
    [skip_instruction_execution] set -- a flag that was set before the step
    does not count, it is cleared first -- [step] decodes the instruction
    once and runs it once, in the state that the hints left: the flag is
    clear there, and the registers, the step counter and the trace are those
    of the start unless a hint assigned them.  An exception of the decoder
    is raised without [run_instruction] being called. *)
Theorem step_runs_instruction
    (vm vm1 : VirtualMachineBase) (log1 : list Event) :
  run_hints 0 (default [] (hints vm !! RunContextBase.pc (run_context vm)))
            (set_skip_instruction_execution false vm) = (Ok false, vm1, log1) →
  step vm =
    match decode_current_instruction vm1 with
    | Ok instruction =>
        ((run_instruction instruction vm1).1, (run_instruction instruction vm1).2,
         log1 ++ [DecodeCurrentInstruction; RunInstruction])
    | Raise e => (Raise e, vm1, log1 ++ [DecodeCurrentInstruction])
    end ∧
  hint_indices log1
    = seq 0 (length (default [] (hints vm !! RunContextBase.pc (run_context vm)))) ∧
  skip_instruction_execution vm1 = false ∧
  attribute_frame vm vm1 log1.
Proof.
  intros Hrun.
  pose proof (satisfies_run_hints 0
                (default [] (hints vm !! RunContextBase.pc (run_context vm)))
                (set_skip_instruction_execution false vm)) as Heff.
  rewrite Hrun in Heff. simpl in Heff. destruct Heff as (_ & _ & _ & Hattr).
  split; [|split; [|split; [|done]]].
  - unfold step. rewrite bind_modify, bind_get_self.
    cbn [hints run_context set_skip_instruction_execution].
    rewrite bind_run, Hrun.
    rewrite bind_run. unfold record at 1. rewrite bind_get_self, bind_run.
    unfold lift_result at 1.
    destruct (decode_current_instruction vm1) as [instruction|e]; [|done].
    rewrite bind_run. unfold record, lift_state.
    by destruct (run_instruction instruction vm1) as [r vm2].
  - by apply (run_hints_indices _ _ _ _ _ Hrun).
  - by eapply run_hints_no_skip; [|exact Hrun].
Qed.

(** *** The exceptions of hints *)

Lemma exec_hint_raises code globals_ hint_index vm vm' log e :
  exec_hint code globals_ hint_index vm = (Raise e, vm', log) →
  (∃ inner,
     is_Exception inner = true ∧
     e = VmException (RunContextBase.pc (run_context vm')) (HintException inner)
                     (Some hint_index)) ∨
  is_Exception e = false.
Proof.
  unfold exec_hint. rewrite bind_get_self, bind_run. unfold record at 1.
  rewrite bind_run.
  assert (∃ vm1, (match deref vm globals_ !! "__builtins__" with
                  | Some _ => mret ()
                  | None => dict_setitem globals_ "__builtins__" PyBuiltins
                  end) vm = (Ok (), vm1, [])) as (vm1 & ->)
    by (destruct (deref vm globals_ !! "__builtins__"); by eexists).
  rewrite bind_run. unfold try at 1.
  destruct (exec_code code globals_ vm1) as [[[[]|inner] vm2] log2]; simpl in *; [done|].
  destruct (is_Exception inner) eqn:Hinner; unfold_method; simpl.
  - unfold as_vm_exception. intros [= <- <- _]. left. by exists inner.
  - intros [= <- _ _]. by right.
Qed.

Lemma dict_delitem_raises ref name vm vm' log e :
  dict_delitem ref name vm = (Raise e, vm', log) → e = KeyError name.
Proof.
  unfold dict_delitem. rewrite bind_get_self.
  destruct (deref vm ref !! name); [done|]. unfold raise. by intros [= <- _ _].
Qed.

Lemma run_hint_raises hint_index hint vm vm' log e :
  exec_scopes vm ≠ [] →
  run_hint hint_index hint vm = (Raise e, vm', log) →
  hint_loop_exception vm' (S hint_index) e.
Proof.
  intros Hne.
  destruct (last (exec_scopes vm)) as [ref|] eqn:Hlast;
    [|by apply last_None in Hlast].
  rewrite (run_hint_run _ _ _ _ Hlast), bind_run.
  destruct (exec_hint _ _ _ _) as [[[[]|e1] vm1] log1] eqn:Hexec.
  - rewrite bind_run.
    destruct (dict_delitem ref "ids" vm1) as [[[[]|e2] vm2] log2] eqn:Hdel1.
    + destruct (dict_delitem ref "memory" vm2) as [[[[]|e3] vm3] log3] eqn:Hdel2; [done|].
      intros [= <- _ _]. right. right. right. by eapply dict_delitem_raises.
    + intros [= <- _ _]. right. right. left. by eapply dict_delitem_raises.
  - intros [= <- <- _].
    apply exec_hint_raises in Hexec as [(inner & Hinner & ->)|Hbase]; [|by right; left].
    left. exists inner, hint_index. split; [done|]. split; [done|lia].
Qed.

Lemma hint_loop_exception_mono vm' count count' e :
  (count ≤ count')%nat → hint_loop_exception vm' count e → hint_loop_exception vm' count' e.
Proof.
  intros Hle [(inner & index & Hinner & -> & Hindex)|Hother]; [|by right].
  left. exists inner, index. split; [done|]. split; [done|lia].
Qed.

Lemma run_hints_raises hint_index compiled_hints vm vm' log e :
  exec_scopes vm ≠ [] →
  run_hints hint_index compiled_hints vm = (Raise e, vm', log) →
  hint_loop_exception vm' (hint_index + length compiled_hints) e.
Proof.
  revert hint_index vm vm' log.
  induction compiled_hints as [|hint compiled_hints IH]; intros hint_index vm vm' log Hne;
    simpl; [done|].
  rewrite bind_run.
  pose proof (satisfies_run_hint hint_index hint vm) as (Hframe & _ & _).
  destruct (run_hint hint_index hint vm) as [[[[]|e1] vm1] log1] eqn:Hrun.
  - rewrite bind_get_self.
    destruct (skip_instruction_execution vm1); [by unfold mret, Method_ret|].
    destruct (run_hints (S hint_index) compiled_hints vm1) as [[r vm2] log2] eqn:Hrest.
    intros [= -> -> _]. simpl in Hframe.
    eapply hint_loop_exception_mono;
      [|exact (IH _ _ _ _ (frame_scopes _ _ Hframe Hne) Hrest)]. lia.
  - intros [= <- <- _].
    eapply hint_loop_exception_mono; [|exact (run_hint_raises _ _ _ _ _ _ Hne Hrun)]. lia.
Qed.

(** X26: The exceptions that [step] lets out of its loop over the hints, on
    a machine with a scope: an exception of a hint that [except Exception]
    catches, as the inner exception of a [HintException] inside a
    [VmException] with the index of the hint and the pc of the machine as
    the hint left it; an exception of a hint outside [Exception], such as
    [SystemExit], as it is; or the [KeyError] of [del exec_locals["ids"]] or
    [del exec_locals["memory"]], as it is, when the hint has unbound the
    name.  The instruction is then neither decoded nor run. *)
Theorem step_hint_exception
    (vm vm' : VirtualMachineBase) (log : list Event) (e : PyException) :
  exec_scopes vm ≠ [] →
  run_hints 0 (default [] (hints vm !! RunContextBase.pc (run_context vm)))
            (set_skip_instruction_execution false vm) = (Raise e, vm', log) →
  step vm = (Raise e, vm', log) ∧
  hint_loop_exception vm'
    (length (default [] (hints vm !! RunContextBase.pc (run_context vm)))) e ∧
  (DecodeCurrentInstruction ∉ log) ∧ (RunInstruction ∉ log).
Proof.
  intros Hne Hrun.
  pose proof (satisfies_run_hints 0
                (default [] (hints vm !! RunContextBase.pc (run_context vm)))
                (set_skip_instruction_execution false vm)) as Heff.
  rewrite Hrun in Heff. simpl in Heff. destruct Heff as (_ & Hlog & _).
  destruct (is_hint_event_not_decode _ Hlog) as [Hdec Hinstr].
  split_and!; try done.
  - unfold step. rewrite bind_modify, bind_get_self.
    cbn [hints run_context set_skip_instruction_execution].
    by rewrite bind_run, Hrun.
  - exact (run_hints_raises 0 _ (set_skip_instruction_execution false vm) _ _ _
             Hne Hrun).
Qed.

(** X27: One iteration of the loop of [step] that completes leaves neither
    [ids] nor [memory] bound in the dictionary that was the top scope when the
    iteration began, whatever scopes the hint has entered or left. *)
Theorem run_hint_clears_ids_and_memory
    (hint_index : nat) (hint : CompiledHint) (vm vm' : VirtualMachineBase)
    (log : list Event) (ref : nat) :
  last (exec_scopes vm) = Some ref →
  run_hint hint_index hint vm = (Ok (), vm', log) →
  deref vm' ref !! "ids" = None ∧ deref vm' ref !! "memory" = None.
Proof.
  intros Hlast. rewrite (run_hint_run _ _ _ _ Hlast), bind_run.
  destruct (exec_hint _ _ _ _) as [[[[]|e1] vm1] log1]; [|done].
  rewrite bind_run. unfold dict_delitem at 1. rewrite bind_get_self.
  destruct (deref vm1 ref !! "ids") as [ids|] eqn:Hids; [|done].
  unfold modify at 1. unfold dict_delitem. rewrite bind_get_self.
  set (vm2 := set_dicts _ vm1).
  destruct (deref vm2 ref !! "memory") as [memory|] eqn:Hmemory; [|done].
  unfold modify. intros [= <- _]. unfold deref in *. simpl in *.
  rewrite !list_lookup_alter_eq in *.
  destruct (dicts vm1 !! ref) as [d|]; simpl in *; [|done].
  rewrite lookup_delete_eq. rewrite lookup_delete_ne by done.
  by rewrite lookup_delete_eq.
Qed.

(** *** The traceback as text, and the locations *)

Lemma string_app_cons c (s1 s2 : string) : String c s1 +:+ s2 = String c (s1 +:+ s2).
Proof. reflexivity. Qed.

Lemma string_app_empty_l (s : string) : EmptyString +:+ s = s.
Proof. reflexivity. Qed.

Lemma string_app_assoc (s1 s2 s3 : string) : s1 +:+ (s2 +:+ s3) = (s1 +:+ s2) +:+ s3.
Proof. induction s1 as [|c s1 IH]; [done|]. rewrite !string_app_cons. by rewrite IH. Qed.

Lemma string_app_empty_r (s : string) : s +:+ EmptyString = s.
Proof. induction s as [|c s IH]; [done|]. rewrite string_app_cons. by rewrite IH. Qed.

Lemma string_app_length (s1 s2 : string) :
  String.length (s1 +:+ s2) = (String.length s1 + String.length s2)%nat.
Proof.
  induction s1 as [|c s1 IH]; [done|]. rewrite string_app_cons. simpl. by rewrite IH.
Qed.

Lemma traceback_lines_fold vm entries traceback :
  foldl (λ traceback traceback_pc, traceback +:+ traceback_line vm traceback_pc)
        traceback entries
    = traceback +:+ foldr (λ traceback_pc lines, traceback_line vm traceback_pc +:+ lines)
                          EmptyString entries.
Proof.
  revert traceback. induction entries as [|traceback_pc entries IH]; intros traceback; simpl.
  - by rewrite string_app_empty_r.
  - by rewrite IH, string_app_assoc.
Qed.

Lemma traceback_line_length vm traceback_pc :
  (0 < String.length (traceback_line vm traceback_pc))%nat.
Proof.
  unfold traceback_line.
  destruct (get_location traceback_pc vm); rewrite ?string_app_length; simpl; lia.
Qed.

(** X28: [get_traceback] returns [None] exactly when the walk finds no call.
    Otherwise the text is the header and then one line for each call, the most
    recent call last. *)
Theorem get_traceback_lines (vm : VirtualMachineBase) :
  get_traceback vm =
    match get_traceback_entries (run_context vm) with
    | [] => None
    | entries =>
        Some (traceback_header +:+
              foldr (λ traceback_pc lines, traceback_line vm traceback_pc +:+ lines)
                    EmptyString entries)
    end.
Proof.
  unfold get_traceback. rewrite traceback_lines_fold, string_app_empty_l.
  destruct (get_traceback_entries (run_context vm)) as [|traceback_pc entries]; [done|].
  rewrite decide_False; [done|].
  cbn [foldr]. rewrite string_app_length.
  pose proof (traceback_line_length vm traceback_pc). lia.
Qed.

Lemma foldl_insert_locations
    (locations : list (Z * InstructionLocation)) program_base
    (m : gmap MaybeRelocatable InstructionLocation) :
  NoDup locations.*1 →
  let m' := foldl (λ m item, <[add_int program_base item.1 := item.2]> m) m locations in
  (∀ offset location,
     (offset, location) ∈ locations → m' !! add_int program_base offset = Some location) ∧
  (∀ pc, (∀ offset, offset ∈ locations.*1 → pc ≠ add_int program_base offset) →
         m' !! pc = m !! pc).
Proof.
  revert m. induction locations as [|[offset0 location0] locations IH]; intros m Hnodup;
    simpl.
  { split; [by intros ? ? ?%elem_of_nil | done]. }
  apply NoDup_cons in Hnodup as [Hfresh Hnodup].
  destruct (IH (<[add_int program_base offset0 := location0]> m) Hnodup) as [Hin Hout].
  split.
  - intros offset location [[= -> ->]|Hel]%elem_of_cons; [|by apply Hin].
    rewrite Hout; [by rewrite lookup_insert_eq|].
    intros offset Hoffset Heq%add_int_inj. by subst.
  - intros pc Hpc. rewrite Hout.
    + rewrite lookup_insert_ne; [done|]. intros Heq. eapply Hpc; [|done]. by left.
    + intros offset Hoffset. apply Hpc. by right.
Qed.

(** X29: After [load_debug_info] with debug information, [get_location]
    returns, at the program base plus an offset, the location that the debug
    information has for the offset; at every other pc it returns what it
    returned before. The file contents of the debug information replace those
    of the same name. Without debug information nothing changes. *)
Theorem load_debug_info_get_location
    (debug_info : DebugInfo.t) (program_base : MaybeRelocatable)
    (vm : VirtualMachineBase) :
  NoDup (DebugInfo.instruction_locations debug_info).*1 →
  let vm' := (load_debug_info (Some debug_info) program_base vm).1.2 in
  (∀ offset location,
     (offset, location) ∈ DebugInfo.instruction_locations debug_info →
     get_location (add_int program_base offset) vm' = Some location) ∧
  (∀ pc,
     (∀ offset, offset ∈ (DebugInfo.instruction_locations debug_info).*1 →
                pc ≠ add_int program_base offset) →
     get_location pc vm' = get_location pc vm) ∧
  (∀ name,
     debug_file_contents vm' !! name
       = match DebugInfo.file_contents debug_info !! name with
         | Some content => Some content
         | None => debug_file_contents vm !! name
         end) ∧
  (load_debug_info None program_base vm).1.2 = vm.
Proof.
  intros Hnodup. unfold load_debug_info. rewrite bind_modify. simpl.
  destruct (foldl_insert_locations _ program_base (instruction_debug_info vm) Hnodup)
    as [Hin Hout].
  split_and!; [done|done| |done].
  intros name. rewrite lookup_union.
  by destruct (DebugInfo.file_contents debug_info !! name),
              (debug_file_contents vm !! name).
Qed.

(** *** The limits of the range check, on a trace that cannot be decoded *)

(** X30: [get_perm_range_check_limits] raises at the first entry of the trace
    whose pc holds no instruction that decodes: [UnknownMemoryError] with the
    pc when the memory has no cell there, and the exception of the decoder
    otherwise. *)
Theorem get_perm_range_check_limits_undecodable
    (pre post : list (TraceEntry.t Z)) (entry : TraceEntry.t Z) (memory : MemoryDict.t) :
  Forall (decodable memory) pre →
  ¬ decodable memory entry →
  ∃ e,
    get_perm_range_check_limits (pre ++ entry :: post) memory = Raise e ∧
    match MemoryDict.get memory (Int (TraceEntry.pc entry)) with
    | None => e = UnknownMemoryError (Int (TraceEntry.pc entry))
    | Some encoded_instruction => decode_instruction_values encoded_instruction = Raise e
    end.
Proof.
  intros Hpre Hentry. unfold get_perm_range_check_limits.
  assert (∀ offsets, ∃ e,
            collect_offsets (pre ++ entry :: post) memory offsets = Raise e ∧
            match MemoryDict.get memory (Int (TraceEntry.pc entry)) with
            | None => e = UnknownMemoryError (Int (TraceEntry.pc entry))
            | Some encoded_instruction =>
                decode_instruction_values encoded_instruction = Raise e
            end) as Hcollect.
  { induction Hpre as [|entry0 pre (enc & fl & o0 & o1 & o2 & Hget & Hdec) _ IH];
      intros offsets; simpl.
    - unfold MemoryDict.getitem.
      destruct (MemoryDict.get memory (Int (TraceEntry.pc entry))) as [encoded|] eqn:Hget;
        simpl; [|by eexists].
      destruct (decode_instruction_values encoded) as [[[[fl o0] o1] o2]|e] eqn:Hdec;
        simpl; [|by eexists].
      destruct Hentry. by exists encoded, fl, o0, o1, o2.
    - unfold MemoryDict.getitem. rewrite Hget. simpl. rewrite Hdec. simpl. apply IH. }
  destruct (Hcollect []) as (e & -> & He). by exists e.
Qed.

End VirtualMachine.

(** ** The storage layer *)

(** C9, as the code has it: on every storage of the sources, [DictStorage]
    or [CachedStorage], [setnx_value] raises [NotImplementedError] naming the
    class, whatever the key and the value, and leaves the storage (and so
    what [get_value] reads from it) as it was: nothing is inserted and no
    boolean is returned. *)
Theorem setnx_value_not_implemented
    (self : storage.Storage) (key value : bytes) (g : storage.Metrics) :
  storage.setnx_value self key value g
    = (Raise (NotImplementedError
                (storage.class_name self +:+ " does not implement setnx_value")),
       self, g) ∧
  (storage.class_name self = "DictStorage" ∨ storage.class_name self = "CachedStorage").
Proof. split; [done|]. destruct self; auto. Qed.

(** On an empty [DictStorage], [setnx_value] does not insert the absent key
    and returns no boolean. *)
Lemma setnx_value_empty_dict_storage :
  ¬ storage.setnx_inserts_if_absent
      (storage.DictStorage ∅) "key" "value" (storage.mkMetrics 0 0).
Proof. by intros (inserted & self' & g' & Hrun & _). Qed.

(** *** Caches *)

Lemma LRUCache_lookup_None (c : LRUCache.t) (key : bytes) :
  LRUCache.lookup c key = None ↔ Forall (λ kv, kv.1 ≠ key) (LRUCache.items c).
Proof.
  unfold LRUCache.lookup.
  destruct (list_find _ _) as [[i kv]|] eqn:Hfind; simpl.
  - split; [done|]. intros Hall.
    apply list_find_Some in Hfind as (Hi & Hkey & _).
    rewrite Forall_forall in Hall. by destruct (Hall kv (list_elem_of_lookup_2 _ _ _ Hi)).
  - split; [|done]. intros _. by apply list_find_None in Hfind.
Qed.

Lemma LRUCache_lookup_Some (c : LRUCache.t) (key v : bytes) :
  LRUCache.lookup c key = Some v → (key, v) ∈ LRUCache.items c.
Proof.
  unfold LRUCache.lookup.
  destruct (list_find _ _) as [[i [k v']]|] eqn:Hfind; simpl; [|done].
  intros [= <-]. apply list_find_Some in Hfind as (Hi & Hkey & _).
  simpl in Hkey. subst k. by eapply list_elem_of_lookup_2.
Qed.

Lemma LRUCache_contains_true (c : LRUCache.t) (key : bytes) :
  LRUCache.contains c key = true ↔ ∃ v, LRUCache.lookup c key = Some v.
Proof. unfold LRUCache.contains. by rewrite bool_decide_eq_true. Qed.

Lemma LRUCache_contains_false (c : LRUCache.t) (key : bytes) :
  LRUCache.contains c key = false ↔ LRUCache.lookup c key = None.
Proof.
  unfold LRUCache.contains. rewrite bool_decide_eq_false.
  by rewrite <-eq_None_not_Some.
Qed.

Lemma LRUCache_remove_keys (key : bytes) (l : list (bytes * bytes)) :
  Forall (λ kv, kv.1 ≠ key) (LRUCache.remove key l).
Proof.
  unfold LRUCache.remove. apply Forall_forall. intros kv Hin.
  by apply list_elem_of_filter in Hin as [? _].
Qed.

Lemma LRUCache_remove_length (key v : bytes) (l : list (bytes * bytes)) :
  (key, v) ∈ l → (S (length (LRUCache.remove key l)) ≤ length l)%nat.
Proof.
  intros Hin. unfold LRUCache.remove.
  apply (length_filter_lt (λ kv : bytes * bytes, kv.1 ≠ key)) in Hin; [lia|].
  simpl. tauto.
Qed.

Lemma LRUCache_lookup_last (m : Z) (l : list (bytes * bytes)) (key v : bytes) :
  Forall (λ kv, kv.1 ≠ key) l →
  LRUCache.lookup (LRUCache.mk m (l ++ [(key, v)])) key = Some v.
Proof.
  intros Hall. unfold LRUCache.lookup. simpl.
  induction l as [|kv l IH]; simpl.
  - by rewrite decide_True.
  - inversion Hall as [|? ? Hkv Hl]; subst. rewrite decide_False by done.
    specialize (IH Hl). destruct (list_find _ (l ++ _)) as [[i kv']|]; simpl in *; done.
Qed.

(** What [cache[key] = value] keeps of a cache without the key. *)
Lemma LRUCache_setitem_kept (c : LRUCache.t) (key value : bytes) :
  let kept :=
    if LRUCache.contains c key then LRUCache.remove key (LRUCache.items c)
    else drop (Z.to_nat (Z.of_nat (length (LRUCache.items c)) + 1 - LRUCache.maxsize c))
           (LRUCache.items c) in
  Forall (λ kv, kv.1 ≠ key) kept ∧ kept ⊆ LRUCache.items c ∧
  (Z.of_nat (length (LRUCache.items c)) ≤ LRUCache.maxsize c →
   1 ≤ LRUCache.maxsize c →
   Z.of_nat (length kept) + 1 ≤ LRUCache.maxsize c).
Proof.
  simpl. destruct (LRUCache.contains c key) eqn:Hc.
  - apply LRUCache_contains_true in Hc as [v Hv].
    apply LRUCache_lookup_Some in Hv.
    split_and!; [apply LRUCache_remove_keys| |].
    + intros kv Hin. unfold LRUCache.remove in Hin.
      by apply list_elem_of_filter in Hin as [_ ?].
    + intros. pose proof (LRUCache_remove_length key v _ Hv). lia.
  - apply LRUCache_contains_false, LRUCache_lookup_None in Hc.
    split_and!.
    + eapply Forall_drop, Hc.
    + apply subseteq_drop.
    + intros. rewrite length_drop. lia.
Qed.

Lemma well_formed_init (inner : storage.Storage) (max_size : Z) (metric_active : bool) :
  storage.well_formed inner → 1 ≤ max_size →
  storage.well_formed (storage.CachedStorage_init inner max_size metric_active).
Proof. intros Hwf Hmax. simpl. split_and!; auto; simpl; lia. Qed.

Lemma get_value_contents
    (self : storage.Storage) (key : bytes) (g : storage.Metrics) :
  storage.well_formed self →
  ∃ self' g',
    storage.get_value self key g = (Ok (storage.contents self !! key), self', g') ∧
    storage.contents self' = storage.contents self ∧
    storage.well_formed self'.
Proof.
  revert g. induction self as [db|inner IH cache active]; intros g Hwf.
  { by eexists _, _. }
  destruct Hwf as (Hin & Hmax & Hlen & Hall). simpl.
  set (g1 := if active then _ else g). clearbody g1.
  destruct (LRUCache.contains cache key) eqn:Hc.
  - apply LRUCache_contains_true in Hc as [v Hv].
    unfold LRUCache.getitem. rewrite Hv. simpl.
    pose proof (LRUCache_lookup_Some _ _ _ Hv) as Hel.
    pose proof Hall as Hall'. rewrite Forall_forall in Hall'.
    specialize (Hall' _ Hel). simpl in Hall'. rewrite Hall'.
    eexists _, _. split; [done|]. split; [done|]. simpl. split_and!; auto.
    + rewrite length_app. simpl.
      pose proof (LRUCache_remove_length _ _ _ Hel). lia.
    + apply Forall_app. split; [|by repeat constructor].
      unfold LRUCache.remove. apply Forall_forall. intros kv Hkv.
      apply list_elem_of_filter in Hkv as [_ Hkv].
      rewrite Forall_forall in Hall. by apply Hall.
  - destruct (IH g1 Hin) as (inner' & g2 & Hget & Hcont & Hwf'). rewrite Hget.
    destruct (storage.contents inner !! key) as [value|] eqn:Hk.
    + unfold LRUCache.setitem. rewrite decide_False by lia. rewrite Hc. simpl.
      destruct (LRUCache_setitem_kept cache key value) as (_ & Hsub & Hsize).
      rewrite Hc in Hsub, Hsize.
      eexists _, _. split; [done|]. split; [done|]. simpl. split_and!; auto.
      * rewrite length_app. simpl. specialize (Hsize Hlen Hmax). lia.
      * apply Forall_app. split; [|by rewrite Hcont; repeat constructor].
        rewrite Hcont. apply Forall_forall. intros kv Hkv.
        rewrite Forall_forall in Hall. by apply Hall, Hsub.
    + eexists _, _. split; [done|]. split; [done|]. simpl. by rewrite Hcont.
Qed.

(** X1: A well-formed cached storage is transparent for reads: [get_value]
    returns what the dictionary at the bottom holds under the key, [None] when
    it holds nothing, never raises, leaves that dictionary as it was and keeps
    every cache within its size and in agreement with it. *)
Theorem get_value_transparent
    (self : storage.Storage) (key : bytes) (g : storage.Metrics) :
  storage.well_formed self →
  ∃ self' g',
    storage.get_value self key g = (Ok (storage.contents self !! key), self', g') ∧
    storage.contents self' = storage.contents self ∧
    storage.well_formed self'.
Proof. apply get_value_contents. Qed.

Lemma set_value_contents
    (self : storage.Storage) (key value : bytes) (g : storage.Metrics) :
  storage.well_formed self →
  ∃ self',
    storage.set_value self key value g = (Ok (), self', g) ∧
    storage.contents self' = <[key := value]> (storage.contents self) ∧
    storage.well_formed self'.
Proof.
  induction self as [db|inner IH cache active]; intros Hwf.
  { by eexists. }
  destruct Hwf as (Hin & Hmax & Hlen & Hall). simpl.
  destruct (IH Hin) as (inner' & Hset & Hcont & Hwf').
  unfold LRUCache.setitem. rewrite decide_False by lia. rewrite Hset.
  destruct (LRUCache_setitem_kept cache key value) as (Hkeys & Hsub & Hsize).
  eexists. split; [done|]. split; [done|]. simpl. split_and!; auto.
  - rewrite length_app. simpl. specialize (Hsize Hlen Hmax). lia.
  - rewrite Hcont. apply Forall_app. split.
    + apply Forall_forall. intros kv Hkv.
      rewrite Forall_forall in Hkeys, Hall.
      rewrite lookup_insert_ne by (by apply not_eq_sym, Hkeys).
      by apply Hall, Hsub.
    + repeat constructor. simpl. by rewrite lookup_insert_eq.
Qed.

(** X2: A well-formed cached storage is transparent for writes: [set_value]
    never raises, leaves the metrics alone, and sets the key in the dictionary
    at the bottom and nothing else there; every cache stays within its size
    and in agreement with the dictionary. *)
Theorem set_value_transparent
    (self : storage.Storage) (key value : bytes) (g : storage.Metrics) :
  storage.well_formed self →
  ∃ self',
    storage.set_value self key value g = (Ok (), self', g) ∧
    storage.contents self' = <[key := value]> (storage.contents self) ∧
    storage.well_formed self'.
Proof. apply set_value_contents. Qed.

Lemma get_value_after_set_value
    (self self' : storage.Storage) (key value : bytes) (g g' g2 : storage.Metrics) :
  storage.set_value self key value g = (Ok (), self', g') →
  (storage.get_value self' key g2).1.1 = Ok (Some value).
Proof.
  revert self' g g' g2.
  induction self as [db|inner IH cache active]; intros self' g g' g2; simpl.
  { intros [= <- <-]. simpl. by rewrite lookup_insert_eq. }
  unfold LRUCache.setitem. destruct (decide (LRUCache.maxsize cache < 1)); [done|].
  destruct (storage.set_value inner key value g) as [[r inner'] g''] eqn:Hset.
  intros [= -> <- <-]. simpl.
  destruct (LRUCache_setitem_kept cache key value) as (Hkeys & _).
  pose proof (LRUCache_lookup_last (LRUCache.maxsize cache) _ key value Hkeys) as Hlast.
  assert (LRUCache.contains
            {| LRUCache.maxsize := LRUCache.maxsize cache;
               LRUCache.items :=
                 (if LRUCache.contains cache key
                  then LRUCache.remove key (LRUCache.items cache)
                  else drop (Z.to_nat (Z.of_nat (length (LRUCache.items cache)) + 1
                                         - LRUCache.maxsize cache))
                         (LRUCache.items cache)) ++ [(key, value)] |} key = true) as ->.
  { apply LRUCache_contains_true. eauto. }
  unfold LRUCache.getitem. by rewrite Hlast.
Qed.

(** X3: Read your writes: whenever [set_value] returns, on any storage of the
    sources, a [get_value] of the same key on the storage it leaves returns
    the value written. *)
Theorem set_value_get_value
    (self self' : storage.Storage) (key value : bytes) (g g' g2 : storage.Metrics) :
  storage.set_value self key value g = (Ok (), self', g') →
  (storage.get_value self' key g2).1.1 = Ok (Some value).
Proof. apply get_value_after_set_value. Qed.

(** X4: The cache is written before the storage it wraps: when the wrapped
    storage refuses the write, [CachedStorage.set_value] raises the same
    exception, yet the entry is in the cache already, and a [get_value] of the
    key returns the value that was not stored. *)
Theorem set_value_cache_first
    (inner inner' : storage.Storage) (cache : LRUCache.t) (metric_active : bool)
    (key value : bytes) (g g' g2 : storage.Metrics) (e : PyException) :
  1 ≤ LRUCache.maxsize cache →
  storage.set_value inner key value g = (Raise e, inner', g') →
  ∃ self',
    storage.set_value (storage.CachedStorage inner cache metric_active) key value g
      = (Raise e, self', g') ∧
    storage.contents self' = storage.contents inner' ∧
    (storage.get_value self' key g2).1.1 = Ok (Some value).
Proof.
  intros Hmax Hset. simpl. unfold LRUCache.setitem.
  rewrite decide_False by lia. rewrite Hset.
  eexists. split; [done|]. split; [done|]. simpl.
  destruct (LRUCache_setitem_kept cache key value) as (Hkeys & _).
  pose proof (LRUCache_lookup_last (LRUCache.maxsize cache) _ key value Hkeys) as Hlast.
  assert (LRUCache.contains
            {| LRUCache.maxsize := LRUCache.maxsize cache;
               LRUCache.items :=
                 (if LRUCache.contains cache key
                  then LRUCache.remove key (LRUCache.items cache)
                  else drop (Z.to_nat (Z.of_nat (length (LRUCache.items cache)) + 1
                                         - LRUCache.maxsize cache))
                         (LRUCache.items cache)) ++ [(key, value)] |} key = true) as ->.
  { apply LRUCache_contains_true. eauto. }
  unfold LRUCache.getitem. by rewrite Hlast.
Qed.

(** X5: A cache made with [max_size] below 1 cannot hold an item: [set_value]
    raises [ValueError] before the wrapped storage is written, [get_value]
    raises it for every key that the wrapped storage holds, and only a missing
    key is answered, with [None]. *)
Theorem cached_storage_without_capacity
    (inner : storage.Storage) (max_size : Z) (metric_active : bool)
    (key : bytes) (g : storage.Metrics) :
  max_size < 1 →
  storage.well_formed inner →
  let self := storage.CachedStorage_init inner max_size metric_active in
  (∀ value, storage.set_value self key value g
            = (Raise (ValueError "value too large"), self, g)) ∧
  (storage.get_value self key g).1.1
    = match storage.contents inner !! key with
      | Some _ => Raise (ValueError "value too large")
      | None => Ok None
      end ∧
  storage.contents (storage.get_value self key g).1.2 = storage.contents inner.
Proof.
  intros Hmax Hwf self. split.
  { intros value. simpl. unfold LRUCache.setitem. simpl. by rewrite decide_True by done. }
  simpl. set (g1 := if metric_active then _ else g). clearbody g1.
  destruct (get_value_contents inner key g1 Hwf) as (inner' & g2 & -> & Hcont & _).
  destruct (storage.contents inner !! key); simpl; [|done].
  unfold LRUCache.setitem. simpl. by rewrite decide_True by done.
Qed.

(** X6: The counters of the cache: a [get_value] never decreases them and adds
    to the hits at most what it adds to the lookups, so the hits never exceed
    the lookups; a [set_value] leaves them alone. *)
Theorem get_value_metrics
    (self : storage.Storage) (key value : bytes) (g : storage.Metrics) :
  let g' := (storage.get_value self key g).2 in
  (storage.CACHED_STORAGE_GET_TOTAL g ≤ storage.CACHED_STORAGE_GET_TOTAL g')%nat ∧
  (storage.CACHED_STORAGE_GET_CACHE g ≤ storage.CACHED_STORAGE_GET_CACHE g')%nat ∧
  (storage.CACHED_STORAGE_GET_CACHE g' - storage.CACHED_STORAGE_GET_CACHE g
   ≤ storage.CACHED_STORAGE_GET_TOTAL g' - storage.CACHED_STORAGE_GET_TOTAL g)%nat ∧
  (storage.set_value self key value g).2 = g.
Proof.
  revert g. induction self as [db|inner IH cache active]; intros g; simpl.
  { split_and!; auto; lia. }
  split_and!.
  4:{ destruct (LRUCache.setitem cache key value) as [[[]|e] cache']; [|done].
      destruct (IH g) as (_ & _ & _ & Hset).
      by destruct (storage.set_value inner key value g) as [[r inner'] g'']. }
  all: destruct (LRUCache.contains cache key).
  all: try (destruct (LRUCache.getitem cache key) as [r cache']; destruct active; simpl; lia).
  all: set (g1 := if active then _ else g);
    destruct (IH g1) as (Htotal & Hcache & Hdiff & _);
    assert (storage.CACHED_STORAGE_GET_TOTAL g ≤ storage.CACHED_STORAGE_GET_TOTAL g1
            ∧ storage.CACHED_STORAGE_GET_CACHE g1 = storage.CACHED_STORAGE_GET_CACHE g)%nat
      as [Hg1 Hg1'] by (subst g1; destruct active; simpl; lia);
    destruct (storage.get_value inner key g1) as [[[[v|]|e] inner'] g2];
    try destruct (LRUCache.setitem cache key v) as [r cache'];
    simpl in *; lia.
Qed.

(** *** Numbers and text *)

Lemma pretty_N_char_digit (d : N) :
  (d < 10)%N →
  storage.is_digit (pretty_N_char d) = true ∧
  storage.digit_value (pretty_N_char d) = d ∧
  storage.is_space (pretty_N_char d) = false.
Proof.
  intros Hd. destruct d as [|p]; [done|].
  do 4 (destruct p as [p|p|]; try done; try lia).
Qed.

Lemma is_digit_not_sign (c : Ascii.ascii) :
  storage.is_digit c = true →
  storage.is_space c = false ∧
  (Ascii.N_of_ascii c =? 45)%N = false ∧ (Ascii.N_of_ascii c =? 43)%N = false ∧
  (Ascii.N_of_ascii c =? 95)%N = false.
Proof.
  unfold storage.is_digit, storage.is_space. simpl. intros H.
  apply andb_true_iff in H as [H1 H2].
  apply N.leb_le in H1, H2.
  split_and!.
  - apply orb_false_iff. split; [apply N.eqb_neq; lia|].
    apply andb_false_iff. right. apply N.leb_gt. lia.
  - apply N.eqb_neq; lia.
  - apply N.eqb_neq; lia.
  - apply N.eqb_neq; lia.
Qed.

(** The numeral of [x] put before [s]: a run of digits whose value is [x]. *)
Lemma pretty_N_go_digits (x : N) (s : string) :
  ∃ ds : list Ascii.ascii,
    String.list_ascii_of_string (pretty_N_go x s) = ds ++ String.list_ascii_of_string s ∧
    Forall (λ c, storage.is_digit c = true) ds ∧
    foldl (λ acc c, acc * 10 + storage.digit_value c)%N 0%N ds = x ∧
    ((0 < x)%N → ds ≠ []).
Proof.
  revert s. induction (N.lt_wf_0 x) as [x _ IH]. intros s.
  destruct (decide (x = 0)%N) as [->|Hx].
  { exists []. rewrite pretty_N_go_0. split_and!; auto; lia. }
  rewrite pretty_N_go_step by lia.
  destruct (IH (x `div` 10)%N) with (s := String (pretty_N_char (x `mod` 10)) s)
    as (ds & Heq & Hdigits & Hval & _).
  { apply N.div_lt; lia. }
  destruct (pretty_N_char_digit (x `mod` 10)%N) as (Hd & Hv & _).
  { apply N.mod_lt. lia. }
  exists (ds ++ [pretty_N_char (x `mod` 10)]). split_and!.
  - rewrite Heq. simpl. by rewrite <-app_assoc.
  - apply Forall_app. split; [done|]. by repeat constructor.
  - rewrite foldl_app. simpl. rewrite Hval, Hv.
    rewrite (N.div_mod x 10) at 3 by lia. lia.
  - intros _. by destruct ds.
Qed.

Lemma parse_digits_digits (ds : list Ascii.ascii) (acc : N) (after_digit : bool) :
  Forall (λ c, storage.is_digit c = true) ds → ds ≠ [] →
  storage.parse_digits ds acc after_digit
    = Some (foldl (λ acc c, acc * 10 + storage.digit_value c)%N acc ds).
Proof.
  revert acc after_digit. induction ds as [|c ds IH]; intros acc b Hall Hne; [done|].
  inversion Hall as [|? ? Hc Hds]; subst. simpl. rewrite Hc.
  destruct ds as [|c' ds']; [done|]. by apply IH.
Qed.

Lemma lstrip_not_space (c : Ascii.ascii) (l : list Ascii.ascii) :
  storage.is_space c = false → storage.lstrip (c :: l) = c :: l.
Proof. intros H. simpl. by rewrite H. Qed.

Lemma strip_digits (l ds : list Ascii.ascii) (c : Ascii.ascii) :
  storage.is_space c = false →
  Forall (λ c, storage.is_digit c = true) ds → ds ≠ [] →
  storage.strip (c :: l ++ ds) = c :: l ++ ds.
Proof.
  intros Hc Hds Hne. unfold storage.strip. rewrite lstrip_not_space by done.
  destruct (exists_last Hne) as (ds' & d & ->).
  apply Forall_app in Hds as [_ Hd]. inversion Hd as [|? ? Hd' _]; subst.
  apply is_digit_not_sign in Hd' as (Hd' & _).
  rewrite app_comm_cons, app_assoc, reverse_snoc.
  rewrite lstrip_not_space by done.
  by rewrite <-reverse_snoc, reverse_involutive.
Qed.

Lemma strip_numeral (ds : list Ascii.ascii) :
  Forall (λ c, storage.is_digit c = true) ds → ds ≠ [] → storage.strip ds = ds.
Proof.
  intros Hds Hne. destruct ds as [|c ds]; [done|].
  inversion Hds as [|? ? Hc Hds']; subst.
  apply is_digit_not_sign in Hc as (Hc & _).
  destruct ds as [|c' ds'].
  - unfold storage.strip. rewrite lstrip_not_space by done.
    change (reverse [c]) with [c]. by rewrite lstrip_not_space.
  - apply (strip_digits [] (c' :: ds') c); done.
Qed.

Lemma py_int_pretty_pos (p : positive) :
  storage.py_int (pretty (N.pos p)) = Ok (Z.pos p) ∧
  storage.py_int ("-" +:+ pretty (N.pos p)) = Ok (Z.neg p).
Proof.
  unfold pretty, pretty_N. rewrite decide_False by done.
  destruct (pretty_N_go_digits (N.pos p) "") as (ds & Heq & Hds & Hval & Hne).
  simpl in Heq. rewrite app_nil_r in Heq. specialize (Hne eq_refl).
  split.
  - unfold storage.py_int. rewrite Heq, strip_numeral by done.
    destruct ds as [|c ds]; [done|].
    inversion Hds as [|? ? Hc _]; subst.
    apply is_digit_not_sign in Hc as (_ & -> & -> & _).
    rewrite parse_digits_digits by done. by rewrite Hval.
  - unfold storage.py_int.
    change (String.list_ascii_of_string ("-" +:+ pretty_N_go (N.pos p) ""))
      with (Ascii.ascii_of_N 45 :: [] ++ String.list_ascii_of_string (pretty_N_go (N.pos p) "")).
    rewrite Heq.
    rewrite (strip_digits [] ds) by done. simpl.
    rewrite parse_digits_digits by done. by rewrite Hval.
Qed.

(** [int(str(value).encode("ascii"))] is [value]. *)
Lemma py_int_pretty (value : Z) : storage.py_int (pretty value) = Ok value.
Proof.
  destruct value as [|p|p]; [done|..].
  - apply (py_int_pretty_pos p).
  - apply (py_int_pretty_pos p).
Qed.

(** X7: What [set_int] has written, [get_int] reads back, whatever the
    default: for an integer the decimal numeral that is stored parses to the
    integer; for a boolean, which [set_int] accepts as well, its name is
    stored and [get_int] raises the [ValueError] of [int()]. *)
Theorem set_int_get_int
    (self self' : storage.Storage) (key : bytes) (value : storage.py_int_instance)
    (default : option Z) (g g' g2 : storage.Metrics) :
  storage.set_int self key value g = (Ok (), self', g') →
  (storage.get_int self' key default g2).1.1
    = match value with
      | storage.PyInt value => Ok (Some value)
      | storage.PyBool _ => Raise (ValueError "invalid literal for int() with base 10")
      end.
Proof.
  unfold storage.set_int, storage.get_int. intros Hset.
  pose proof (get_value_after_set_value _ _ _ _ _ _ g2 Hset) as Hget.
  destruct (storage.get_value self' key g2) as [[r self''] g3].
  simpl in Hget. subst r. simpl.
  destruct value as [value|[|]]; [|done..]. simpl. by rewrite py_int_pretty.
Qed.

(** X8: On a well-formed storage, [get_int] and [get_str] return the default
    for a key that the storage does not hold, and [get_int] raises
    [ValueError] when the bytes under the key are not a numeral. *)
Theorem get_int_default
    (self : storage.Storage) (key : bytes) (default : option Z)
    (default_str : option storage.py_str) (g : storage.Metrics) :
  storage.well_formed self →
  (storage.get_int self key default g).1.1
    = match storage.contents self !! key with
      | None => Ok default
      | Some data => Some <$> storage.py_int data
      end ∧
  (storage.get_str self key default_str g).1.1
    = match storage.contents self !! key with
      | None => Ok default_str
      | Some data => Some <$> storage.decode_ascii data
      end.
Proof.
  intros Hwf. unfold storage.get_int, storage.get_str.
  destruct (get_value_contents self key g Hwf) as (self' & g' & -> & _).
  by destruct (storage.contents self !! key).
Qed.

Lemma decode_encode_ascii (value : storage.py_str) (data : bytes) :
  storage.encode_ascii value = Ok data → storage.decode_ascii data = Ok value.
Proof.
  unfold storage.encode_ascii, storage.decode_ascii.
  destruct (forallb _ value) eqn:Hall; [|done]. intros [= <-].
  rewrite String.list_ascii_of_string_of_list_ascii.
  assert (Ascii.N_of_ascii <$> (Ascii.ascii_of_N <$> value) = value) as ->; [|by rewrite Hall].
  induction value as [|c value IH]; [done|].
  simpl in Hall. apply andb_true_iff in Hall as [Hc Hall]. apply N.ltb_lt in Hc.
  rewrite !fmap_cons. f_equal; [|by apply IH].
  apply Ascii.N_ascii_embedding. lia.
Qed.

(** X9: A string written with [set_str] is read back by [get_str]. *)
Theorem set_str_get_str
    (self self' : storage.Storage) (key : bytes) (value : storage.py_str)
    (default : option storage.py_str) (g g' g2 : storage.Metrics) :
  storage.set_str self key value g = (Ok (), self', g') →
  (storage.get_str self' key default g2).1.1 = Ok (Some value).
Proof.
  unfold storage.set_str, storage.get_str.
  destruct (storage.encode_ascii value) as [data|e] eqn:Hencode; [|done].
  intros Hset.
  pose proof (get_value_after_set_value _ _ _ _ _ _ g2 Hset) as Hget.
  destruct (storage.get_value self' key g2) as [[r self''] g3].
  simpl in Hget. subst r. simpl. by rewrite (decode_encode_ascii _ _ Hencode).
Qed.

(** X10: A string with a character outside ASCII is refused before the storage
    is reached: [set_str] and [setnx_str] raise the [ValueError] of the
    encoding, [setnx_str] that one and not [NotImplementedError], and the
    storage is left as it was. *)
Theorem set_str_not_ascii
    (self : storage.Storage) (key : bytes) (value : storage.py_str) (g : storage.Metrics) :
  Exists (λ c, 128 ≤ c)%N value →
  ∃ message,
    storage.set_str self key value g = (Raise (ValueError message), self, g) ∧
    storage.setnx_str self key value g = (Raise (ValueError message), self, g).
Proof.
  intros Hex. unfold storage.set_str, storage.setnx_str, storage.encode_ascii.
  destruct (forallb _ value) eqn:Hall; [|by eexists].
  apply Exists_exists in Hex as (c & Hin & Hc).
  rewrite forallb_forall in Hall. apply list_elem_of_In, Hall, N.ltb_lt in Hin. lia.
Qed.

(** *** Database objects *)

Section DBObject_properties.

Context {T : Type} `{storage.DBObject T}.

Lemma db_key_inj (suffix1 suffix2 : bytes) :
  storage.db_key T suffix1 = storage.db_key T suffix2 → suffix1 = suffix2.
Proof.
  unfold storage.db_key. intros Heq.
  apply (inj (String.app _)) in Heq. by apply (inj (String.app _)) in Heq.
Qed.

Lemma key_inj (index1 index2 : Z) :
  storage.key T index1 = storage.key T index2 → index1 = index2.
Proof. unfold storage.key. intros Heq%db_key_inj. by apply (inj pretty) in Heq. Qed.

Lemma get_after_set
    (self : T) (store store' : storage.Storage) (suffix : bytes)
    (g g' g2 : storage.Metrics) :
  (∀ data, storage.serialize self = Ok data → storage.deserialize T data = Ok self) →
  storage.set self store suffix g = (Ok (), store', g') →
  (storage.get T store' suffix g2).1.1 = Ok (Some self) ∧
  (storage.get_or_fail T store' suffix g2).1.1 = Ok self.
Proof.
  intros Hlaw. unfold storage.set, storage.get, storage.get_or_fail.
  destruct (storage.serialize self) as [data|e] eqn:Hdata; [|done].
  intros Hset. pose proof (get_value_after_set_value _ _ _ _ _ _ g2 Hset) as Hget.
  destruct (storage.get_value store' _ g2) as [[r store''] g3].
  simpl in Hget. subst r. simpl. by rewrite (Hlaw _ eq_refl).
Qed.

(** X11: An object written with [set] is read back by [get] and by
    [get_or_fail] under the same suffix, for a class whose [deserialize]
    undoes its [serialize]. *)
Theorem set_get
    (self : T) (store store' : storage.Storage) (suffix : bytes)
    (g g' g2 : storage.Metrics) :
  (∀ data, storage.serialize self = Ok data → storage.deserialize T data = Ok self) →
  storage.set self store suffix g = (Ok (), store', g') →
  (storage.get T store' suffix g2).1.1 = Ok (Some self) ∧
  (storage.get_or_fail T store' suffix g2).1.1 = Ok self.
Proof. apply get_after_set. Qed.

(** X12: [get_or_fail] is [get] with the missing key turned into an
    [AssertionError] that quotes the key: it returns the object that [get]
    returns, raises what [get] raises, and leaves the same storage and
    metrics. *)
Theorem get_or_fail_get
    (store : storage.Storage) (suffix : bytes) (g : storage.Metrics) :
  (storage.get_or_fail T store suffix g).1.1
    = match (storage.get T store suffix g).1.1 with
      | Ok (Some object) => Ok object
      | Ok None =>
          Raise (AssertionError
                   ("Key " +:+ storage.py_repr_bytes (storage.db_key T suffix)
                      +:+ " does not appear in storage."))
      | Raise e => Raise e
      end ∧
  (storage.get_or_fail T store suffix g).1.2 = (storage.get T store suffix g).1.2 ∧
  (storage.get_or_fail T store suffix g).2 = (storage.get T store suffix g).2.
Proof.
  unfold storage.get_or_fail, storage.get.
  destruct (storage.get_value store _ g) as [[[[data|]|e] store'] g']; simpl; [|done..].
  by destruct (storage.deserialize T data).
Qed.

(** X13: Objects of one class with different integer indices do not meet: on a
    well-formed storage, whatever [set_obj] does under one index, [get_obj]
    returns under every other index what it returned before. *)
Theorem set_obj_get_obj_other
    (self : T) (store : storage.Storage) (index index' : Z) (g g2 : storage.Metrics) :
  storage.well_formed store →
  index' ≠ index →
  (storage.get_obj T (storage.set_obj self store index g).1.2 index' g2).1.1
    = (storage.get_obj T store index' g2).1.1.
Proof.
  intros Hwf Hne.
  unfold storage.set_obj, storage.get_obj, storage.set, storage.get.
  destruct (storage.serialize self) as [data|e]; [|done].
  destruct (set_value_contents store (storage.db_key T (pretty index)) data g Hwf)
    as (store1 & -> & Hcont & Hwf1). simpl.
  destruct (get_value_contents store1 (storage.db_key T (pretty index')) g2 Hwf1)
    as (? & ? & -> & _).
  destruct (get_value_contents store (storage.db_key T (pretty index')) g2 Hwf)
    as (? & ? & -> & _).
  rewrite Hcont, lookup_insert_ne;
    [by destruct (storage.contents store !! _)|].
  intros Heq. apply Hne. symmetry. by apply key_inj.
Qed.

End DBObject_properties.

Lemma colon_free_app_inj (prefix1 prefix2 rest1 rest2 : bytes) :
  storage.colon_free prefix1 → storage.colon_free prefix2 →
  prefix1 +:+ ":" +:+ rest1 = prefix2 +:+ ":" +:+ rest2 →
  prefix1 = prefix2.
Proof.
  unfold storage.colon_free. revert prefix2.
  induction prefix1 as [|c1 prefix1 IH]; intros [|c2 prefix2]; simpl;
    intros H1 H2 Heq; try done.
  - injection Heq as <- _. by inversion H2.
  - injection Heq as -> _. by inversion H1.
  - injection Heq as -> Heq. f_equal.
    inversion H1; inversion H2; subst. by apply IH.
Qed.

(** X14: Classes whose prefixes differ and hold no colon never share a key:
    whatever the suffixes, the keys of the two classes differ. *)
Theorem db_key_classes_apart
    (T1 T2 : Type) `{storage.DBObject T1} `{storage.DBObject T2} (suffix1 suffix2 : bytes) :
  storage.colon_free (storage.prefix T1) →
  storage.colon_free (storage.prefix T2) →
  storage.prefix T1 ≠ storage.prefix T2 →
  storage.db_key T1 suffix1 ≠ storage.db_key T2 suffix2.
Proof.
  intros H1 H2 Hne Heq. apply Hne.
  by apply (colon_free_app_inj _ _ suffix1 suffix2).
Qed.

(** X15: [set_fact] returns the hash of the fact and stores the fact under it:
    a [get] with the returned hash gives the fact back. *)
Theorem set_fact_get
    (T : Type) `{storage.Fact T} (self : T) (ffc ffc' : storage.FactFetchingContext)
    (hash_val : bytes) (g g' g2 : storage.Metrics) :
  (∀ data, storage.serialize self = Ok data → storage.deserialize T data = Ok self) →
  storage.set_fact self ffc g = (Ok hash_val, ffc', g') →
  hash_val = storage._hash self (storage.hash_func ffc) ∧
  (storage.get T (storage.ffc_storage ffc') hash_val g2).1.1 = Ok (Some self).
Proof.
  intros Hlaw. unfold storage.set_fact.
  destruct (storage.set self _ _ g) as [[[[]|e] store'] g''] eqn:Hset; [|done].
  intros [= <- <- <-]. split; [done|]. simpl.
  by apply (get_after_set self _ _ _ _ _ g2 Hlaw Hset).
Qed.

(** *** Integer mappings *)

Lemma bit_length_spec (v : Z) :
  let n := storage.IntToIntMapping.bit_length v in
  0 ≤ n ∧ Z.abs v < 2 ^ n ∧ (0 < n → 2 ^ (n - 1) ≤ Z.abs v).
Proof.
  unfold storage.IntToIntMapping.bit_length. simpl.
  destruct (decide (v = 0)) as [->|Hv]; [simpl; lia|].
  pose proof (Z.log2_nonneg (Z.abs v)).
  destruct (Z.log2_spec (Z.abs v)) as [Hlo Hhi]; [lia|].
  replace (Z.succ (Z.log2 (Z.abs v))) with (Z.log2 (Z.abs v) + 1) in Hhi by lia.
  split_and!; [lia|done|]. intros _.
  by replace (Z.log2 (Z.abs v) + 1 - 1) with (Z.log2 (Z.abs v)) by lia.
Qed.

(** X16: [IntToIntMapping.serialize] asks [to_bytes] for the least number of
    bytes that holds the value: the value is below [256 ^ length], and not
    below [256 ^ (length - 1)] unless it is zero, which is written on no byte
    at all. *)
Theorem serialize_length
    (to_bytes : Z → Z → result bytes) (from_bytes : bytes → Z) (prefix : bytes) (v : Z) :
  ∃ length : Z,
    @storage.serialize _ (storage.IntToIntMapping.db_object to_bytes from_bytes prefix)
      (storage.IntToIntMapping.mk v) = to_bytes v length ∧
    0 ≤ length ∧
    Z.abs v < 256 ^ length ∧
    (0 < length → 256 ^ (length - 1) ≤ Z.abs v) ∧
    (v = 0 ↔ length = 0).
Proof.
  eexists. split; [done|]. simpl.
  destruct (bit_length_spec v) as (Hn & Hhi & Hlo).
  set (n := storage.IntToIntMapping.bit_length v) in *.
  assert (Hdiv : 8 * ((n + 7) `div` 8) ≤ n + 7 < 8 * ((n + 7) `div` 8) + 8).
  { pose proof (Z.div_mod (n + 7) 8). pose proof (Z.mod_pos_bound (n + 7) 8). lia. }
  set (len := (n + 7) `div` 8) in *.
  assert (0 ≤ len) by lia.
  replace 256 with (2 ^ 8) by done.
  split_and!.
  - done.
  - rewrite <-Z.pow_mul_r by lia. eapply Z.lt_le_trans; [exact Hhi|].
    apply Z.pow_le_mono_r; lia.
  - intros Hlen. rewrite <-Z.pow_mul_r by lia.
    etrans; [|apply Hlo; lia]. apply Z.pow_le_mono_r; lia.
  - split.
    + intros ->. subst len n. done.
    + intros Hlen. assert (n = 0) as Hn0 by lia. rewrite Hn0 in Hhi. simpl in Hhi. lia.
Qed.

(** X17: [get_value_or_fail] on a well-formed storage: the integer decoded
    from the bytes under the key of the index, and an [AssertionError] naming
    the class and the index when the storage holds nothing there. *)
Theorem get_value_or_fail_outcome
    (to_bytes : Z → Z → result bytes) (from_bytes : bytes → Z) (prefix : bytes)
    (store : storage.Storage) (index : Z) (g : storage.Metrics) :
  storage.well_formed store →
  (storage.IntToIntMapping.get_value_or_fail to_bytes from_bytes prefix store index g).1.1
    = match storage.contents store !! (prefix +:+ ":" +:+ pretty index) with
      | Some data => Ok (from_bytes data)
      | None =>
          Raise (AssertionError
                   ("IntToIntMapping value of key " +:+ pretty index
                      +:+ " does not appear in storage."))
      end.
Proof.
  intros Hwf.
  unfold storage.IntToIntMapping.get_value_or_fail, storage.get_obj, storage.get.
  destruct (get_value_contents store
              (@storage.db_key _ (storage.IntToIntMapping.db_object to_bytes from_bytes prefix)
                 (pretty index)) g Hwf) as (store' & g' & -> & _).
  unfold storage.db_key. simpl.
  by destruct (storage.contents store !! _).
Qed.

(** ** The properties at the example inputs *)

Lemma get_perm_range_check_limits_min_max_witness :
  get_perm_range_check_limits example_decode_instruction_values
    example_trace example_program_memory = Ok (0, 5) ∧
  ∃ lo hi,
    get_perm_range_check_limits example_decode_instruction_values
      example_trace example_program_memory = Ok (lo, hi) ∧
    decoded_offset example_decode_instruction_values
      example_trace example_program_memory lo ∧
    decoded_offset example_decode_instruction_values
      example_trace example_program_memory hi ∧
    ∀ o, decoded_offset example_decode_instruction_values
           example_trace example_program_memory o → lo ≤ o ≤ hi.
Proof.
  split.
  - apply (proj2 (get_perm_range_check_limits_min_max example_decode_instruction_values))
      with (w1 := example_encode 1 2 3) (w2 := example_encode 0 5 2)
           (w3 := example_encode 4 4 4) (f1 := 0) (f2 := 0) (f3 := 0);
      reflexivity.
  - apply (proj1 (get_perm_range_check_limits_min_max example_decode_instruction_values)).
    + discriminate.
    + repeat constructor.
      * exists (example_encode 1 2 3), 0, 1, 2, 3. split; reflexivity.
      * exists (example_encode 0 5 2), 0, 0, 5, 2. split; reflexivity.
      * exists (example_encode 4 4 4), 0, 4, 4, 4. split; reflexivity.
Defined.

Lemma get_traceback_entries_walk_witness :
  two_word_call example_is_call_instruction
    (RunContextBase.memory example_run_context) (Reloc (mkRelocatable 0 20)) ∧
  get_traceback_entries example_is_call_instruction example_run_context
    = [Reloc (mkRelocatable 0 19)].
Proof.
  split.
  - exists (Int 200), (Int 100). repeat split; reflexivity.
  - apply (proj2 (get_traceback_entries_walk example_is_call_instruction
                    example_run_context) [Reloc (mkRelocatable 0 19)]).
    apply (walked_single _ _ _ _ (Reloc (mkRelocatable 1 4)) (Reloc (mkRelocatable 0 20)));
      [reflexivity | discriminate | reflexivity | | ].
    + exists (Int 100). split; reflexivity.
    + apply walked_outermost. reflexivity.
Defined.

Lemma deduce_memory_cell_first_rule_witness :
  ∃ res validated memory,
    ValidatedMemoryDict.setitem (validated_memory example_rules_machine)
      (vm_memory example_rules_machine) (Reloc example_cell) (Int 42)
      = (res, validated, memory) ∧
    deduce_memory_cell example_call_rule (Reloc example_cell) example_rules_machine =
      ((λ _, Some (Int 42)) <$> res, set_memory validated memory example_rules_machine,
       rule_calls ([("decline", [])] ++ [("constant", [PyValue (Int 42)])]) example_cell) ∧
    (res = Ok () → MemoryDict.get memory (Reloc example_cell) = Some (Int 42)).
Proof.
  apply (proj1 (proj2 (deduce_memory_cell_first_rule example_call_rule
                         example_rules_machine))
           example_cell [("decline", [])] "constant" [PyValue (Int 42)]
           [("constant", [PyValue (Int 43)])] (Int 42)).
  - vm_compute. reflexivity.
  - repeat constructor.
  - reflexivity.
Defined.

Lemma verify_auto_deductions_raises_iff_mismatch_witness :
  mismatch example_call_rule example_check_eq example_deduced_machine
           example_cell (Int 42) (Int 43).
Proof.
  apply (proj1 (proj2 (verify_auto_deductions_raises_iff_mismatch
                         example_call_rule example_check_eq example_deduced_machine))).
  vm_compute. reflexivity.
Defined.

Lemma end_run_unbalanced_scope_witness :
  ∃ vm' log,
    enter_scope None (example_machine None) = (Ok (), vm', log) ∧
    (end_run example_call_rule example_check_eq vm').1.1 ≠ Ok () ∧
    ((verify_auto_deductions example_call_rule example_check_eq vm').1.1 = Ok () →
     (end_run example_call_rule example_check_eq vm').1.1 = Raise unbalanced_scope).
Proof.
  apply (proj2 (proj2 (proj2 (end_run_unbalanced_scope
                                example_call_rule example_check_eq
                                (example_machine None))))).
  vm_compute. reflexivity.
Defined.

Lemma scope_stack_never_empty_witness :
  exec_scopes
    (run_calls unit example_compile example_call_rule example_check_eq
       example_decode_current_instruction example_run_instruction
       [CallExitScope; CallStep; CallEnterScope None; CallExitScope; CallExitScope;
        CallEndRun]
       (example_machine None)) ≠ [].
Proof.
  apply (proj1 (proj2 (proj2 (proj2 (proj2
           (scope_stack_never_empty unit example_compile example_call_rule
              example_check_eq example_decode_current_instruction
              example_run_instruction (λ instruction vm, eq_refl))))))).
  vm_compute. discriminate.
Defined.

Lemma step_skip_instruction_execution_witness :
  ∃ vm2 log,
    step unit example_compile example_decode_current_instruction
         example_run_instruction (example_machine None) = (Ok (), vm2, log) ∧
    hint_indices log = [0; 1]%nat ∧
    attribute_frame (example_machine None) vm2 log ∧
    memory_frame (example_machine None) vm2 log ∧
    trace vm2 = trace (example_machine None) ∧
    RunContextBase.pc (run_context vm2)
      = RunContextBase.pc (run_context (example_machine None)).
Proof.
  pose (pre := take 1 example_hints).
  pose (hint := default (mkCompiledHint HReturn (λ _ _ _ _, PyNone))
                        (example_hints !! 1%nat)).
  pose (post := drop 2 example_hints).
  pose (r1 := run_hints example_compile 0 pre
                (set_skip_instruction_execution false (example_machine None))).
  pose (r2 := run_hint example_compile (length pre) hint r1.1.2).
  destruct (step_skip_instruction_execution unit example_compile
              example_decode_current_instruction example_run_instruction
              (example_machine None) pre hint post r1.1.2 r2.1.2 r1.2 r2.2)
    as (Hstep & Hindices & _ & _ & Hattributes & Hmemory).
  - vm_compute. reflexivity.
  - vm_compute. reflexivity.
  - vm_compute. reflexivity.
  - vm_compute. reflexivity.
  - assert (∀ attribute, unassigned attribute (r1.2 ++ r2.2)) as Hunassigned.
    { intros attribute assignment Hin. vm_compute in Hin.
      repeat (apply elem_of_cons in Hin as [Hin|Hin]; [discriminate Hin|]).
      by apply elem_of_nil in Hin. }
    exists r2.1.2, (r1.2 ++ r2.2). split; [exact Hstep|].
    split; [exact Hindices|]. split; [exact Hattributes|]. split; [exact Hmemory|].
    destruct Hattributes as (Hpc & _ & _ & _ & Htrace).
    split; [apply Htrace, Hunassigned | apply Hpc, Hunassigned].
Defined.

(** A hint that sets the flag can also move the pc and add to the trace:
    the step is cut short, yet pc and trace are not those of the start. *)
Lemma skipped_step_as_stated_fails :
  ¬ skipped_step_as_stated unit example_compile example_decode_current_instruction
      example_run_instruction example_moving_machine.
Proof.
  intros Hstated.
  destruct (Hstated
              (step unit example_compile example_decode_current_instruction
                    example_run_instruction example_moving_machine).1.2
              (step unit example_compile example_decode_current_instruction
                    example_run_instruction example_moving_machine).2)
    as (_ & Hpc & _).
  - vm_compute. reflexivity.
  - vm_compute. reflexivity.
  - vm_compute in Hpc. discriminate Hpc.
Qed.

Lemma hint_bindings_before_exec_witness :
  constructed
    (run_calls unit example_compile example_call_rule example_check_eq
       example_decode_current_instruction example_run_instruction
       [CallStep; CallEnterScope None; CallStep] example_shadowing_machine) ∧
  ∃ code globals_,
    head (step unit example_compile example_decode_current_instruction
               example_run_instruction example_shadowing_machine).2
      = Some (ExecHint 0 code globals_) ∧
    (∃ vm_i log_i,
       run_hints example_compile 0
         (take 0 (default [] (hints example_shadowing_machine
                                !! RunContextBase.pc
                                     (run_context example_shadowing_machine))))
         (set_skip_instruction_execution false example_shadowing_machine)
         = (Ok false, vm_i, log_i) ∧
       static_locals vm_i = static_locals example_shadowing_machine ∧
       hint_bindings vm_i globals_ ∧
       globals_ !! "PRIME" = Some (PyValue (Int example_prime))) ∧
    globals_ !! "ap" = Some (PyValue (Int 0)) ∧
    globals_ !! "fp" = Some (PyValue (Reloc (mkRelocatable 1 0))).
Proof.
  assert (constructed example_shadowing_machine) as Hconstructed.
  { apply (proj1 (hint_bindings_before_exec unit example_compile example_call_rule
                    example_check_eq example_decode_current_instruction
                    example_run_instruction)
             (FullProgram example_program) example_initial_context ∅
             (Some {[ "ap" := PyValue (Int 0) ]}) ∅ (Reloc (mkRelocatable 0 0))).
    vm_compute. reflexivity. }
  split.
  - apply (proj1 (proj2 (hint_bindings_before_exec unit example_compile example_call_rule
                           example_check_eq example_decode_current_instruction
                           example_run_instruction))).
    + intros instruction vm. repeat split; reflexivity.
    + exact Hconstructed.
  - eexists _, _. split; [vm_compute; reflexivity|].
    split; [|split].
    + apply (proj2 (proj2 (hint_bindings_before_exec unit example_compile
                             example_call_rule example_check_eq
                             example_decode_current_instruction example_run_instruction))
               example_shadowing_machine Hconstructed 0%nat HReturn).
      vm_compute. left.
    + vm_compute. reflexivity.
    + vm_compute. reflexivity.
Defined.

(** With a static local named [ap], the hint does not see the register in
    [ap]: the bindings are not as the specification states them. *)
Lemma hint_bindings_as_stated_fails :
  ¬ (∀ hint_index code globals_,
       ExecHint hint_index code globals_
         ∈ (step unit example_compile example_decode_current_instruction
                 example_run_instruction example_shadowing_machine).2 →
       hint_bindings_as_stated example_shadowing_machine globals_).
Proof.
  intros Hstated.
  assert (∃ code globals_,
            head (step unit example_compile example_decode_current_instruction
                       example_run_instruction example_shadowing_machine).2
              = Some (ExecHint 0 code globals_) ∧
            globals_ !! "ap" = Some (PyValue (Int 0)))
    as (code & globals_ & Hhead & Hap)
    by (eexists _, _; split; vm_compute; reflexivity).
  apply head_Some_elem_of, Hstated in Hhead as (_ & _ & _ & Hregisters).
  specialize (Hregisters "ap" (PyValue (Reloc (mkRelocatable 1 0)))).
  rewrite Hap in Hregisters. discriminate Hregisters.
  vm_compute. right. left.
Qed.

(** The example machines are states that the methods produce. *)
Example example_machine_constructed :
  __init__ example_compile (FullProgram example_program) example_initial_context
           ∅ None ∅ (Reloc (mkRelocatable 0 0))
    = Ok (example_machine None) ∧
  __init__ example_compile (FullProgram example_program) example_initial_context
           ∅ (Some {[ "ap" := PyValue (Int 0) ]}) ∅ (Reloc (mkRelocatable 0 0))
    = Ok example_shadowing_machine.
Proof. split; vm_compute; reflexivity. Qed.

Example example_rules_machine_registered :
  (add_auto_deduction_rule 2 "decline" [];;
   add_auto_deduction_rule 2 "constant" [PyValue (Int 42)];;
   add_auto_deduction_rule 2 "constant" [PyValue (Int 43)]) (example_machine None)
    = (Ok (), example_rules_machine, []).
Proof. vm_compute. reflexivity. Qed.

Example example_deduced_machine_deduced :
  deduce_memory_cell example_call_rule (Reloc example_cell) example_rules_machine
    = (Ok (Some (Int 42)), example_deduced_machine,
       [CallRule "decline" example_cell [];
        CallRule "constant" example_cell [PyValue (Int 42)]]) ∧
  (verify_auto_deductions example_call_rule example_check_eq example_deduced_machine).1.1
    = Raise (InconsistentAutoDeductionError example_cell (Int 42) (Int 43)).
Proof. split; vm_compute; reflexivity. Qed.

(** ** Further properties at the example inputs *)

Lemma get_value_transparent_witness :
  ∃ self' g',
    storage.get_value storage.example_warm_storage "b" storage.example_metrics
      = (Ok (storage.contents storage.example_warm_storage !! "b"), self', g') ∧
    storage.contents self' = storage.contents storage.example_warm_storage ∧
    storage.well_formed self'.
Proof.
  apply (get_value_transparent storage.example_warm_storage "b" storage.example_metrics).
  simpl. split_and!; [done|lia|simpl; lia|]. by repeat constructor.
Defined.

Lemma set_value_transparent_witness :
  ∃ self',
    storage.set_value storage.example_cached_storage "a" "1" storage.example_metrics
      = (Ok (), self', storage.example_metrics) ∧
    storage.contents self'
      = <["a" := "1"]> (storage.contents storage.example_cached_storage) ∧
    storage.well_formed self'.
Proof.
  apply (set_value_transparent storage.example_cached_storage "a" "1"
           storage.example_metrics).
  simpl. split_and!; try done; try (simpl; lia); constructor.
Defined.

Lemma set_value_get_value_witness :
  (storage.get_value
     (storage.set_value storage.example_cached_storage "a" "1" storage.example_metrics).1.2
     "a" storage.example_metrics).1.1 = Ok (Some "1").
Proof.
  apply (set_value_get_value storage.example_cached_storage _ "a" "1"
           storage.example_metrics storage.example_metrics storage.example_metrics).
  vm_compute. reflexivity.
Defined.

Lemma set_value_cache_first_witness :
  ∃ self',
    storage.set_value
      (storage.CachedStorage storage.example_refusing_storage (LRUCache.new 2) false)
      "a" "1" storage.example_metrics
      = (Raise (ValueError "value too large"), self', storage.example_metrics) ∧
    storage.contents self' = storage.contents storage.example_refusing_storage ∧
    (storage.get_value self' "a" storage.example_metrics).1.1 = Ok (Some "1").
Proof.
  apply (set_value_cache_first storage.example_refusing_storage
           storage.example_refusing_storage (LRUCache.new 2) false "a" "1"
           storage.example_metrics storage.example_metrics storage.example_metrics
           (ValueError "value too large")).
  - simpl. lia.
  - reflexivity.
Defined.

Lemma cached_storage_without_capacity_witness :
  let self :=
    storage.CachedStorage_init (storage.DictStorage {[ "a" := "1" ]}) 0 true in
  (∀ value, storage.set_value self "a" value storage.example_metrics
            = (Raise (ValueError "value too large"), self, storage.example_metrics)) ∧
  (storage.get_value self "a" storage.example_metrics).1.1
    = match storage.contents (storage.DictStorage {[ "a" := "1" ]}) !! "a" with
      | Some _ => Raise (ValueError "value too large")
      | None => Ok None
      end ∧
  storage.contents (storage.get_value self "a" storage.example_metrics).1.2
    = storage.contents (storage.DictStorage {[ "a" := "1" ]}).
Proof.
  apply (cached_storage_without_capacity (storage.DictStorage {[ "a" := "1" ]}) 0 true
           "a" storage.example_metrics).
  - lia.
  - exact I.
Defined.

Lemma set_int_get_int_witness :
  (storage.get_int
     (storage.set_int storage.example_cached_storage "n" (storage.PyInt (-42))
        storage.example_metrics).1.2
     "n" None storage.example_metrics).1.1 = Ok (Some (-42)) ∧
  (storage.get_int
     (storage.set_int storage.example_cached_storage "n" (storage.PyBool true)
        storage.example_metrics).1.2
     "n" None storage.example_metrics).1.1
    = Raise (ValueError "invalid literal for int() with base 10").
Proof.
  split.
  - apply (set_int_get_int storage.example_cached_storage _ "n" (storage.PyInt (-42)) None
             storage.example_metrics storage.example_metrics storage.example_metrics).
    vm_compute. reflexivity.
  - apply (set_int_get_int storage.example_cached_storage _ "n" (storage.PyBool true) None
             storage.example_metrics storage.example_metrics storage.example_metrics).
    vm_compute. reflexivity.
Defined.

Lemma get_int_default_witness :
  (storage.get_int storage.example_warm_storage "c" (Some 7) storage.example_metrics).1.1
    = match storage.contents storage.example_warm_storage !! "c" with
      | None => Ok (Some 7)
      | Some data => Some <$> storage.py_int data
      end ∧
  (storage.get_str storage.example_warm_storage "c" None storage.example_metrics).1.1
    = match storage.contents storage.example_warm_storage !! "c" with
      | None => Ok None
      | Some data => Some <$> storage.decode_ascii data
      end.
Proof.
  apply (get_int_default storage.example_warm_storage "c" (Some 7) None
           storage.example_metrics).
  simpl. split_and!; [done|lia|simpl; lia|]. by repeat constructor.
Defined.

Lemma set_str_get_str_witness :
  (storage.get_str
     (storage.set_str storage.example_cached_storage "s" [104; 105]%N
        storage.example_metrics).1.2
     "s" None storage.example_metrics).1.1 = Ok (Some [104; 105]%N).
Proof.
  apply (set_str_get_str storage.example_cached_storage _ "s" [104; 105]%N None
           storage.example_metrics storage.example_metrics storage.example_metrics).
  vm_compute. reflexivity.
Defined.

Lemma set_str_not_ascii_witness :
  ∃ message,
    storage.set_str storage.example_cached_storage "s" [104; 233]%N storage.example_metrics
      = (Raise (ValueError message), storage.example_cached_storage,
         storage.example_metrics) ∧
    storage.setnx_str storage.example_cached_storage "s" [104; 233]%N
      storage.example_metrics
      = (Raise (ValueError message), storage.example_cached_storage,
         storage.example_metrics).
Proof.
  apply (set_str_not_ascii storage.example_cached_storage "s" [104; 233]%N
           storage.example_metrics).
  apply Exists_cons_tl, Exists_cons_hd. lia.
Defined.

Lemma set_get_witness :
  (@storage.get _ storage.example_mapping_class
     (@storage.set _ storage.example_mapping_class (storage.IntToIntMapping.mk 300)
        storage.example_cached_storage "k" storage.example_metrics).1.2
     "k" storage.example_metrics).1.1 = Ok (Some (storage.IntToIntMapping.mk 300)) ∧
  (@storage.get_or_fail _ storage.example_mapping_class
     (@storage.set _ storage.example_mapping_class (storage.IntToIntMapping.mk 300)
        storage.example_cached_storage "k" storage.example_metrics).1.2
     "k" storage.example_metrics).1.1 = Ok (storage.IntToIntMapping.mk 300).
Proof.
  apply (@set_get _ storage.example_mapping_class (storage.IntToIntMapping.mk 300)
           storage.example_cached_storage _ "k"
           storage.example_metrics storage.example_metrics storage.example_metrics).
  - intros data [= <-]. reflexivity.
  - vm_compute. reflexivity.
Defined.

Lemma set_obj_get_obj_other_witness :
  (@storage.get_obj _ storage.example_mapping_class
     (@storage.set_obj _ storage.example_mapping_class (storage.IntToIntMapping.mk 300)
        storage.example_warm_storage 1 storage.example_metrics).1.2
     2 storage.example_metrics).1.1
  = (@storage.get_obj _ storage.example_mapping_class storage.example_warm_storage
       2 storage.example_metrics).1.1.
Proof.
  apply (@set_obj_get_obj_other _ storage.example_mapping_class
           (storage.IntToIntMapping.mk 300) storage.example_warm_storage 1 2
           storage.example_metrics storage.example_metrics).
  - simpl. split_and!; [done|lia|simpl; lia|]. by repeat constructor.
  - lia.
Defined.

Lemma db_key_classes_apart_witness :
  @storage.db_key _ storage.example_mapping_class "1"
  ≠ @storage.db_key _ storage.example_leaf_class "1".
Proof.
  apply (@db_key_classes_apart _ _ storage.example_mapping_class
           storage.example_leaf_class "1" "1").
  - unfold storage.colon_free. simpl. by repeat constructor.
  - unfold storage.colon_free. simpl. by repeat constructor.
  - discriminate.
Defined.

Lemma set_fact_get_witness :
  "x|x" = @storage._hash _ _ storage.example_leaf_fact "x"
            (storage.hash_func storage.example_ffc) ∧
  (@storage.get _ storage.example_leaf_class
     (storage.ffc_storage
        (@storage.set_fact _ _ storage.example_leaf_fact "x" storage.example_ffc
           storage.example_metrics).1.2)
     "x|x" storage.example_metrics).1.1 = Ok (Some "x").
Proof.
  apply (@set_fact_get _ _ storage.example_leaf_fact "x" storage.example_ffc _ "x|x"
           storage.example_metrics storage.example_metrics storage.example_metrics).
  - intros data [= <-]. reflexivity.
  - vm_compute. reflexivity.
Defined.

Lemma get_value_or_fail_outcome_witness :
  (storage.IntToIntMapping.get_value_or_fail storage.example_to_bytes
     storage.example_from_bytes "int_to_int" storage.example_warm_storage 5
     storage.example_metrics).1.1
    = match storage.contents storage.example_warm_storage
            !! ("int_to_int" +:+ ":" +:+ pretty 5) with
      | Some data => Ok (storage.example_from_bytes data)
      | None =>
          Raise (AssertionError
                   ("IntToIntMapping value of key " +:+ pretty 5
                      +:+ " does not appear in storage."))
      end.
Proof.
  apply (get_value_or_fail_outcome storage.example_to_bytes storage.example_from_bytes
           "int_to_int" storage.example_warm_storage 5 storage.example_metrics).
  simpl. split_and!; [done|lia|simpl; lia|]. by repeat constructor.
Defined.

Lemma get_traceback_entries_calls_witness :
  ∃ ret_pc,
    (Reloc (mkRelocatable 0 19) = sub_int ret_pc 1 ∧
     single_word_call example_is_call_instruction
       (RunContextBase.memory example_run_context) ret_pc) ∨
    (Reloc (mkRelocatable 0 19) = sub_int ret_pc 2 ∧
     two_word_call example_is_call_instruction
       (RunContextBase.memory example_run_context) ret_pc).
Proof.
  apply (proj2 (get_traceback_entries_calls example_is_call_instruction
                  example_run_context)).
  vm_compute. left.
Defined.

Lemma enter_scope_new_scope_witness :
  let vm' := (enter_scope (Some {[ "x" := PyValue (Int 1) ]}) (example_machine None)).1.2 in
  ∃ ref,
    exec_scopes vm' = exec_scopes (example_machine None) ++ [ref] ∧
    (ref ∉ exec_scopes (example_machine None)) ∧
    deref vm' ref
      = builtin_runners (example_machine None)
          ∪ default ∅ (Some {[ "x" := PyValue (Int 1) ]}) ∧
    (∀ below, below ∈ exec_scopes (example_machine None) →
              deref vm' below = deref (example_machine None) below) ∧
    (exec_scopes (example_machine None) ≠ [] →
     (exit_scope vm').1.1 = Ok () ∧
     exec_scopes (exit_scope vm').1.2 = exec_scopes (example_machine None)).
Proof.
  apply (enter_scope_new_scope (Some {[ "x" := PyValue (Int 1) ]}) (example_machine None)).
  unfold scopes_allocated. simpl. repeat constructor.
Defined.


Lemma load_program_hint_ids_witness :
  let vm' := (load_program example_compile example_failing_program
                (Reloc (mkRelocatable 0 0)) example_new_object).1.2 in
  dense_hint_ids vm' ∧
  hint_pc_and_index example_new_object ⊆ hint_pc_and_index vm' ∧
  (∀ hint_id entry,
     hint_pc_and_index vm' !! hint_id = Some entry →
     hint_pc_and_index example_new_object !! hint_id = Some entry ∨
     ∃ pc program_hints index,
       (pc, program_hints) ∈ Program.hints example_failing_program ∧
       entry = (add_int (Reloc (mkRelocatable 0 0)) pc, index) ∧
       (index < length program_hints)%nat).
Proof.
  apply (load_program_hint_ids example_compile example_failing_program
           (Reloc (mkRelocatable 0 0)) example_new_object).
  intros hint_id. simpl. rewrite lookup_empty, map_size_empty. split.
  - intros [? ?]. discriminate.
  - lia.
Defined.

Lemma load_program_loads_hints_witness :
  ∃ vm',
    load_program example_compile example_program (Reloc (mkRelocatable 0 0))
      example_new_object = (Ok (), vm', []) ∧
    (∀ pc program_hints,
       (pc, program_hints) ∈ Program.hints example_program →
       ∃ loaded,
         hints vm' !! add_int (Reloc (mkRelocatable 0 0)) pc = Some loaded ∧
         Forall2 (compiled_from example_compile) program_hints loaded) ∧
    (∀ addr,
       (∀ pc, pc ∈ (Program.hints example_program).*1 →
              addr ≠ add_int (Reloc (mkRelocatable 0 0)) pc) →
       hints vm' !! addr = hints example_new_object !! addr).
Proof.
  apply (load_program_loads_hints example_compile example_program
           (Reloc (mkRelocatable 0 0)) example_new_object).
  - reflexivity.
  - simpl. apply NoDup_singleton.
  - simpl. repeat constructor; intros filename; eexists; reflexivity.
Defined.

Lemma load_program_compile_error_witness :
  ∃ vm',
    load_program example_compile example_failing_program (Reloc (mkRelocatable 0 0))
      example_new_object
      = (Raise (VmException (Reloc (mkRelocatable 0 0))
                  (HintException (SyntaxError "invalid syntax")) (Some 1%nat)),
         vm', []) ∧
    hints vm' !! add_int (Reloc (mkRelocatable 0 0)) 4
      = hints example_new_object !! add_int (Reloc (mkRelocatable 0 0)) 4.
Proof.
  apply (load_program_compile_error example_compile example_failing_program
           (Reloc (mkRelocatable 0 0)) example_new_object
           [(0, [Hint.mk "pass" [] 0])] [] 4
           [Hint.mk "pass" [] 1] [Hint.mk "pass" [] 3] (Hint.mk "x =" [] 2)
           (SyntaxError "invalid syntax")).
  - reflexivity.
  - reflexivity.
  - repeat constructor; intros filename; eexists; reflexivity.
  - repeat constructor; intros filename; eexists; reflexivity.
  - intros filename. reflexivity.
  - simpl. intros Hin. apply list_elem_of_singleton in Hin. discriminate Hin.
Defined.

Lemma init_returns_witness :
  ∃ vm,
    __init__ example_compile (FullProgram example_program) example_initial_context
             {[ "x" := PyValue (Int 1) ]} None ∅ (Reloc (mkRelocatable 0 0)) = Ok vm ∧
    prime vm = ProgramBase_prime (FullProgram example_program) ∧
    (exec_scopes vm ≫= λ ref, [deref vm ref]) = [∅ ∪ {[ "x" := PyValue (Int 1) ]}] ∧
    ∀ pc program_hints,
      (pc, program_hints) ∈ Program.hints example_program →
      ∃ loaded,
        hints vm !! add_int (Reloc (mkRelocatable 0 0)) pc = Some loaded ∧
        Forall2 (compiled_from example_compile) program_hints loaded.
Proof.
  apply (init_returns example_compile (FullProgram example_program)
           example_initial_context {[ "x" := PyValue (Int 1) ]} None ∅
           (Reloc (mkRelocatable 0 0))).
  split.
  - simpl. apply NoDup_singleton.
  - simpl. repeat constructor; intros filename; eexists; reflexivity.
Defined.

Lemma step_runs_instruction_witness :
  ∃ vm2 log,
    step unit example_compile example_decode_current_instruction
         example_run_instruction example_quiet_machine = (Ok (), vm2, log) ∧
    log = (run_hints example_compile 0
             (default [] (hints example_quiet_machine
                            !! RunContextBase.pc (run_context example_quiet_machine)))
             (set_skip_instruction_execution false example_quiet_machine)).2
          ++ [DecodeCurrentInstruction; RunInstruction] ∧
    current_step vm2 = 1%nat.
Proof.
  pose (r1 := run_hints example_compile 0
                (default [] (hints example_quiet_machine
                               !! RunContextBase.pc (run_context example_quiet_machine)))
                (set_skip_instruction_execution false example_quiet_machine)).
  destruct (step_runs_instruction unit example_compile
              example_decode_current_instruction example_run_instruction
              example_quiet_machine r1.1.2 r1.2) as (Hstep & _).
  - vm_compute. reflexivity.
  - eexists _, _. split; [exact Hstep|]. split; [reflexivity|].
    vm_compute. reflexivity.
Defined.

Lemma step_hint_exception_witness :
  (step unit example_compile example_decode_current_instruction
        example_run_instruction example_raising_machine).1.1
    = Raise (VmException (Reloc (mkRelocatable 0 0))
               (HintException (ValueError "boom")) (Some 1%nat)) ∧
  hint_loop_exception
    (run_hints example_compile 0
       (default [] (hints example_raising_machine
                      !! RunContextBase.pc (run_context example_raising_machine)))
       (set_skip_instruction_execution false example_raising_machine)).1.2
    (length (default [] (hints example_raising_machine
                           !! RunContextBase.pc (run_context example_raising_machine))))
    (VmException (Reloc (mkRelocatable 0 0)) (HintException (ValueError "boom"))
       (Some 1%nat)) ∧
  (step unit example_compile example_decode_current_instruction
        example_run_instruction example_exiting_machine).1.1 = Raise (SystemExit 1).
Proof.
  pose (r1 := run_hints example_compile 0
                (default [] (hints example_raising_machine
                               !! RunContextBase.pc (run_context example_raising_machine)))
                (set_skip_instruction_execution false example_raising_machine)).
  pose (r2 := run_hints example_compile 0
                (default [] (hints example_exiting_machine
                               !! RunContextBase.pc (run_context example_exiting_machine)))
                (set_skip_instruction_execution false example_exiting_machine)).
  destruct (step_hint_exception unit example_compile
              example_decode_current_instruction example_run_instruction
              example_raising_machine r1.1.2 r1.2
              (VmException (Reloc (mkRelocatable 0 0))
                 (HintException (ValueError "boom")) (Some 1%nat)))
    as (Hstep & Hexception & _).
  { discriminate. }
  { vm_compute. reflexivity. }
  destruct (step_hint_exception unit example_compile
              example_decode_current_instruction example_run_instruction
              example_exiting_machine r2.1.2 r2.2 (SystemExit 1))
    as (Hexit & _).
  { discriminate. }
  { vm_compute. reflexivity. }
  split; [by rewrite Hstep|]. split; [exact Hexception | by rewrite Hexit].
Defined.

Lemma run_hint_clears_ids_and_memory_witness :
  let vm' := (run_hint example_compile 0
                (mkCompiledHint HReturn (example_consts (Hint.mk "pass" [] 0)))
                (example_machine None)).1.2 in
  deref vm' 0 !! "ids" = None ∧ deref vm' 0 !! "memory" = None.
Proof.
  apply (run_hint_clears_ids_and_memory example_compile 0
           (mkCompiledHint HReturn (example_consts (Hint.mk "pass" [] 0)))
           (example_machine None) _
           (run_hint example_compile 0
              (mkCompiledHint HReturn (example_consts (Hint.mk "pass" [] 0)))
              (example_machine None)).2 0%nat).
  - reflexivity.
  - vm_compute. reflexivity.
Defined.

Lemma load_debug_info_get_location_witness :
  let vm' := (load_debug_info (Some example_debug_info) (Reloc (mkRelocatable 0 0))
                (example_machine None)).1.2 in
  (∀ offset location,
     (offset, location) ∈ DebugInfo.instruction_locations example_debug_info →
     get_location (add_int (Reloc (mkRelocatable 0 0)) offset) vm' = Some location) ∧
  (∀ pc,
     (∀ offset, offset ∈ (DebugInfo.instruction_locations example_debug_info).*1 →
                pc ≠ add_int (Reloc (mkRelocatable 0 0)) offset) →
     get_location pc vm' = get_location pc (example_machine None)) ∧
  (∀ name,
     debug_file_contents vm' !! name
       = match DebugInfo.file_contents example_debug_info !! name with
         | Some content => Some content
         | None => debug_file_contents (example_machine None) !! name
         end) ∧
  (load_debug_info None (Reloc (mkRelocatable 0 0)) (example_machine None)).1.2
    = example_machine None.
Proof.
  apply (load_debug_info_get_location example_debug_info (Reloc (mkRelocatable 0 0))
           (example_machine None)).
  simpl. apply NoDup_cons. split.
  - intros Hin. apply list_elem_of_singleton in Hin. discriminate Hin.
  - apply NoDup_singleton.
Defined.

Lemma get_perm_range_check_limits_undecodable_witness :
  ∃ e,
    get_perm_range_check_limits example_decode_instruction_values
      (example_trace ++ TraceEntry.mk 7 103 100 :: []) example_program_memory = Raise e ∧
    match MemoryDict.get example_program_memory (Int (TraceEntry.pc (TraceEntry.mk 7 103 100)))
    with
    | Some encoded_instruction =>
        example_decode_instruction_values encoded_instruction = Raise e
    | None => e = UnknownMemoryError (Int (TraceEntry.pc (TraceEntry.mk 7 103 100)))
    end.
Proof.
  apply (get_perm_range_check_limits_undecodable example_decode_instruction_values
           example_trace [] (TraceEntry.mk 7 103 100) example_program_memory).
  - repeat constructor.
    + exists (example_encode 1 2 3), 0, 1, 2, 3. split; reflexivity.
    + exists (example_encode 0 5 2), 0, 0, 5, 2. split; reflexivity.
    + exists (example_encode 4 4 4), 0, 4, 4, 4. split; reflexivity.
  - intros (encoded & flags & off0 & off1 & off2 & Hget & _). discriminate Hget.
Defined.
